(** * api-store: the order fulfilment core

    A shallow embedding of the back end of the license-key shop and the
    properties its specification states:
    - the Key Vault, backend/src/utils/encryption.js;
    - the order service, backend/src/services/order.service.js
      (payment callback, key allocation, cancellation, refund);
    - the admin license-key routes (bulk import, revocation);
    - the inventory service (low-stock alerts with a cooldown, the stock
      report, the monitor);
    - placing an order ([createOrder] with product.service.js), the payment
      notification routes, and the admin routes that delete keys and
      products.

    Conventions of the embedding:
    - a Node [Buffer] is a [list byte]; a JavaScript string is the
      [string] of its UTF-8 bytes, so that the 'utf8' conversions of the
      cipher are the identity; this holds every string of Unicode text, and
      [Vault.utf8Write] gives the bytes of a string that is not one, with
      a surrogate on its own;
    - a database table is the list of its rows, in the order in which the
      store enumerates them;
    - a Decimal(10,2) column of the store is its value counted in cents; a
      JavaScript number that comes from outside (the amount of a payment
      notification) is an IEEE 754 binary64 value; instants are
      milliseconds, and one instant stands for the calls of [new Date()] of
      one operation;
    - [new Date()], [crypto.randomBytes] and the answers of the external
      collaborators (payment gateway, mail transport, alert channels) are
      explicit arguments of the operations that use them;
    - a thrown exception is the [Err] branch of [result]. *)

From Stdlib Require Import NArith ZArith Lia List String Ascii Bool.
From Stdlib.Strings Require Import Byte.
From Stdlib.Floats Require Import SpecFloat.
From Stdlib Require Import Sorting.Sorted Sorting.Permutation.
From stdpp Require Import base option list gmap strings pretty.

Local Open Scope string_scope.

(** ** Exceptions *)

Inductive result (E A : Type) : Type :=
| Ok (a : A)
| Err (e : E).
Arguments Ok {E A} a.
Arguments Err {E A} e.

#[export] Instance byte_eq_decision : EqDecision byte := Byte.byte_eq_dec.

(** * JavaScript numbers *)

Module Double.

(** A number is a binary64 value, with the arithmetic of IEEE 754 as the
    Standard Library specifies it (round to nearest, ties to even). *)
Definition number : Type := spec_float.

Definition prec : Z := 53.
Definition emax : Z := 1024.

(** The number of an integer literal or of an integer column. *)
Definition of_Z (n : Z) : number := binary_normalize prec emax n 0 false.

Definition sub (x y : number) : number := SFsub prec emax x y.
Definition div (x y : number) : number := SFdiv prec emax x y.

(** [Math.abs] *)
Definition abs (x : number) : number := SFabs x.

(** [x > y]; false when either is NaN. *)
Definition gt (x y : number) : bool := SFltb y x.

Definition NaN : number := S754_nan.

(** [parseFloat] of a decimal with two places, given in cents: the number
    nearest to it, which is the correctly rounded quotient by 100 (an
    integer below 2^53 is a number exactly). *)
Definition of_cents (cents : Z) : number := div (of_Z cents) (of_Z 100).

(** The literal [0.01]. *)
Definition one_hundredth : number := of_cents 1.

End Double.

(** * Key Vault: backend/src/utils/encryption.js *)

Module Vault.

Definition IV_LENGTH : nat := 16.
Definition TAG_LENGTH : nat := 16.
Definition KEY_LENGTH : nat := 32.

(** *** The 'hex' encoding of Buffers *)

Definition hex_digit (n : N) : ascii :=
  if (n <? 10)%N then ascii_of_N (48 + n) else ascii_of_N (87 + n).

Definition hex_value (c : ascii) : option N :=
  let n := N_of_ascii c in
  if ((48 <=? n) && (n <=? 57))%N then Some (n - 48)%N
  else if ((97 <=? n) && (n <=? 102))%N then Some (n - 87)%N
  else if ((65 <=? n) && (n <=? 70))%N then Some (n - 55)%N
  else None.

Definition byte_of_N (n : N) : byte :=
  match Byte.of_N n with Some b => b | None => x00 end.

(** [buf.toString('hex')] *)
Fixpoint hex_encode (bs : list byte) : string :=
  match bs with
  | [] => EmptyString
  | b :: bs' =>
      String (hex_digit (Byte.to_N b / 16))
        (String (hex_digit (Byte.to_N b mod 16)) (hex_encode bs'))
  end.

(** [Buffer.from(s, 'hex')]: pairs of digits, up to the first pair that is
    not hexadecimal. *)
Fixpoint hex_decode (s : string) : list byte :=
  match s with
  | String c1 (String c2 s') =>
      match hex_value c1, hex_value c2 with
      | Some h, Some l => byte_of_N (16 * h + l) :: hex_decode s'
      | _, _ => []
      end
  | _ => []
  end.

(** *** The 'base64' encoding of Buffers *)

Definition b64_alphabet : list ascii :=
  list_ascii_of_string
    "ABCDEFGHIJKLMNOPQRSTUVWXYZabcdefghijklmnopqrstuvwxyz0123456789+/".

Definition b64_char (n : N) : ascii :=
  nth (N.to_nat n) b64_alphabet "A"%char.

(** The decoder of Node also reads the URL-safe digits '-' and '_'. *)
Definition b64_value (c : ascii) : option N :=
  let n := N_of_ascii c in
  if ((65 <=? n) && (n <=? 90))%N then Some (n - 65)%N
  else if ((97 <=? n) && (n <=? 122))%N then Some (n - 71)%N
  else if ((48 <=? n) && (n <=? 57))%N then Some (n + 4)%N
  else if ((n =? 43) || (n =? 45))%N then Some 62%N
  else if ((n =? 47) || (n =? 95))%N then Some 63%N
  else None.

(** Groups of three bytes become four sextets; one or two remaining bytes
    become two or three. *)
Fixpoint sextets_of_bytes (bs : list byte) : list N :=
  match bs with
  | a :: b :: c :: bs' =>
      let '(x, y, z) := (Byte.to_N a, Byte.to_N b, Byte.to_N c) in
      (x / 4 :: (x mod 4) * 16 + y / 16 :: (y mod 16) * 4 + z / 64 :: z mod 64
         :: sextets_of_bytes bs')%N
  | [a; b] =>
      let '(x, y) := (Byte.to_N a, Byte.to_N b) in
      [x / 4; (x mod 4) * 16 + y / 16; (y mod 16) * 4]%N
  | [a] =>
      let x := Byte.to_N a in [x / 4; (x mod 4) * 16]%N
  | [] => []
  end.

Fixpoint bytes_of_sextets (ss : list N) : list byte :=
  match ss with
  | s0 :: s1 :: s2 :: s3 :: ss' =>
      byte_of_N (s0 * 4 + s1 / 16)
        :: byte_of_N ((s1 mod 16) * 16 + s2 / 4)
        :: byte_of_N ((s2 mod 4) * 64 + s3)
        :: bytes_of_sextets ss'
  | [s0; s1; s2] =>
      [byte_of_N (s0 * 4 + s1 / 16); byte_of_N ((s1 mod 16) * 16 + s2 / 4)]
  | [s0; s1] => [byte_of_N (s0 * 4 + s1 / 16)]
  | _ => []
  end%N.

Definition b64_padding (n : nat) : string :=
  match n mod 3 with
  | 1 => "=="
  | 2 => "="
  | _ => ""
  end.

(** [buf.toString('base64')] *)
Definition base64_encode (bs : list byte) : string :=
  string_of_list_ascii (map b64_char (sextets_of_bytes bs))
    ++ b64_padding (List.length bs).

(** The digits of a base64 text: reading stops at the first '=', and a
    character outside the alphabet is skipped. *)
Fixpoint b64_digits (s : string) : list N :=
  match s with
  | EmptyString => []
  | String c s' =>
      if Ascii.eqb c "="%char then []
      else match b64_value c with
           | Some v => v :: b64_digits s'
           | None => b64_digits s'
           end
  end.

(** [Buffer.from(s, 'base64')] *)
Definition base64_decode (s : string) : list byte :=
  bytes_of_sextets (b64_digits s).

(** [buf.subarray(start, end)]: a negative index counts from the end, and
    both are clamped to the buffer. *)
Definition clamp_index (len : nat) (i : Z) : nat :=
  if (i <? 0)%Z then Z.to_nat (Z.max (Z.of_nat len + i) 0)
  else Nat.min (Z.to_nat i) len.

Definition subarray (bs : list byte) (from to : Z) : list byte :=
  let s := clamp_index (List.length bs) from in
  let e := clamp_index (List.length bs) to in
  take (e - s) (drop s bs).

(** The UTF-16 code units a byte of UTF-8 text stands for: a byte that
    starts a character counts one, a continuation byte none, and the lead
    byte of a four-byte sequence (a character outside the basic plane, a
    surrogate pair in UTF-16) two. *)
Definition utf16_units (c : ascii) : nat :=
  let n := N_of_ascii c in
  if ((128 <=? n) && (n <? 192))%N then 0
  else if (240 <=? n)%N then 2 else 1.

(** [s.length] of a string that is held as its UTF-8 bytes. *)
Fixpoint utf16_length (s : string) : nat :=
  match s with
  | EmptyString => 0
  | String c s' => utf16_units c + utf16_length s'
  end.

(** The 'utf8' encoding of a JavaScript string given by its UTF-16 code
    units, which [cipher.update(text, 'utf8', 'hex')] applies to the
    plaintext: a surrogate pair is one character, and a surrogate on its
    own is written as U+FFFD, the replacement character. *)
Definition utf8_of_code_point (cp : N) : string :=
  if (cp <? 0x80)%N then String (ascii_of_N cp) EmptyString
  else if (cp <? 0x800)%N then
    String (ascii_of_N (0xC0 + cp / 64))
      (String (ascii_of_N (0x80 + cp mod 64)) EmptyString)
  else if (cp <? 0x10000)%N then
    String (ascii_of_N (0xE0 + cp / 4096))
      (String (ascii_of_N (0x80 + (cp / 64) mod 64))
         (String (ascii_of_N (0x80 + cp mod 64)) EmptyString))
  else
    String (ascii_of_N (0xF0 + cp / 262144))
      (String (ascii_of_N (0x80 + (cp / 4096) mod 64))
         (String (ascii_of_N (0x80 + (cp / 64) mod 64))
            (String (ascii_of_N (0x80 + cp mod 64)) EmptyString))).

Definition is_high_surrogate (u : N) : bool := ((0xD800 <=? u) && (u <=? 0xDBFF))%N.
Definition is_low_surrogate (u : N) : bool := ((0xDC00 <=? u) && (u <=? 0xDFFF))%N.

Definition REPLACEMENT_CHARACTER : N := 0xFFFD.

Fixpoint utf8Write (units : list N) : string :=
  match units with
  | [] => EmptyString
  | u :: rest =>
      if is_high_surrogate u then
        match rest with
        | lo :: rest' =>
            if is_low_surrogate lo then
              utf8_of_code_point (0x10000 + (u - 0xD800) * 1024 + (lo - 0xDC00))
                ++ utf8Write rest'
            else utf8_of_code_point REPLACEMENT_CHARACTER ++ utf8Write rest
        | [] => utf8_of_code_point REPLACEMENT_CHARACTER
        end
      else if is_low_surrogate u then
        utf8_of_code_point REPLACEMENT_CHARACTER ++ utf8Write rest
      else utf8_of_code_point u ++ utf8Write rest
  end.

Section Cipher.

(** AES-256-GCM of the [crypto] module: [gcm_seal key iv plaintext] is
    the pair of [update(..) + final()] and [getAuthTag()];
    [gcm_open key iv ciphertext tag] is [None] when [final()] throws
    because the tag does not authenticate the ciphertext. *)
Variable gcm_seal : list byte -> list byte -> list byte -> list byte * list byte.
Variable gcm_open : list byte -> list byte -> list byte -> list byte -> option (list byte).

(** [crypto.scryptSync(key, 'salt', KEY_LENGTH)] *)
Variable scrypt : string -> list byte.

Inductive vault_error : Type :=
| EncryptionFailed
| DecryptionFailed.

(** [getEncryptionKey()], on the value of [process.env.ENCRYPTION_KEY];
    [None] when it throws: the variable is not set, or is the empty
    string. *)
Definition getEncryptionKey (env_key : option string) : option (list byte) :=
  match env_key with
  | None => None
  | Some EmptyString => None
  | Some key =>
      if Nat.eqb (utf16_length key) 64 then Some (hex_decode key)
      else Some (scrypt key)
  end.

(** [encrypt(text)]; [iv] is the value of [crypto.randomBytes(IV_LENGTH)].
    [createCipheriv] throws on a key that is not of [KEY_LENGTH] bytes. *)
Definition encrypt (env_key : option string) (iv : list byte) (text : string)
  : result vault_error string :=
  match getEncryptionKey env_key with
  | None => Err EncryptionFailed
  | Some key =>
      if negb (Nat.eqb (List.length key) KEY_LENGTH) then Err EncryptionFailed
      else
        let '(ct, authTag) := gcm_seal key iv (list_byte_of_string text) in
        let encrypted := hex_encode ct in
        Ok (base64_encode (iv ++ hex_decode encrypted ++ authTag))
  end.

(** [decrypt(encryptedText)] *)
Definition decrypt (env_key : option string) (encryptedText : string)
  : result vault_error string :=
  match getEncryptionKey env_key with
  | None => Err DecryptionFailed
  | Some key =>
      if negb (Nat.eqb (List.length key) KEY_LENGTH) then Err DecryptionFailed
      else
        let buffer := base64_decode encryptedText in
        let len := Z.of_nat (List.length buffer) in
        let iv := subarray buffer 0 (Z.of_nat IV_LENGTH) in
        let authTag := subarray buffer (len - Z.of_nat TAG_LENGTH) len in
        let encrypted :=
          subarray buffer (Z.of_nat IV_LENGTH) (len - Z.of_nat TAG_LENGTH) in
        match gcm_open key iv encrypted authTag with
        | Some pt => Ok (string_of_list_byte pt)
        | None => Err DecryptionFailed
        end
  end.

End Cipher.

End Vault.

(** * The persisted state: Order / OrderItem / LicenseKey / Product *)

Module Store.

Inductive OrderStatus : Type := PENDING | PAID | COMPLETED | CANCELLED | REFUNDED.
Inductive KeyStatus : Type := KeyAvailable | KeySold | KeyRevoked.
Inductive ProductStatus : Type := ProductActive | ProductInactive.

#[export] Instance OrderStatus_eq_dec : EqDecision OrderStatus.
Proof. solve_decision. Defined.
#[export] Instance KeyStatus_eq_dec : EqDecision KeyStatus.
Proof. solve_decision. Defined.
#[export] Instance ProductStatus_eq_dec : EqDecision ProductStatus.
Proof. solve_decision. Defined.

Record Product : Type := mkProduct {
  product_id : nat;
  product_name : string;
  product_status : ProductStatus
}.

Record OrderItem : Type := mkOrderItem {
  item_id : nat;
  item_orderId : nat;
  item_productId : nat;
  item_productName : string;
  item_quantity : nat;
  item_unitPrice : Z;
  item_subtotal : Z
}.

Record Order : Type := mkOrder {
  order_id : nat;
  order_orderNo : string;
  order_email : string;
  order_totalAmount : Z;
  order_status : OrderStatus;
  order_paymentMethod : string;
  order_transactionId : option string;
  order_paidAt : option Z;
  order_createdAt : Z
}.

Record LicenseKey : Type := mkLicenseKey {
  key_id : nat;
  key_productId : nat;
  keyValueEncrypted : string;
  key_status : KeyStatus;
  key_orderId : option nat;
  key_createdAt : Z;
  key_soldAt : option Z;
  key_revokedAt : option Z;
  key_revokeReason : option string
}.

(** The tables, each in the order in which the store enumerates its rows;
    [key_seq] is the last value of the serial key id. *)
Record Db : Type := mkDb {
  orders : list Order;
  orderItems : list OrderItem;
  licenseKeys : list LicenseKey;
  products : list Product;
  key_seq : nat
}.

Definition with_orders (os : list Order) (d : Db) : Db :=
  mkDb os (orderItems d) (licenseKeys d) (products d) (key_seq d).

Definition with_licenseKeys (ks : list LicenseKey) (d : Db) : Db :=
  mkDb (orders d) (orderItems d) ks (products d) (key_seq d).

(** *** Errors thrown by the services *)

Inductive BadRequest : Type :=
| AmountMismatch
| InsufficientKeys (productName : string) (required available : nat)
| CannotCancel (st : OrderStatus)
| CannotRefund (st : OrderStatus)
| RefundExceedsTotal
| UnsupportedPaymentMethod (method : string).

Inductive AppErr : Type :=
| NotFoundError (message : string)
| BadRequestError (why : BadRequest)
| AppError (message : string) (statusCode : nat)
| RecordNotFound
| GatewayException.

(** *** The collaborators and what they are asked *)

Record MailRequest : Type := mkMail {
  mail_to : string;
  mail_orderNo : string;
  mail_keys : list (nat * nat * string)
}.

Record RefundRequest : Type := mkRefundRequest {
  refund_method : string;
  refund_orderNo : string;
  refund_amount : Z;
  refund_total : Z;
  refund_reason : string
}.

Inductive GatewayAnswer : Type :=
| GatewaySuccess
| GatewayFailure
| GatewayThrows (e : AppErr).

(** [decrypt] is the Key Vault's, [None] when it throws;
    [sendOrderConfirmation] is [false] when the mail transport throws;
    [gatewayRefund] is [paymentService.refund]. *)
Record Collaborators : Type := mkCollaborators {
  decrypt : string -> option string;
  sendOrderConfirmation : MailRequest -> bool;
  gatewayRefund : RefundRequest -> GatewayAnswer
}.

(** What an observer outside the database sees, in order. *)
Inductive event : Type :=
| EvMail (req : MailRequest) (delivered : bool)
| EvRefund (req : RefundRequest) (answer : GatewayAnswer)
| EvCommit
| EvRollback.

Record World : Type := mkWorld {
  db : Db;
  log : list event
}.

(** *** Code that runs inside [prisma.$transaction] *)

Definition Tx (A : Type) : Type := World -> result AppErr A * World.

Definition ret {A} (a : A) : Tx A := fun w => (Ok a, w).

Definition throw {A} (e : AppErr) : Tx A := fun w => (Err e, w).

Definition bind {A B} (c : Tx A) (k : A -> Tx B) : Tx B :=
  fun w =>
    match c w with
    | (Ok a, w') => k a w'
    | (Err e, w') => (Err e, w')
    end.

Notation "'do' x <- c ; k" := (bind c (fun x => k))
  (at level 10, x name, c at level 100, k at level 200).
Notation "'run' c ; k" := (bind c (fun _ => k))
  (at level 10, c at level 100, k at level 200).

Definition read {A} (f : Db -> A) : Tx A := fun w => (Ok (f (db w)), w).

Definition write (f : Db -> Db) : Tx unit :=
  fun w => (Ok tt, mkWorld (f (db w)) (log w)).

Definition emit (e : event) : Tx unit :=
  fun w => (Ok tt, mkWorld (db w) (log w ++ [e])).

Fixpoint forEach {A} (l : list A) (body : A -> Tx unit) : Tx unit :=
  match l with
  | [] => ret tt
  | x :: l' => run body x; forEach l' body
  end.

(** [prisma.$transaction(callback)]: the writes of a callback that throws
    are rolled back; what it did outside the database stays done. *)
Definition transaction {A} (callback : Tx A) : Tx A :=
  fun w =>
    match callback w with
    | (Ok a, w') => (Ok a, mkWorld (db w') (log w' ++ [EvCommit]))
    | (Err e, w') => (Err e, mkWorld (db w) (log w' ++ [EvRollback]))
    end.

(** *** Queries *)

(** [order.findUnique({ where: { orderNo } })] *)
Definition order_findUnique (orderNo : string) (d : Db) : option Order :=
  List.find (fun o => bool_decide (order_orderNo o = orderNo)) (orders d).

(** [include: { orderItems }] *)
Definition orderItems_of (o : Order) (d : Db) : list OrderItem :=
  List.filter (fun it => Nat.eqb (item_orderId it) (order_id o)) (orderItems d).

(** [order.update({ where: { id }, data })]; Prisma throws when no row has
    the id. *)
Definition order_update (id : nat) (data : Order -> Order) : Tx Order :=
  fun w =>
    match List.find (fun o => Nat.eqb (order_id o) id) (orders (db w)) with
    | None => (Err RecordNotFound, w)
    | Some o =>
        (Ok (data o),
         mkWorld
           (with_orders
              (map (fun o' => if Nat.eqb (order_id o') id then data o' else o')
                 (orders (db w)))
              (db w))
           (log w))
    end.

(** [orderBy: { createdAt: 'asc' }]: rows of equal creation time stay in the
    order of the store, the query names no second criterion. *)
Fixpoint insert_by_createdAt (k : LicenseKey) (l : list LicenseKey) : list LicenseKey :=
  match l with
  | [] => [k]
  | h :: t =>
      if (key_createdAt k <=? key_createdAt h)%Z then k :: h :: t
      else h :: insert_by_createdAt k t
  end.

Definition orderBy_createdAt_asc (l : list LicenseKey) : list LicenseKey :=
  foldr insert_by_createdAt [] l.

(** [licenseKey.findMany({ where: { productId, status: 'available' },
      take: quantity, orderBy: { createdAt: 'asc' } })] *)
Definition licenseKey_findAvailable (productId quantity : nat) (d : Db) : list LicenseKey :=
  take quantity
    (orderBy_createdAt_asc
       (List.filter
          (fun k => Nat.eqb (key_productId k) productId
                    && bool_decide (key_status k = KeyAvailable))
          (licenseKeys d))).

(** [licenseKey.updateMany({ where: { id: { in: ids } }, data })] *)
Definition licenseKey_updateMany (ids : list nat) (data : LicenseKey -> LicenseKey)
    (d : Db) : Db :=
  with_licenseKeys
    (map (fun k => if bool_decide (key_id k ∈ ids) then data k else k)
       (licenseKeys d))
    d.

(** Modelled from the spec: the Prisma schema (prisma/schema.prisma), which
    declares the relation behind [orderItems: { include: { licenseKeys } }],
    is not among the sources. In the data model of the specification a
    LicenseKey is tied to a sale by its [order_id] back-reference alone, so
    the keys of an order item are the keys that reference the item's
    order. *)
Definition item_licenseKeys (d : Db) (it : OrderItem) : list LicenseKey :=
  List.filter (fun k => bool_decide (key_orderId k = Some (item_orderId it)))
    (licenseKeys d).

End Store.

(** * backend/src/services/order.service.js *)

Module OrderService.
Import Store.

Record Payload : Type := mkPayload {
  p_orderNo : string;
  p_transactionId : string;
  p_paymentMethod : string;
  p_status : string;
  p_amount : Double.number
}.

Record CallbackResult : Type := mkCallbackResult {
  cb_success : bool;
  cb_message : string;
  cb_orderNo : option string
}.

Record RefundResult : Type := mkRefundResult {
  rr_success : bool;
  rr_order : Order;
  rr_refundAmount : Z
}.

(** The [data] of the writes. *)
Definition markSold (orderId : nat) (now : Z) (k : LicenseKey) : LicenseKey :=
  mkLicenseKey (key_id k) (key_productId k) (keyValueEncrypted k)
    KeySold (Some orderId) (key_createdAt k) (Some now)
    (key_revokedAt k) (key_revokeReason k).

Definition release (k : LicenseKey) : LicenseKey :=
  mkLicenseKey (key_id k) (key_productId k) (keyValueEncrypted k)
    KeyAvailable None (key_createdAt k) None
    (key_revokedAt k) (key_revokeReason k).

Definition setPaid (st : OrderStatus) (transactionId : string) (now : Z) (o : Order) : Order :=
  mkOrder (order_id o) (order_orderNo o) (order_email o) (order_totalAmount o)
    st (order_paymentMethod o) (Some transactionId) (Some now) (order_createdAt o).

Definition setStatus (st : OrderStatus) (o : Order) : Order :=
  mkOrder (order_id o) (order_orderNo o) (order_email o) (order_totalAmount o)
    st (order_paymentMethod o) (order_transactionId o) (order_paidAt o)
    (order_createdAt o).

(** Step 1 of [_completeOrder], for one order item. *)
Definition allocateItem (order : Order) (now : Z) (item : OrderItem) : Tx unit :=
  let quantity := item_quantity item in
  do availableKeys <- read (licenseKey_findAvailable (item_productId item) quantity);
  if Nat.ltb (List.length availableKeys) quantity then
    throw (BadRequestError
             (InsufficientKeys (item_productName item) quantity
                (List.length availableKeys)))
  else
    let keyIds := map key_id availableKeys in
    write (licenseKey_updateMany keyIds (markSold (order_id order) now)).

(** Step 3 of [_completeOrder]: the [try { ... } catch] around decryption
    and mail; nothing leaves it. *)
Definition sendConfirmation (c : Collaborators) (order updatedOrder : Order) : Tx unit :=
  do items <- read (orderItems_of updatedOrder);
  do keys <- read (fun d => flat_map (item_licenseKeys d) items);
  match mapM (fun k => pair (key_id k, key_productId k) <$> decrypt c (keyValueEncrypted k)) keys with
  | None => ret tt
  | Some licenseKeys =>
      let req := mkMail (order_email order) (order_orderNo updatedOrder) licenseKeys in
      emit (EvMail req (sendOrderConfirmation c req))
  end.

(** [_completeOrder(tx, order, transactionId)] *)
Definition _completeOrder (c : Collaborators) (now : Z)
    (order : Order) (items : list OrderItem) (transactionId : string) : Tx unit :=
  run forEach items (allocateItem order now);
  do updatedOrder <- order_update (order_id order) (setPaid COMPLETED transactionId now);
  sendConfirmation c order updatedOrder.

(** The amount test of the callback,
    [Math.abs(orderAmount - amount) > 0.01] with
    [orderAmount = parseFloat(order.totalAmount)]: [totalAmount] is the
    Decimal column in cents, [amount] the number of the payload. A NaN
    amount passes the test. *)
Definition amountMismatch (totalAmount : Z) (amount : Double.number) : bool :=
  let orderAmount := Double.of_cents totalAmount in
  Double.gt (Double.abs (Double.sub orderAmount amount)) Double.one_hundredth.

(** [handlePaymentCallback({ orderNo, transactionId, paymentMethod, status,
    amount })]. [orderAmount] is [parseFloat(order.totalAmount)]. *)
Definition handlePaymentCallback (c : Collaborators) (now : Z) (p : Payload)
    : Tx CallbackResult :=
  transaction (
    do found <- read (order_findUnique (p_orderNo p));
    match found with
    | None => throw (NotFoundError ("Order " ++ p_orderNo p ++ " not found"))
    | Some order =>
        if negb (bool_decide (order_status order = PENDING)) then
          ret (mkCallbackResult true "Order already processed" None)
        else
        if amountMismatch (order_totalAmount order) (p_amount p) then
          throw (BadRequestError AmountMismatch)
        else if bool_decide (p_status p = "success") then
          do items <- read (orderItems_of order);
          run _completeOrder c now order items (p_transactionId p);
          ret (mkCallbackResult true "Order completed" (Some (p_orderNo p)))
        else
          run order_update (order_id order)
                (setPaid CANCELLED (p_transactionId p) now);
          ret (mkCallbackResult false "Payment failed" (Some (p_orderNo p)))
    end).

(** [cancelOrder(orderNo)] *)
Definition cancelOrder (orderNo : string) : Tx Order :=
  transaction (
    do found <- read (order_findUnique orderNo);
    match found with
    | None => throw (NotFoundError "Order not found")
    | Some order =>
        if negb (bool_decide (order_status order = PENDING)) then
          throw (BadRequestError (CannotCancel (order_status order)))
        else
          order_update (order_id order) (setStatus CANCELLED)
    end).

(** [paymentService.refund(order.paymentMethod, { ... })], awaited inside
    the transaction. *)
Definition callGateway (c : Collaborators) (req : RefundRequest) : Tx bool :=
  let answer := gatewayRefund c req in
  run emit (EvRefund req answer);
  match answer with
  | GatewaySuccess => ret true
  | GatewayFailure => ret false
  | GatewayThrows e => throw e
  end.

(** [refundAmount || totalAmount]; [refundAmount] is [None] when the caller
    leaves it undefined. *)
Definition actualRefundAmount (refundAmount : option Z) (totalAmount : Z) : Z :=
  match refundAmount with
  | None => totalAmount
  | Some a => if (a =? 0)%Z then totalAmount else a
  end.

(** [refundOrder(orderNo, refundAmount, refundReason)] *)
Definition refundOrder (c : Collaborators) (orderNo : string)
    (refundAmount : option Z) (refundReason : string) : Tx RefundResult :=
  transaction (
    do found <- read (order_findUnique orderNo);
    match found with
    | None => throw (NotFoundError "Order not found")
    | Some order =>
        if negb (bool_decide (order_status order = COMPLETED))
           && negb (bool_decide (order_status order = PAID)) then
          throw (BadRequestError (CannotRefund (order_status order)))
        else
          do items <- read (orderItems_of order);
          do linked <- read (fun d => flat_map (item_licenseKeys d) items);
          let totalAmount := order_totalAmount order in
          let actualRefundAmount := actualRefundAmount refundAmount totalAmount in
          if (actualRefundAmount >? totalAmount)%Z then
            throw (BadRequestError RefundExceedsTotal)
          else
            do success <- callGateway c
                 (mkRefundRequest (order_paymentMethod order) (order_orderNo order)
                    actualRefundAmount totalAmount refundReason);
            if negb success then throw (AppError "Refund failed" 500)
            else
              let licenseKeyIds := map key_id linked in
              run (if Nat.ltb 0 (List.length licenseKeyIds)
                   then write (licenseKey_updateMany licenseKeyIds release)
                   else ret tt);
              do updatedOrder <- order_update (order_id order) (setStatus REFUNDED);
              ret (mkRefundResult true updatedOrder actualRefundAmount)
    end).

(** The request [refundOrder] sends to the gateway for an order. *)
Definition refundRequestOf (order : Order) (refundAmount : option Z) (refundReason : string)
    : RefundRequest :=
  mkRefundRequest (order_paymentMethod order) (order_orderNo order)
    (actualRefundAmount refundAmount (order_totalAmount order))
    (order_totalAmount order) refundReason.

(** Whether an order may be refunded. *)
Definition refundable (order : Order) : bool :=
  bool_decide (order_status order = COMPLETED) || bool_decide (order_status order = PAID).

(** The answer of the idempotency guard. *)
Definition alreadyProcessed : CallbackResult :=
  mkCallbackResult true "Order already processed" None.

(** What step 3 of [_completeOrder] lets the outside see: the mail when
    every key decrypts, nothing otherwise. *)
Definition confirmationEvents (c : Collaborators) (order updatedOrder : Order) (d : Db)
    : list event :=
  match mapM (fun k => pair (key_id k, key_productId k) <$> decrypt c (keyValueEncrypted k))
          (flat_map (item_licenseKeys d) (orderItems_of updatedOrder d)) with
  | None => []
  | Some licenseKeys =>
      let req := mkMail (order_email order) (order_orderNo updatedOrder) licenseKeys in
      [EvMail req (sendOrderConfirmation c req)]
  end.

(** The order of events of the specification: a confirmation mail leaves
    only after the commit of the transaction. *)
Fixpoint mailOnlyAfterCommit (committed : bool) (l : list event) : bool :=
  match l with
  | [] => true
  | EvCommit :: l' => mailOnlyAfterCommit true l'
  | EvMail _ _ :: l' => committed && mailOnlyAfterCommit committed l'
  | _ :: l' => mailOnlyAfterCommit committed l'
  end.

(** *** The allocation as the specification words it *)

(** Creation time ascending, then id ascending. *)
Definition createdAt_then_id (a b : LicenseKey) : bool :=
  (key_createdAt a <? key_createdAt b)%Z
  || ((key_createdAt a =? key_createdAt b)%Z && Nat.leb (key_id a) (key_id b)).

Fixpoint insert_by_createdAt_id (k : LicenseKey) (l : list LicenseKey) : list LicenseKey :=
  match l with
  | [] => [k]
  | h :: t =>
      if createdAt_then_id k h then k :: h :: t
      else h :: insert_by_createdAt_id k t
  end.

(** The selection of the specification: the [quantity] least available keys
    of the product under (creation time, id). *)
Definition fifo_by_createdAt_then_id (productId quantity : nat) (d : Db) : list LicenseKey :=
  take quantity
    (foldr insert_by_createdAt_id []
       (List.filter
          (fun k => Nat.eqb (key_productId k) productId
                    && bool_decide (key_status k = KeyAvailable))
          (licenseKeys d))).

(** The optimistic write of the specification:
    [UPDATE ... WHERE id IN (...) AND status = 'available'], with the number
    of rows it affects. *)
Definition updateMany_where_available (ids : list nat) (data : LicenseKey -> LicenseKey)
    (d : Db) : nat * Db :=
  let hit k := bool_decide (key_id k ∈ ids) && bool_decide (key_status k = KeyAvailable) in
  (List.length (List.filter hit (licenseKeys d)),
   with_licenseKeys (map (fun k => if hit k then data k else k) (licenseKeys d)) d).

(** *** Vocabulary of the statements about allocation *)

Definition olderOrSame (a b : LicenseKey) : Prop :=
  (key_createdAt a <= key_createdAt b)%Z.

(** The available keys of a product, as the store enumerates them. *)
Definition availableOf (productId : nat) (d : Db) : list LicenseKey :=
  List.filter
    (fun k => Nat.eqb (key_productId k) productId
              && bool_decide (key_status k = KeyAvailable))
    (licenseKeys d).

End OrderService.

(** * The admin license-key routes, backend/src/routes/admin/license-keys.js *)

Module AdminLicenseKeys.
Import Store.

Inductive Reply (A : Type) : Type :=
| Reply200 (data : A)
| Reply400 (code : string)
| Reply404 (code : string).
Arguments Reply200 {A} data.
Arguments Reply400 {A} code.
Arguments Reply404 {A} code.

Record ImportReport : Type := mkImportReport {
  imported : nat;
  duplicates : nat;
  total : nat
}.

(** [String.prototype.trim]: the white space and the line terminators of
    ECMAScript, on the UTF-8 bytes of the string. One byte: U+0009 to
    U+000D and U+0020. Two bytes: U+00A0. Three bytes: U+1680, U+2000 to
    U+200A, U+2028, U+2029, U+202F, U+205F, U+3000 and U+FEFF. *)
Definition is_space (c : ascii) : bool :=
  let n := N_of_ascii c in ((n =? 32) || ((9 <=? n) && (n <=? 13)))%N.

Definition is_space2 (c1 c2 : ascii) : bool :=
  ((N_of_ascii c1 =? 194) && (N_of_ascii c2 =? 160))%N.

Definition is_space3 (c1 c2 c3 : ascii) : bool :=
  let a := N_of_ascii c1 in
  let b := N_of_ascii c2 in
  let c := N_of_ascii c3 in
  (((a =? 225) && (b =? 154) && (c =? 128))
   || ((a =? 226) && (b =? 128)
       && (((128 <=? c) && (c <=? 138)) || (c =? 168) || (c =? 169) || (c =? 175)))
   || ((a =? 226) && (b =? 129) && (c =? 159))
   || ((a =? 227) && (b =? 128) && (c =? 128))
   || ((a =? 239) && (b =? 187) && (c =? 191)))%N.

(** Whether a string is one white-space character. *)
Definition is_one_space (s : string) : bool :=
  match s with
  | String c EmptyString => is_space c
  | String c1 (String c2 EmptyString) => is_space2 c1 c2
  | String c1 (String c2 (String c3 EmptyString)) => is_space3 c1 c2 c3
  | _ => false
  end.

Fixpoint trim_start (s : string) : string :=
  match s with
  | EmptyString => EmptyString
  | String c1 s1 =>
      if is_space c1 then trim_start s1
      else
        match s1 with
        | EmptyString => s
        | String c2 s2 =>
            if is_space2 c1 c2 then trim_start s2
            else
              match s2 with
              | EmptyString => s
              | String c3 s3 => if is_space3 c1 c2 c3 then trim_start s3 else s
              end
        end
  end.

(** From the end: what is left of the tail, with the character before it,
    is dropped when it is one white-space character. *)
Fixpoint trim_end (s : string) : string :=
  match s with
  | EmptyString => EmptyString
  | String c s' =>
      let kept := String c (trim_end s') in
      if is_one_space kept then EmptyString else kept
  end.

Definition trim (s : string) : string := trim_end (trim_start s).

(** [[...new Set(xs)]]: the first occurrence of each value, in order. *)
Fixpoint uniq_from (seen xs : list string) : list string :=
  match xs with
  | [] => []
  | x :: xs' =>
      if bool_decide (x ∈ seen) then uniq_from seen xs'
      else x :: uniq_from (x :: seen) xs'
  end.

Definition uniq (xs : list string) : list string := uniq_from [] xs.

(** The rows of [createMany]: serial ids, [created_at] by default now. *)
Fixpoint newRows (next productId : nat) (now : Z) (values : list string) : list LicenseKey :=
  match values with
  | [] => []
  | keyValue :: values' =>
      mkLicenseKey next productId keyValue KeyAvailable None now None None None
        :: newRows (S next) productId now values'
  end.

(** POST /bulk-import *)
Definition bulkImport (productId : nat) (keys : list string) (now : Z) (d : Db)
    : Reply ImportReport * Db :=
  match List.find (fun p => Nat.eqb (product_id p) productId) (products d) with
  | None => (Reply404 "PRODUCT_NOT_FOUND", d)
  | Some product =>
      let uniqueKeys :=
        List.filter (fun k => Nat.ltb 0 (String.length k)) (uniq (map trim keys)) in
      if Nat.eqb (List.length uniqueKeys) 0 then (Reply400 "NO_VALID_KEYS", d)
      else
        let existingKeys :=
          List.filter
            (fun k => Nat.eqb (key_productId k) productId
                      && bool_decide (keyValueEncrypted k ∈ uniqueKeys))
            (licenseKeys d) in
        let existingKeyValues := map keyValueEncrypted existingKeys in
        let newKeys :=
          List.filter (fun k => negb (bool_decide (k ∈ existingKeyValues))) uniqueKeys in
        if Nat.eqb (List.length newKeys) 0 then (Reply400 "ALL_KEYS_EXIST", d)
        else
          let rows := newRows (S (key_seq d)) productId now newKeys in
          (Reply200 (mkImportReport (List.length rows)
                       (List.length existingKeyValues) (List.length uniqueKeys)),
           mkDb (orders d) (orderItems d) (licenseKeys d ++ rows) (products d)
             (key_seq d + List.length rows))
  end.

Definition markRevoked (now : Z) (reason : option string) (k : LicenseKey) : LicenseKey :=
  mkLicenseKey (key_id k) (key_productId k) (keyValueEncrypted k)
    KeyRevoked (key_orderId k) (key_createdAt k) (key_soldAt k)
    (Some now)
    (match reason with
     | Some EmptyString => None
     | r => r
     end).

(** PATCH /:id/revoke *)
Definition revoke (id : nat) (reason : option string) (now : Z) (d : Db)
    : Reply LicenseKey * Db :=
  match List.find (fun k => Nat.eqb (key_id k) id) (licenseKeys d) with
  | None => (Reply404 "NOT_FOUND", d)
  | Some key =>
      if bool_decide (key_status key = KeyRevoked) then (Reply400 "ALREADY_REVOKED", d)
      else
        (Reply200 (markRevoked now reason key),
         with_licenseKeys
           (map (fun k => if Nat.eqb (key_id k) id then markRevoked now reason k else k)
              (licenseKeys d))
           d)
  end.

(** POST /bulk-revoke *)
Definition bulkRevoke (ids : list nat) (reason : option string) (now : Z) (d : Db)
    : Reply nat * Db :=
  let hit k := bool_decide (key_id k ∈ ids)
               && negb (bool_decide (key_status k = KeyRevoked)) in
  (Reply200 (List.length (List.filter hit (licenseKeys d))),
   with_licenseKeys
     (map (fun k => if hit k then markRevoked now reason k else k) (licenseKeys d))
     d).

End AdminLicenseKeys.

(** * The inventory service, backend/src/services/inventory.service.js *)

Module InventoryService.
Import Store.

Definition DEFAULT_THRESHOLD : Z := 10.

(** The constructor's [config.inventory?.alertThreshold || DEFAULT_THRESHOLD];
    [configured] is the value of [parseInt] in the configuration, [None]
    when it is NaN. The threshold is never 0, and nothing else is asked of
    it. *)
Definition configuredThreshold (configured : option Z) : Z :=
  match configured with
  | None => DEFAULT_THRESHOLD
  | Some n => if (n =? 0)%Z then DEFAULT_THRESHOLD else n
  end.
(** seconds *)
Definition ALERT_COOLDOWN : Z := 3600 * 24.
Definition CHECK_INTERVAL : Z := 3600.

(** The key-value store: a value and the instant (milliseconds) at which
    the entry expires. *)
Abbreviation Redis := (gmap string (string * option Z)).

(** [redis.exists(key)] at the instant [now] *)
Definition redis_exists (key : string) (now : Z) (r : Redis) : Z :=
  match r !! key with
  | Some (_, Some expireAt) => if (now <? expireAt)%Z then 1 else 0
  | Some (_, None) => 1
  | None => 0
  end.

(** [redis.setex(key, seconds, value)] at the instant [now] *)
Definition redis_setex (key : string) (seconds : Z) (value : string) (now : Z)
    (r : Redis) : Redis :=
  <[key := (value, Some (now + seconds * 1000)%Z)]> r.

(** [redis.del(key)] *)
Definition redis_del (key : string) (r : Redis) : Redis := delete key r.

Record StockInfo : Type := mkStockInfo {
  si_productId : nat;
  si_productName : string;
  si_stockCount : nat;
  si_threshold : Z;
  si_isLowStock : bool;
  si_status : ProductStatus
}.

(** The two channels of [sendStockAlert] as they stand during one check:
    [None] when the channel is not configured, otherwise whether sending
    the alert of a product succeeds. *)
Record Channels : Type := mkChannels {
  emailChannel : option (option Product -> nat -> bool);
  wechatChannel : option (option Product -> nat -> bool)
}.

(** One call of [sendStockAlert], as seen from outside. *)
Record Alert : Type := mkAlert {
  alert_productId : nat;
  alert_stock : nat;
  alert_email : option bool;
  alert_wechat : option bool
}.

Section Service.

(** [this.alertThreshold]: whatever integer the configuration holds,
    negative ones included. *)
Variable alertThreshold : Z.

Definition availableStock (d : Db) (productId : nat) : nat :=
  List.length
    (List.filter
       (fun k => Nat.eqb (key_productId k) productId
                 && bool_decide (key_status k = KeyAvailable))
       (licenseKeys d)).

(** [checkAllStock()] *)
Definition checkAllStock (d : Db) : list StockInfo :=
  map
    (fun p =>
       let n := availableStock d (product_id p) in
       mkStockInfo (product_id p) (product_name p) n alertThreshold
         (Z.of_nat n <=? alertThreshold)%Z (product_status p))
    (List.filter (fun p => bool_decide (product_status p = ProductActive))
       (products d)).

(** [getLowStockProducts()] *)
Definition getLowStockProducts (d : Db) : list StockInfo :=
  List.filter si_isLowStock (checkAllStock d).

Definition alertKey (productId : nat) : string :=
  "inventory:alert:" ++ pretty productId.

(** [_hasRecentAlert(productId)] *)
Definition _hasRecentAlert (productId : nat) (now : Z) (r : Redis) : bool :=
  Z.eqb (redis_exists (alertKey productId) now r) 1.

(** [_markAlertSent(productId)] *)
Definition _markAlertSent (productId : nat) (now : Z) (r : Redis) : Redis :=
  redis_setex (alertKey productId) ALERT_COOLDOWN "1" now r.

(** [resetAlertCooldown(productId)] *)
Definition resetAlertCooldown (productId : nat) (r : Redis) : Redis :=
  redis_del (alertKey productId) r.

(** [sendStockAlert(product, stockCount)]: the outcome of each channel
    and the [success] of the call. *)
Definition sendStockAlert (ch : Channels) (product : option Product)
    (stockCount : nat) : option bool * option bool * bool :=
  let email := (fun send => send product stockCount) <$> emailChannel ch in
  let wechat := (fun send => send product stockCount) <$> wechatChannel ch in
  (email, wechat,
   bool_decide (email = Some true) || bool_decide (wechat = Some true)).

Record CheckState : Type := mkCheckState {
  cs_redis : Redis;
  cs_alertsSent : nat;
  cs_alerts : list Alert
}.

(** The body of the loop of [checkAndAlert] for one low-stock product. *)
Definition alertStep (ch : Channels) (d : Db) (now : Z) (st : CheckState)
    (item : StockInfo) : CheckState :=
  if _hasRecentAlert (si_productId item) now (cs_redis st) then st
  else
    let product :=
      List.find (fun p => Nat.eqb (product_id p) (si_productId item)) (products d) in
    let '(email, wechat, success) := sendStockAlert ch product (si_stockCount item) in
    let sent := mkAlert (si_productId item) (si_stockCount item) email wechat in
    if success then
      mkCheckState (_markAlertSent (si_productId item) now (cs_redis st))
        (S (cs_alertsSent st)) (cs_alerts st ++ [sent])
    else
      mkCheckState (cs_redis st) (cs_alertsSent st) (cs_alerts st ++ [sent]).

Record CheckReport : Type := mkCheckReport {
  lowStockCount : nat;
  alertsSent : nat
}.

(** [checkAndAlert()] at the instant [now]: the report, the key-value
    store afterwards and the calls of [sendStockAlert] it made. *)
Definition checkAndAlert (ch : Channels) (d : Db) (now : Z) (r : Redis)
    : CheckReport * Redis * list Alert :=
  let lowStockProducts := getLowStockProducts d in
  if Nat.eqb (List.length lowStockProducts) 0 then
    (mkCheckReport 0 0, r, [])
  else
    let st := fold_left (alertStep ch d now) lowStockProducts (mkCheckState r 0 []) in
    (mkCheckReport (List.length lowStockProducts) (cs_alertsSent st),
     cs_redis st, cs_alerts st).

(** A run of the monitor: one [checkAndAlert] per entry, each with the
    channels, the database and the clock of its moment. *)
Fixpoint monitor (checks : list (Channels * Db * Z)) (r : Redis)
    : Redis * list Alert :=
  match checks with
  | [] => (r, [])
  | (ch, d, now) :: rest =>
      let '(_, r', sent) := checkAndAlert ch d now r in
      let '(r'', sent') := monitor rest r' in
      (r'', (sent ++ sent')%list)
  end.

(** The alerts of one product among the calls of [sendStockAlert]. *)
Definition alertsFor (productId : nat) (sent : list Alert) : list Alert :=
  List.filter (fun a => Nat.eqb (alert_productId a) productId) sent.

(** The [success] of an alert: some channel delivered it. *)
Definition alertDelivered (a : Alert) : bool :=
  bool_decide (alert_email a = Some true) || bool_decide (alert_wechat a = Some true).

End Service.

End InventoryService.

(** * More of backend/src/utils/encryption.js *)

Module VaultTools.

(** [generateEncryptionKey()]; the argument is the value of
    [crypto.randomBytes(KEY_LENGTH)]. *)
Definition generateEncryptionKey (randomBytes : list byte) : string :=
  Vault.hex_encode randomBytes.

(** [generateRandomString(length)]; the argument [randomBytes] is the value
    of [crypto.randomBytes(length)]. *)
Definition generateRandomString (length : nat) (randomBytes : list byte) : string :=
  String.substring 0 length (Vault.hex_encode randomBytes).

(** A lowercase hexadecimal digit. *)
Definition is_hex_lower (c : ascii) : bool :=
  let n := N_of_ascii c in
  (((48 <=? n) && (n <=? 57)) || ((97 <=? n) && (n <=? 102)))%N.

End VaultTools.

(** * The admin routes that delete: license keys and products *)

Module AdminDeletion.
Import Store AdminLicenseKeys.

(** DELETE /:id *)
Definition deleteKey (id : nat) (d : Db) : Reply unit * Db :=
  match List.find (fun k => Nat.eqb (key_id k) id) (licenseKeys d) with
  | None => (Reply404 "NOT_FOUND", d)
  | Some key =>
      if negb (bool_decide (key_status key = KeyAvailable)) then
        (Reply400 "CANNOT_DELETE", d)
      else
        (Reply200 tt,
         with_licenseKeys
           (List.filter (fun k => negb (Nat.eqb (key_id k) id)) (licenseKeys d)) d)
  end.

(** POST /bulk-delete *)
Definition bulkDelete (ids : list nat) (d : Db) : Reply nat * Db :=
  let hit k := bool_decide (key_id k ∈ ids) && bool_decide (key_status k = KeyAvailable) in
  (Reply200 (List.length (List.filter hit (licenseKeys d))),
   with_licenseKeys (List.filter (fun k => negb (hit k)) (licenseKeys d)) d).

(** DELETE /api/admin/products/:id. The price rows of the product, which
    the database deletes with it, are not part of [Db]. *)
Definition deleteProduct (id : nat) (d : Db) : Reply unit * Db :=
  match List.find (fun p => Nat.eqb (product_id p) id) (products d) with
  | None => (Reply404 "NOT_FOUND", d)
  | Some product =>
      let count_licenseKeys :=
        List.length
          (List.filter (fun k => Nat.eqb (key_productId k) (product_id product))
             (licenseKeys d)) in
      let count_orderItems :=
        List.length
          (List.filter (fun it => Nat.eqb (item_productId it) (product_id product))
             (orderItems d)) in
      if Nat.ltb 0 count_licenseKeys || Nat.ltb 0 count_orderItems then
        (Reply400 "CANNOT_DELETE", d)
      else
        (Reply200 tt,
         mkDb (orders d) (orderItems d) (licenseKeys d)
           (List.filter (fun p => negb (Nat.eqb (product_id p) id)) (products d))
           (key_seq d))
  end.

End AdminDeletion.

(** * Vocabulary of the statements about stock *)

Module Accounting.
Import Store OrderService.

(** The quantity an order asks of a product, over all its items. *)
Definition quantityOf (productId : nat) (items : list OrderItem) : nat :=
  list_sum
    (map item_quantity
       (List.filter (fun it => Nat.eqb (item_productId it) productId) items)).


(** Row by row, an allocation leaves a key as it was or sells it, and it
    sells only keys that were available. *)
Definition soldOrKept (orderId : nat) (now : Z) (before after : option LicenseKey) : Prop :=
  match before with
  | None => after = None
  | Some k =>
      after = Some k
      \/ (key_status k = KeyAvailable /\ after = Some (markSold orderId now k))
  end.

End Accounting.

(** * More of the inventory service: the stock report and the monitor *)

Module InventoryAdmin.
Import Store InventoryService.

Inductive StockLevel : Type := OUT_OF_STOCK | LOW_STOCK | HEALTHY.

#[export] Instance StockLevel_eq_dec : EqDecision StockLevel.
Proof. solve_decision. Defined.

Record ReportLine : Type := mkReportLine {
  line_id : nat;
  line_name : string;
  line_stock : nat;
  line_threshold : Z;
  line_status : StockLevel
}.

Record StockReport : Type := mkStockReport {
  generatedAt : Z;
  totalProducts : nat;
  lowStockProducts : nat;
  outOfStockProducts : nat;
  healthyStockProducts : nat;
  report_products : list ReportLine;
  report_alertThreshold : Z
}.

(** [getStockReport()] *)
Definition getStockReport (alertThreshold : Z) (now : Z) (d : Db) : StockReport :=
  let allStock := checkAllStock alertThreshold d in
  mkStockReport now
    (List.length allStock)
    (List.length (List.filter (fun item => si_isLowStock item) allStock))
    (List.length (List.filter (fun item => Nat.eqb (si_stockCount item) 0) allStock))
    (List.length (List.filter (fun item => negb (si_isLowStock item)) allStock))
    (map (fun item =>
            mkReportLine (si_productId item) (si_productName item) (si_stockCount item)
              (si_threshold item)
              (if si_isLowStock item
               then if Nat.eqb (si_stockCount item) 0 then OUT_OF_STOCK else LOW_STOCK
               else HEALTHY))
       allStock)
    alertThreshold.

(** The fields [isMonitoring] and [monitorInterval] of the service, and
    what it asked of the runtime: the interval timers that run, each with
    its handle and its period in milliseconds, and the number of checks it
    started itself. *)
Record Monitor : Type := mkMonitor {
  isMonitoring : bool;
  monitorInterval : option nat;
  timers : list (nat * Z);
  nextHandle : nat;
  checksStarted : nat
}.

(** The state the constructor leaves. *)
Definition newMonitor : Monitor := mkMonitor false None [] 1 0.

(** [startMonitoring(interval)] *)
Definition startMonitoring (interval : Z) (m : Monitor) : Monitor :=
  if isMonitoring m then m
  else
    mkMonitor true (Some (nextHandle m))
      ((nextHandle m, (interval * 1000)%Z) :: timers m)
      (S (nextHandle m)) (S (checksStarted m)).

(** [stopMonitoring()] *)
Definition stopMonitoring (m : Monitor) : Monitor :=
  if negb (isMonitoring m) then m
  else
    match monitorInterval m with
    | Some handle =>
        mkMonitor false None
          (List.filter (fun t => negb (Nat.eqb (fst t) handle)) (timers m))
          (nextHandle m) (checksStarted m)
    | None => mkMonitor false None (timers m) (nextHandle m) (checksStarted m)
    end.

Inductive MonitorCall : Type :=
| Start (interval : Z)
| Stop.

Definition call (m : Monitor) (c : MonitorCall) : Monitor :=
  match c with
  | Start interval => startMonitoring interval m
  | Stop => stopMonitoring m
  end.

End InventoryAdmin.

(** * Placing an order: product.service.js and [createOrder] *)

Module Checkout.
Import Store InventoryService.

(** A row of the price table. *)
Record Price : Type := mkPrice {
  price_productId : nat;
  price_countryCode : string;
  price_amount : Z;
  price_currency : string;
  price_isDefault : bool
}.

(** The columns of an order row that [Order] leaves out, keyed by the id
    of the order. *)
Record OrderOrigin : Type := mkOrderOrigin {
  origin_orderId : nat;
  origin_currency : string;
  origin_countryCode : string;
  origin_customerIp : string
}.

Record PaymentRequest : Type := mkPaymentRequest {
  pay_orderNo : string;
  pay_amount : Z;
  pay_subject : string;
  pay_description : string
}.

Record PaymentInfo : Type := mkPaymentInfo {
  payment_method : string;
  paymentUrl : option string;
  qrCodeUrl : option string
}.

(** What [createOrder] reads and calls besides the order tables: the price
    table, [geoService.getCountryCode], [paymentService.isMethodAvailable],
    [paymentService.createPayment] ([None] when it throws) and the
    description of [getLocalizedProduct] for a language. *)
Record Environment : Type := mkEnvironment {
  prices : list Price;
  getCountryCode : string -> string;
  isMethodAvailable : string -> bool;
  createPayment : string -> PaymentRequest -> option PaymentInfo;
  localizedDescription : Product -> string -> option string
}.

Inductive CheckoutError : Type :=
| CheckoutNotFound (message : string)
| CheckoutBadRequest (message : string)
| UniqueConstraintFailed
| PaymentProviderError.

Record Shop : Type := mkShop {
  shop_world : World;
  shop_origins : list OrderOrigin
}.

Record CreatedOrder : Type := mkCreatedOrder {
  created_order : Order;
  created_currency : string;
  created_items : list OrderItem;
  created_payment : PaymentInfo
}.

(** A string that is present and not empty, as [||] and [&&] see it. *)
Definition truthy (s : option string) : option string :=
  match s with
  | Some EmptyString => None
  | other => other
  end.

(** [productService.getProductById(productId)] *)
Definition getProductById (productId : nat) (d : Db) : result CheckoutError Product :=
  match List.find (fun p => Nat.eqb (product_id p) productId) (products d) with
  | None => Err (CheckoutNotFound "Product not found")
  | Some product => Ok product
  end.

(** [productService.hasStock(productId)] *)
Definition hasStock (productId : nat) (d : Db) : bool :=
  Nat.ltb 0 (availableStock d productId).

(** [productService.getProductPrice(productId, countryCode)] *)
Definition getProductPrice (table : list Price) (productId : nat) (countryCode : string)
    : result CheckoutError Price :=
  match List.find (fun p => Nat.eqb (price_productId p) productId
                            && bool_decide (price_countryCode p = countryCode)) table with
  | Some price => Ok price
  | None =>
      match List.find (fun p => Nat.eqb (price_productId p) productId
                                && price_isDefault p) table with
      | Some price => Ok price
      | None =>
          match List.find (fun p => Nat.eqb (price_productId p) productId) table with
          | Some price => Ok price
          | None => Err (CheckoutNotFound "No price found for this product")
          end
      end
  end.

(** [productService.getProductPriceByIP(productId, ip)] *)
Definition getProductPriceByIP (env : Environment) (productId : nat) (ip : string)
    : result CheckoutError Price :=
  getProductPrice (prices env) productId (getCountryCode env ip).

(** [createOrder({ productId, email, paymentMethod, ip, lang })]. The
    order number is the value of [generateOrderNo()]; [orderId] and
    [itemId] are the ids the database gives the two new rows; [orderNo] is
    a unique column, so that [create] throws when the number is taken. *)
Definition createOrder (env : Environment) (orderNo : string) (orderId itemId : nat)
    (now : Z) (productId : nat) (email paymentMethod ip lang : string) (s : Shop)
    : result CheckoutError CreatedOrder * Shop :=
  let w := shop_world s in
  match getProductById productId (db w) with
  | Err e => (Err e, s)
  | Ok product =>
      if negb (bool_decide (product_status product = ProductActive)) then
        (Err (CheckoutBadRequest "Product is not available"), s)
      else if negb (hasStock productId (db w)) then
        (Err (CheckoutBadRequest "Product is out of stock"), s)
      else
        match getProductPriceByIP env productId ip with
        | Err e => (Err e, s)
        | Ok price =>
            if negb (isMethodAvailable env paymentMethod) then
              (Err (CheckoutBadRequest
                      ("Payment method " ++ paymentMethod ++ " is not available")), s)
            else
              match order_findUnique orderNo (db w) with
              | Some _ =>
                  (Err UniqueConstraintFailed,
                   mkShop (mkWorld (db w) (log w ++ [EvRollback])) (shop_origins s))
              | None =>
                  let order :=
                    mkOrder orderId orderNo email (price_amount price) PENDING
                      paymentMethod None None now in
                  let item :=
                    mkOrderItem itemId orderId productId (product_name product) 1
                      (price_amount price) (price_amount price) in
                  let origin :=
                    mkOrderOrigin orderId (price_currency price)
                      (price_countryCode price) ip in
                  let d' :=
                    mkDb (orders (db w) ++ [order]) (orderItems (db w) ++ [item])
                      (licenseKeys (db w)) (products (db w)) (key_seq (db w)) in
                  let s' :=
                    mkShop (mkWorld d' (log w ++ [EvCommit]))
                      (shop_origins s ++ [origin]) in
                  let description :=
                    match truthy (localizedDescription env product lang) with
                    | Some text => text
                    | None => product_name product
                    end in
                  match createPayment env paymentMethod
                          (mkPaymentRequest orderNo (price_amount price)
                             (product_name product) description) with
                  | None => (Err PaymentProviderError, s')
                  | Some payment =>
                      (Ok (mkCreatedOrder order (price_currency price) [item]
                             (mkPaymentInfo (payment_method payment)
                                (truthy (paymentUrl payment))
                                (truthy (qrCodeUrl payment)))),
                       s')
                  end
              end
        end
  end.

End Checkout.

(** * Every operation that writes orders, items, keys or products *)

Module Operations.
Import Store Checkout.

Inductive Operation : Type :=
| OpCreateOrder (env : Environment) (orderNo : string) (orderId itemId : nat) (now : Z)
    (productId : nat) (email paymentMethod ip lang : string)
| OpCallback (c : Collaborators) (now : Z) (p : OrderService.Payload)
| OpCancel (orderNo : string)
| OpRefund (c : Collaborators) (orderNo : string) (refundAmount : option Z)
    (refundReason : string)
| OpBulkImport (productId : nat) (keys : list string) (now : Z)
| OpRevoke (id : nat) (reason : option string) (now : Z)
| OpBulkRevoke (ids : list nat) (reason : option string) (now : Z)
| OpDelete (id : nat)
| OpBulkDelete (ids : list nat)
| OpDeleteProduct (id : nat).

(** An operation of the order service, on the shop. *)
Definition inWorld (f : World -> World) (s : Shop) : Shop :=
  mkShop (f (shop_world s)) (shop_origins s).

(** An admin route, which writes the database and nothing else. *)
Definition inDb (f : Db -> Db) (s : Shop) : Shop :=
  inWorld (fun w => mkWorld (f (db w)) (log w)) s.

Definition perform (op : Operation) (s : Shop) : Shop :=
  match op with
  | OpCreateOrder env orderNo orderId itemId now productId email paymentMethod ip lang =>
      snd (createOrder env orderNo orderId itemId now productId email paymentMethod
             ip lang s)
  | OpCallback c now p =>
      inWorld (fun w => snd (OrderService.handlePaymentCallback c now p w)) s
  | OpCancel orderNo => inWorld (fun w => snd (OrderService.cancelOrder orderNo w)) s
  | OpRefund c orderNo amount reason =>
      inWorld (fun w => snd (OrderService.refundOrder c orderNo amount reason w)) s
  | OpBulkImport productId keys now =>
      inDb (fun d => snd (AdminLicenseKeys.bulkImport productId keys now d)) s
  | OpRevoke id reason now => inDb (fun d => snd (AdminLicenseKeys.revoke id reason now d)) s
  | OpBulkRevoke ids reason now =>
      inDb (fun d => snd (AdminLicenseKeys.bulkRevoke ids reason now d)) s
  | OpDelete id => inDb (fun d => snd (AdminDeletion.deleteKey id d)) s
  | OpBulkDelete ids => inDb (fun d => snd (AdminDeletion.bulkDelete ids d)) s
  | OpDeleteProduct id => inDb (fun d => snd (AdminDeletion.deleteProduct id d)) s
  end.

(** The operations of a history, the earliest first. *)
Definition performAll (ops : list Operation) (s : Shop) : Shop :=
  fold_left (fun s op => perform op s) ops s.

(** The database of a shop. *)
Definition shop_db (s : Shop) : Db := db (shop_world s).

(** A key in stock names no order and no sale; a sold key names both. *)
Definition keyLinkOk (k : LicenseKey) : bool :=
  match key_status k with
  | KeyAvailable => bool_decide (key_orderId k = None) && bool_decide (key_soldAt k = None)
  | KeySold => negb (bool_decide (key_orderId k = None))
               && negb (bool_decide (key_soldAt k = None))
  | KeyRevoked => true
  end.

(** The license-key table is consistent: ids are unique and were drawn from
    the serial, no product holds the same key value twice, and status and
    back-reference of every key agree. *)
Definition consistent (d : Db) : Prop :=
  NoDup (map key_id (licenseKeys d))
  /\ Forall (fun k => key_id k <= key_seq d) (licenseKeys d)
  /\ NoDup (map (fun k => (key_productId k, keyValueEncrypted k)) (licenseKeys d))
  /\ Forall (fun k => keyLinkOk k = true) (licenseKeys d).

Definition productExists (d : Db) (productId : nat) : Prop :=
  exists p, In p (products d) /\ product_id p = productId.

Definition orderExists (d : Db) (orderId : nat) : Prop :=
  exists o, In o (orders d) /\ order_id o = orderId.

(** Nothing dangles: every key and every order item belongs to a product
    of the catalogue, every order item to an order, and every key that
    names an order names one that exists. *)
Definition referential (d : Db) : Prop :=
  Forall (fun k => productExists d (key_productId k)) (licenseKeys d)
  /\ Forall (fun it => productExists d (item_productId it)) (orderItems d)
  /\ Forall (fun it => orderExists d (item_orderId it)) (orderItems d)
  /\ Forall (fun k => forall orderId, key_orderId k = Some orderId -> orderExists d orderId)
       (licenseKeys d).

End Operations.

(** * The payment notification routes, backend/src/routes/public/payments.js *)

Module PaymentRoutes.
Import Store.

(** The fields the routes read of a notification; [total_amount] is the
    value of [parseFloat(total_amount)] and [total_fee] the value of
    [parseInt(total_fee)], either of which may be NaN. *)
Record AlipayNotice : Type := mkAlipayNotice {
  out_trade_no : string;
  trade_no : string;
  trade_status : string;
  total_amount : Double.number
}.

Record WechatNotice : Type := mkWechatNotice {
  return_code : string;
  result_code : string;
  wx_out_trade_no : string;
  transaction_id : string;
  total_fee : Double.number
}.

(** Status code and body of the reply. *)
Definition HttpReply : Type := (nat * string)%type.

Definition wechatOk : string :=
  "<xml><return_code><![CDATA[SUCCESS]]></return_code><return_msg><![CDATA[OK]]></return_msg></xml>".

Definition wechatFail (msg : string) : string :=
  "<xml><return_code><![CDATA[FAIL]]></return_code><return_msg><![CDATA["
    ++ msg ++ "]]></return_msg></xml>".

(** POST /alipay/notify; [signatureValid] is the answer of
    [paymentService.verifyCallback]. *)
Definition alipayNotify (signatureValid : bool) (c : Collaborators) (now : Z)
    (params : AlipayNotice) (w : World) : HttpReply * World :=
  if negb signatureValid then ((400, "fail"), w)
  else
    match OrderService.handlePaymentCallback c now
            (OrderService.mkPayload (out_trade_no params) (trade_no params) "alipay"
               (if bool_decide (trade_status params = "TRADE_SUCCESS")
                then "success" else "pending")
               (total_amount params)) w with
    | (Ok _, w') => ((200, "success"), w')
    | (Err _, w') => ((500, "fail"), w')
    end.

(** POST /wechat/notify *)
Definition wechatNotify (signatureValid : bool) (c : Collaborators) (now : Z)
    (params : WechatNotice) (w : World) : HttpReply * World :=
  if negb signatureValid then ((200, wechatFail "签名失败"), w)
  else if negb (bool_decide (return_code params = "SUCCESS"))
          || negb (bool_decide (result_code params = "SUCCESS")) then
    ((200, wechatOk), w)
  else
    match OrderService.handlePaymentCallback c now
            (OrderService.mkPayload (wx_out_trade_no params) (transaction_id params)
               "wechat" "success"
               (Double.div (total_fee params) (Double.of_Z 100))) w with
    | (Ok _, w') => ((200, wechatOk), w')
    | (Err _, w') => ((200, wechatFail "处理失败"), w')
    end.

End PaymentRoutes.

(** * Concrete instances used to exercise the statements *)

Module Fixtures.
Import Store.

(** A stand-in for AES-256-GCM that meets the contract of an AEAD: the
    ciphertext is the reversed plaintext and the tag is constant. *)
Definition toy_tag : list byte := repeat x00 Vault.TAG_LENGTH.

Definition toy_seal (key iv pt : list byte) : list byte * list byte :=
  (rev pt, toy_tag).

Definition toy_open (key iv ct tag : list byte) : option (list byte) :=
  if bool_decide (tag = toy_tag) then Some (rev ct) else None.

Definition toy_scrypt (passphrase : string) : list byte := repeat x2a Vault.KEY_LENGTH.

Definition env_hex_key : option string :=
  Some "000102030405060708090a0b0c0d0e0f101112131415161718191a1b1c1d1e1f".

Definition iv_a : list byte := repeat x00 Vault.IV_LENGTH.
Definition iv_b : list byte := repeat x01 Vault.IV_LENGTH.

(** The Key Vault over the stand-in cipher, as the order service sees it. *)
Definition vault_encrypt (iv : list byte) (text : string) : string :=
  match Vault.encrypt toy_seal toy_scrypt env_hex_key iv text with
  | Ok c => c
  | Err _ => ""
  end.

Definition vault_decrypt (s : string) : option string :=
  match Vault.decrypt toy_open toy_scrypt env_hex_key s with
  | Ok text => Some text
  | Err _ => None
  end.

Definition services_up : Collaborators :=
  mkCollaborators vault_decrypt (fun _ => true) (fun _ => GatewaySuccess).


(** A shop with one product, three imported keys and one pending order. *)
Definition w11 : Product := mkProduct 1 "W11" ProductActive.

Definition stored_key (id : nat) (createdAt : Z) (plain : string) : LicenseKey :=
  mkLicenseKey id 1 (vault_encrypt iv_a plain) KeyAvailable None createdAt None None None.

Definition order1 : Order :=
  mkOrder 1 "ORD20251016000001" "buyer@example.com" 9900 PENDING "alipay" None None 1000.

Definition item1 : OrderItem := mkOrderItem 1 1 1 "W11" 1 9900 9900.

Definition db0 : Db :=
  mkDb [order1] [item1]
    [stored_key 1 100 "AAAAA-AAAAA"; stored_key 2 100 "BBBBB-BBBBB";
     stored_key 3 200 "CCCCC-CCCCC"]
    [w11] 3.

Definition world0 : World := mkWorld db0 [].

Definition paid : OrderService.Payload :=
  OrderService.mkPayload "ORD20251016000001" "TXN-1" "alipay" "success"
    (Double.of_cents 9900).

(** The same shop with nothing left to sell. *)
Definition db_sold_out : Db := mkDb [order1] [item1] [] [w11] 0.

(** An order of two lines: two copies of the first product, which has
    three keys, and one of a second product, which has none. *)
Definition office : Product := mkProduct 2 "Office" ProductActive.

Definition order3 : Order :=
  mkOrder 3 "ORD20251016000003" "team@example.com" 24700 PENDING "alipay" None None 1002.

Definition item3a : OrderItem := mkOrderItem 3 3 1 "W11" 2 9900 19800.
Definition item3b : OrderItem := mkOrderItem 4 3 2 "Office" 1 4900 4900.

Definition db_two_lines : Db :=
  mkDb [order3] [item3a; item3b]
    [stored_key 1 100 "AAAAA-AAAAA"; stored_key 2 100 "BBBBB-BBBBB";
     stored_key 3 200 "CCCCC-CCCCC"]
    [w11; office] 3.

Definition paid3 : OrderService.Payload :=
  OrderService.mkPayload "ORD20251016000003" "TXN-3" "alipay" "success"
    (Double.of_cents 24700).

(** Two keys imported in one batch, enumerated by the store with the
    younger id first. *)
Definition db_tie : Db :=
  mkDb [order1] [item1]
    [stored_key 2 100 "BBBBB-BBBBB"; stored_key 1 100 "AAAAA-AAAAA"]
    [w11] 2.

(** A second buyer of the same product. *)
Definition order2 : Order :=
  mkOrder 2 "ORD20251016000002" "other@example.com" 9900 PENDING "wechat" None None 1001.

Definition item2 : OrderItem := mkOrderItem 2 2 1 "W11" 1 9900 9900.

Definition db_two_buyers : Db :=
  mkDb [order1; order2] [item1; item2] [stored_key 1 100 "AAAAA-AAAAA"] [w11] 1.

(** The first shop after the buyer has paid. *)
Definition world_completed : World :=
  snd (OrderService.handlePaymentCallback services_up 5000 paid world0).

(** ... and after the administrator has then revoked the delivered key. *)
Definition world_revoked : World :=
  mkWorld (snd (AdminLicenseKeys.revoke 1 (Some "leaked") 6000 (db world_completed)))
    (log world_completed).

(** The push channel answering, and every channel failing. *)
Definition channels_up : InventoryService.Channels :=
  InventoryService.mkChannels None (Some (fun _ _ => true)).

Definition channels_down : InventoryService.Channels :=
  InventoryService.mkChannels (Some (fun _ _ => false)) (Some (fun _ _ => false)).

End Fixtures.

(** * Further instances: the counter of the shop *)

Module Counter.
Import Store Checkout.

(** Two prices for the product of the shop, a visitor located in the
    United States, both payment methods on offer. *)
Definition env : Environment :=
  mkEnvironment
    [mkPrice 1 "CN" 9900 "CNY" true; mkPrice 1 "US" 1500 "USD" false]
    (fun _ => "US")
    (fun method => bool_decide (method = "alipay") || bool_decide (method = "wechat"))
    (fun method _ => Some (mkPaymentInfo method (Some "https://pay.example/1") None))
    (fun _ _ => None).

Definition shop0 : Shop := mkShop Fixtures.world0 [].


Definition paid2 : OrderService.Payload :=
  OrderService.mkPayload "ORD20251016000002" "TXN-2" "alipay" "success"
    (Double.of_cents 1500).

End Counter.

(** * Further instances: a history of operations *)

Module Histories.
Import Store Operations.

(** An import, a second order, two payments, the revocation of a sold
    key, the refund of its order, deletions, a late cancellation and an
    attempt to delete the product. *)
Definition busy_week : list Operation :=
  [ OpBulkImport 1 ["DDDDD-DDDDD"; " EEEEE-EEEEE "; "DDDDD-DDDDD"] 300;
    OpCreateOrder Counter.env "ORD20251016000002" 2 2 6000 1 "visitor@example.com"
      "alipay" "203.0.113.7" "en";
    OpCallback Fixtures.services_up 5000 Fixtures.paid;
    OpCallback Fixtures.services_up 7000 Counter.paid2;
    OpRevoke 1 (Some "leaked") 8000;
    OpRefund Fixtures.services_up "ORD20251016000001" None "leaked";
    OpBulkDelete [1; 3];
    OpDelete 4;
    OpBulkRevoke [4; 5] None 9000;
    OpCancel "ORD20251016000001";
    OpDeleteProduct 1 ].

End Histories.

(** * Facts about the numbers of the payment amounts *)

Module DoubleFacts.
Import OrderService.

(** [x - x] is a zero, or NaN when [x] is an infinity or NaN. *)
Lemma sub_diag (x : Double.number) :
  Double.abs (Double.sub x x) = S754_zero false \/
  Double.abs (Double.sub x x) = S754_nan.
Proof.
  destruct x as [[]|[]| |s m e]; cbn; auto.
  left. unfold Double.sub, SFsub. rewrite Z.sub_diag. reflexivity.
Qed.

(** No number differs from itself by more than 0.01. *)
Lemma gt_sub_diag (x : Double.number) :
  Double.gt (Double.abs (Double.sub x x)) Double.one_hundredth = false.
Proof.
  destruct (sub_diag x) as [-> | ->]; reflexivity.
Qed.

(** The amount of the order itself passes the test of the callback. *)
Lemma amountMismatch_same (totalAmount : Z) :
  amountMismatch totalAmount (Double.of_cents totalAmount) = false.
Proof. unfold amountMismatch. cbv zeta. apply gt_sub_diag. Qed.

(** So does an amount that is not a number. *)
Lemma amountMismatch_NaN (totalAmount : Z) :
  amountMismatch totalAmount Double.NaN = false.
Proof.
  unfold amountMismatch, Double.NaN. cbv zeta.
  destruct (Double.of_cents totalAmount) as [[]|[]| |s m e]; reflexivity.
Qed.

End DoubleFacts.

(** * Properties of the Key Vault *)

Module VaultFacts.
Import Vault.

(** The encodings on known values. *)
Example hex_encode_bytes : hex_encode [x00; x1f; xa0; xff] = "001fa0ff".
Proof. reflexivity. Qed.

Example hex_decode_stops : hex_decode "0aFFzz10" = [x0a; xff].
Proof. reflexivity. Qed.

Example base64_encode_Man : base64_encode (list_byte_of_string "Man") = "TWFu".
Proof. reflexivity. Qed.

Example base64_encode_Ma : base64_encode (list_byte_of_string "Ma") = "TWE=".
Proof. reflexivity. Qed.

Example base64_encode_M : base64_encode (list_byte_of_string "M") = "TQ==".
Proof. reflexivity. Qed.

Example base64_decode_padded :
  base64_decode "TWE=" = list_byte_of_string "Ma"
  /\ base64_decode "TQ==" = list_byte_of_string "M".
Proof. split; reflexivity. Qed.

Example subarray_from_the_end : subarray [x01; x02; x03] (-2) 3 = [x02; x03].
Proof. reflexivity. Qed.

Lemma byte_of_to_N (b : byte) : byte_of_N (Byte.to_N b) = b.
Proof. unfold byte_of_N. now rewrite Byte.of_to_N. Qed.

Lemma hex_value_digit (n : N) :
  (n < 16)%N -> hex_value (hex_digit n) = Some n.
Proof.
  intros Hn.
  assert (Hall : forallb (fun m => bool_decide (hex_value (hex_digit m) = Some m))
                   (map N.of_nat (seq 0 16)) = true) by (vm_compute; reflexivity).
  rewrite forallb_forall in Hall.
  specialize (Hall n). apply bool_decide_eq_true in Hall; [exact Hall|].
  apply in_map_iff. exists (N.to_nat n). split; [lia|]. apply in_seq. lia.
Qed.

Lemma to_N_lt (b : byte) : (Byte.to_N b < 256)%N.
Proof. pose proof (Byte.to_N_bounded b). lia. Qed.

Lemma hex_decode_encode (bs : list byte) : hex_decode (hex_encode bs) = bs.
Proof.
  induction bs as [|b bs IH]; [reflexivity|].
  pose proof (to_N_lt b) as Hb.
  cbn [hex_encode hex_decode].
  rewrite !hex_value_digit.
  - rewrite IH. f_equal.
    rewrite <- (byte_of_to_N b) at 3. f_equal.
    pose proof (N.div_mod (Byte.to_N b) 16). lia.
  - apply N.mod_lt. lia.
  - apply N.Div0.div_lt_upper_bound. lia.
Qed.

(** Lists, three elements at a time. *)
Lemma list_ind3 {A} (P : list A -> Prop) :
  P [] -> (forall a, P [a]) -> (forall a b, P [a; b]) ->
  (forall a b c l, P l -> P (a :: b :: c :: l)) ->
  forall l, P l.
Proof.
  intros H0 H1 H2 H3.
  fix IH 1. intros [|a [|b [|c l]]];
    [exact H0 | apply H1 | apply H2 | apply H3, IH].
Qed.

Ltac divmod_lia :=
  repeat match goal with
         | |- context [Byte.to_N ?b] =>
             let H := fresh in
             pose proof (to_N_lt b) as H;
             generalize dependent (Byte.to_N b); intros
         end;
  zify; Z.to_euclidean_division_equations; lia.

Lemma bytes_of_sextets_of_bytes (bs : list byte) :
  bytes_of_sextets (sextets_of_bytes bs) = bs.
Proof.
  induction bs as [|a|a b|a b c l IH] using list_ind3;
    cbn [sextets_of_bytes bytes_of_sextets]; try rewrite IH;
    repeat (f_equal;
            try match goal with
                | |- byte_of_N _ = ?b =>
                    transitivity (byte_of_N (Byte.to_N b));
                    [f_equal; divmod_lia | apply byte_of_to_N]
                end).
Qed.

Lemma sextets_of_bytes_bound (bs : list byte) :
  Forall (fun s => (s < 64)%N) (sextets_of_bytes bs).
Proof.
  induction bs as [|a|a b|a b c l IH] using list_ind3;
    cbn [sextets_of_bytes]; repeat constructor; try exact IH; divmod_lia.
Qed.

Lemma b64_value_char (s : N) :
  (s < 64)%N ->
  Ascii.eqb (b64_char s) "="%char = false /\ b64_value (b64_char s) = Some s.
Proof.
  intros Hs.
  assert (Hall : forallb
                   (fun m => negb (Ascii.eqb (b64_char m) "="%char)
                             && bool_decide (b64_value (b64_char m) = Some m))
                   (map N.of_nat (seq 0 64)) = true) by (vm_compute; reflexivity).
  rewrite forallb_forall in Hall.
  specialize (Hall s).
  assert (Hin : In s (map N.of_nat (seq 0 64))).
  { apply in_map_iff. exists (N.to_nat s). split; [lia|]. apply in_seq. lia. }
  apply Hall in Hin. apply andb_true_iff in Hin as [H1 H2].
  apply negb_true_iff in H1. apply bool_decide_eq_true in H2. auto.
Qed.

Lemma b64_digits_padding (n : nat) : b64_digits (b64_padding n) = [].
Proof.
  unfold b64_padding. destruct (n mod 3) as [|[|[|?]]]; reflexivity.
Qed.

Lemma b64_digits_cons (c : ascii) (s : string) :
  b64_digits (String c s)
  = if Ascii.eqb c "="%char then []
    else match b64_value c with
         | Some v => v :: b64_digits s
         | None => b64_digits s
         end.
Proof. reflexivity. Qed.

Lemma b64_digits_chars (ss : list N) (pad : string) :
  Forall (fun s => (s < 64)%N) ss ->
  b64_digits (string_of_list_ascii (map b64_char ss) ++ pad)
  = (ss ++ b64_digits pad)%list.
Proof.
  induction 1 as [|s ss Hs _ IH]; [reflexivity|].
  destruct (b64_value_char s Hs) as [Hne Hv].
  cbn [map string_of_list_ascii].
  change (b64_digits (String (b64_char s)
            (string_of_list_ascii (map b64_char ss) ++ pad))
          = (s :: ss ++ b64_digits pad)%list).
  rewrite b64_digits_cons, Hne, Hv, IH. reflexivity.
Qed.

Lemma base64_decode_encode (bs : list byte) :
  base64_decode (base64_encode bs) = bs.
Proof.
  unfold base64_decode, base64_encode.
  rewrite b64_digits_chars by apply sextets_of_bytes_bound.
  rewrite b64_digits_padding, app_nil_r.
  apply bytes_of_sextets_of_bytes.
Qed.

Lemma base64_encode_inj (bs bs' : list byte) :
  base64_encode bs = base64_encode bs' -> bs = bs'.
Proof.
  intros H. rewrite <- (base64_decode_encode bs), H.
  apply base64_decode_encode.
Qed.

Lemma clamp_index_inside (len : nat) (i : nat) :
  i <= len -> clamp_index len (Z.of_nat i) = i.
Proof.
  intros Hi. unfold clamp_index.
  destruct (Z.ltb_spec (Z.of_nat i) 0); [lia|].
  rewrite Nat2Z.id. lia.
Qed.

(** The three parts of [iv ++ encrypted ++ authTag] as [decrypt] cuts them. *)
Lemma frame_split (iv ct tag : list byte) :
  List.length iv = IV_LENGTH -> List.length tag = TAG_LENGTH ->
  let buffer := (iv ++ ct ++ tag)%list in
  let len := Z.of_nat (List.length buffer) in
  subarray buffer 0 (Z.of_nat IV_LENGTH) = iv
  /\ subarray buffer (len - Z.of_nat TAG_LENGTH) len = tag
  /\ subarray buffer (Z.of_nat IV_LENGTH) (len - Z.of_nat TAG_LENGTH) = ct.
Proof.
  intros Hiv Htag buffer len.
  assert (Hlen : List.length buffer = IV_LENGTH + (List.length ct + TAG_LENGTH)).
  { unfold buffer. now rewrite !length_app, Hiv, Htag. }
  assert (Hcut : (len - Z.of_nat TAG_LENGTH)%Z = Z.of_nat (IV_LENGTH + List.length ct)).
  { unfold len. rewrite Hlen. lia. }
  unfold subarray. rewrite Hcut. unfold len.
  change 0%Z with (Z.of_nat 0).
  rewrite !clamp_index_inside by lia.
  unfold buffer. repeat split.
  - rewrite drop_0. apply take_app_length'. lia.
  - rewrite (app_assoc iv ct tag), drop_app_length' by (rewrite length_app; lia).
    apply firstn_all2. rewrite !length_app. lia.
  - rewrite drop_app_length' by (symmetry; exact Hiv).
    apply take_app_length'. lia.
Qed.

Lemma base64_encode_triple (a b c : byte) (l : list byte) :
  exists c0 c1 c2 c3,
    base64_encode (a :: b :: c :: l)
    = String c0 (String c1 (String c2 (String c3 (base64_encode l)))).
Proof.
  unfold base64_encode. cbn [sextets_of_bytes map string_of_list_ascii List.length].
  replace (b64_padding (S (S (S (List.length l))))) with (b64_padding (List.length l)).
  - do 4 eexists. reflexivity.
  - unfold b64_padding.
    replace (S (S (S (List.length l)))) with (List.length l + 1 * 3) by lia.
    now rewrite Nat.Div0.mod_add.
Qed.

(** Base64 text comes in groups of four characters. *)
Lemma base64_encode_length (bs : list byte) :
  String.length (base64_encode bs) mod 4 = 0.
Proof.
  induction bs as [|a|a b|a b c l IH] using list_ind3; try reflexivity.
  destruct (base64_encode_triple a b c l) as (c0 & c1 & c2 & c3 & ->).
  cbn [String.length].
  replace (S (S (S (S (String.length (base64_encode l))))))
    with (String.length (base64_encode l) + 1 * 4) by lia.
  now rewrite Nat.Div0.mod_add.
Qed.

(** ** Strings by their UTF-16 code units *)

Lemma utf16_length_app (s t : string) :
  utf16_length (s ++ t) = utf16_length s + utf16_length t.
Proof.
  induction s as [|c s IH]; [reflexivity|].
  change (String c s ++ t) with (String c (s ++ t)). cbn [utf16_length].
  rewrite IH. lia.
Qed.

Lemma units_of_byte (n : N) :
  (n < 256)%N ->
  utf16_units (ascii_of_N n)
  = if ((128 <=? n) && (n <? 192))%N then 0 else if (240 <=? n)%N then 2 else 1.
Proof. intros H. unfold utf16_units. cbv zeta. now rewrite N_ascii_embedding. Qed.

Lemma units_continuation (n : N) :
  (n < 64)%N -> utf16_units (ascii_of_N (0x80 + n)) = 0.
Proof.
  intros H. rewrite units_of_byte by lia.
  destruct (N.leb_spec 128 (0x80 + n)); [|lia].
  destruct (N.ltb_spec (0x80 + n) 192); [reflexivity|lia].
Qed.

Lemma units_lead (n : N) :
  (n < 0x80 \/ 0xC0 <= n < 0xF0)%N -> utf16_units (ascii_of_N n) = 1.
Proof.
  intros H. rewrite units_of_byte by lia.
  destruct (N.leb_spec 128 n), (N.ltb_spec n 192), (N.leb_spec 240 n);
    cbn [andb]; try reflexivity; lia.
Qed.

Lemma units_lead4 (n : N) :
  (0xF0 <= n < 256)%N -> utf16_units (ascii_of_N n) = 2.
Proof.
  intros H. rewrite units_of_byte by lia.
  destruct (N.leb_spec 128 n), (N.ltb_spec n 192), (N.leb_spec 240 n);
    cbn [andb]; try reflexivity; lia.
Qed.

Lemma utf16_length_code_point (cp : N) :
  (cp < 0x110000)%N ->
  utf16_length (utf8_of_code_point cp) = if (cp <? 0x10000)%N then 1 else 2.
Proof.
  intros Hcp. unfold utf8_of_code_point.
  assert (Hm : forall n, (n mod 64 < 64)%N) by (intros n; now apply N.mod_lt).
  destruct (N.ltb_spec cp 0x80) as [H1|H1].
  { cbn [utf16_length]. rewrite units_lead by lia.
    destruct (N.ltb_spec cp 0x10000); [reflexivity|lia]. }
  destruct (N.ltb_spec cp 0x800) as [H2|H2].
  { cbn [utf16_length]. rewrite units_continuation by apply Hm.
    assert (cp / 64 < 32)%N by (apply N.Div0.div_lt_upper_bound; lia).
    assert (2 <= cp / 64)%N by (apply N.div_le_lower_bound; lia).
    rewrite units_lead by (generalize dependent (cp / 64)%N; intros; lia).
    destruct (N.ltb_spec cp 0x10000); [reflexivity|lia]. }
  destruct (N.ltb_spec cp 0x10000) as [H3|H3].
  { cbn [utf16_length]. rewrite !units_continuation by apply Hm.
    assert (cp / 4096 < 16)%N by (apply N.Div0.div_lt_upper_bound; lia).
    rewrite units_lead by (generalize dependent (cp / 4096)%N; intros; lia).
    reflexivity. }
  cbn [utf16_length]. rewrite !units_continuation by apply Hm.
  assert (cp / 262144 < 5)%N by (apply N.Div0.div_lt_upper_bound; lia).
  rewrite units_lead4 by (generalize dependent (cp / 262144)%N; intros; lia).
  reflexivity.
Qed.

(** [utf16_length] is the [length] of the string whose 'utf8' encoding
    it is given. *)
Lemma utf16_length_utf8Write (units : list N) :
  Forall (fun u => (u < 0x10000)%N) units ->
  utf16_length (utf8Write units) = List.length units.
Proof.
  assert (Hrep : utf16_length (utf8_of_code_point REPLACEMENT_CHARACTER) = 1)
    by reflexivity.
  assert (H : forall n (units : list N), List.length units <= n ->
            Forall (fun u => (u < 0x10000)%N) units ->
            utf16_length (utf8Write units) = List.length units).
  { clear units. induction n as [|n IH]; intros units Hn Hall.
    - destruct units; [reflexivity|cbn in Hn; lia].
    - destruct units as [|u rest]; [reflexivity|].
      apply Forall_cons in Hall as [Hu Hrest]. cbn [List.length] in Hn.
      cbn [utf8Write].
      destruct (is_high_surrogate u) eqn:Hhigh.
      + destruct rest as [|lo rest']; [exact Hrep|].
        apply Forall_cons in Hrest as [Hlo Hrest']. cbn [List.length] in Hn.
        destruct (is_low_surrogate lo) eqn:Hlow.
        * rewrite utf16_length_app, (IH rest') by (auto; lia).
          unfold is_high_surrogate in Hhigh. unfold is_low_surrogate in Hlow.
          apply andb_prop in Hhigh as [G1 G2]. apply andb_prop in Hlow as [G3 G4].
          apply N.leb_le in G1, G2, G3, G4.
          rewrite utf16_length_code_point by lia.
          destruct (N.ltb_spec (0x10000 + (u - 0xD800) * 1024 + (lo - 0xDC00)) 0x10000);
            [lia|]. cbn [List.length]. lia.
        * rewrite utf16_length_app, Hrep, (IH (lo :: rest')).
          -- reflexivity.
          -- cbn [List.length]. lia.
          -- now constructor.
      + destruct (is_low_surrogate u).
        * rewrite utf16_length_app, Hrep, (IH rest) by (auto; lia). reflexivity.
        * rewrite utf16_length_app, (IH rest) by (auto; lia).
          rewrite utf16_length_code_point by lia.
          destruct (N.ltb_spec u 0x10000); [reflexivity|lia]. }
  apply (H (List.length units)). lia.
Qed.

(** ** The round trip *)

Section Roundtrip.

Variable gcm_seal : list byte -> list byte -> list byte -> list byte * list byte.
Variable gcm_open : list byte -> list byte -> list byte -> list byte -> option (list byte).
Variable scrypt : string -> list byte.

(** The contract of the authenticated cipher: what was sealed opens
    under the same key and nonce, and the tag has [TAG_LENGTH] bytes. *)
Hypothesis gcm_open_seal :
  forall key iv pt,
    gcm_open key iv (fst (gcm_seal key iv pt)) (snd (gcm_seal key iv pt)) = Some pt.
Hypothesis gcm_tag_length :
  forall key iv pt, List.length (snd (gcm_seal key iv pt)) = TAG_LENGTH.

Lemma encrypt_ok (env_key : option string) (key iv : list byte) (text : string) :
  getEncryptionKey scrypt env_key = Some key ->
  List.length key = KEY_LENGTH ->
  encrypt gcm_seal scrypt env_key iv text
  = Ok (base64_encode
          (iv ++ fst (gcm_seal key iv (list_byte_of_string text))
              ++ snd (gcm_seal key iv (list_byte_of_string text)))).
Proof.
  intros Hkey Hlen. unfold encrypt. rewrite Hkey, Hlen, Nat.eqb_refl.
  cbn [negb].
  destruct (gcm_seal key iv (list_byte_of_string text)) as [ct tag].
  cbn [fst snd]. now rewrite hex_decode_encode.
Qed.

(** C8, as the code has it. Encryption round trip and non-determinism:
    when ENCRYPTION_KEY yields a key of [KEY_LENGTH] bytes, what [encrypt]
    returns for a plaintext of Unicode text and a nonce of [IV_LENGTH]
    bytes decrypts to that plaintext, and two calls of [encrypt] on the
    same plaintext whose nonces differ return different ciphertexts. *)
Theorem encrypt_decrypt_roundtrip
    (env_key : option string) (key : list byte) (text : string)
    (iv iv' : list byte) :
  getEncryptionKey scrypt env_key = Some key ->
  List.length key = KEY_LENGTH ->
  List.length iv = IV_LENGTH ->
  List.length iv' = IV_LENGTH ->
  exists c c',
    encrypt gcm_seal scrypt env_key iv text = Ok c
    /\ decrypt gcm_open scrypt env_key c = Ok text
    /\ encrypt gcm_seal scrypt env_key iv' text = Ok c'
    /\ (iv <> iv' -> c <> c').
Proof.
  intros Hkey Hlen Hiv Hiv'.
  eexists. eexists.
  split; [apply (encrypt_ok _ key); assumption|].
  split; [|split; [apply (encrypt_ok _ key); assumption|]].
  - unfold decrypt. rewrite Hkey, Hlen, Nat.eqb_refl. cbn [negb].
    rewrite base64_decode_encode.
    destruct (frame_split iv
                (fst (gcm_seal key iv (list_byte_of_string text)))
                (snd (gcm_seal key iv (list_byte_of_string text)))
                Hiv (gcm_tag_length _ _ _)) as (E1 & E2 & E3).
    cbv zeta in E1, E2, E3. rewrite E1, E2, E3, gcm_open_seal.
    now rewrite string_of_list_byte_of_string.
  - intros Hne Heq. apply base64_encode_inj in Heq.
    apply app_inj_1 in Heq as [Heq _]; [contradiction|].
    now rewrite Hiv, Hiv'.
Qed.

End Roundtrip.

(** The statement at the stand-in cipher, a hexadecimal key and two
    nonces. *)
Lemma encrypt_decrypt_roundtrip_witness :
  exists c c',
    encrypt Fixtures.toy_seal Fixtures.toy_scrypt Fixtures.env_hex_key
      Fixtures.iv_a "XXXXX-XXXXX-XXXXX-XXXXX" = Ok c
    /\ decrypt Fixtures.toy_open Fixtures.toy_scrypt Fixtures.env_hex_key c
       = Ok "XXXXX-XXXXX-XXXXX-XXXXX"
    /\ encrypt Fixtures.toy_seal Fixtures.toy_scrypt Fixtures.env_hex_key
         Fixtures.iv_b "XXXXX-XXXXX-XXXXX-XXXXX" = Ok c'
    /\ (Fixtures.iv_a <> Fixtures.iv_b -> c <> c').
Proof.
  apply (encrypt_decrypt_roundtrip Fixtures.toy_seal Fixtures.toy_open
           Fixtures.toy_scrypt)
    with (key := hex_decode
                   "000102030405060708090a0b0c0d0e0f101112131415161718191a1b1c1d1e1f").
  - intros key iv pt. unfold Fixtures.toy_open, Fixtures.toy_seal. cbn [fst snd].
    rewrite bool_decide_eq_true_2 by reflexivity. now rewrite rev_involutive.
  - reflexivity.
  - reflexivity.
  - reflexivity.
  - reflexivity.
  - reflexivity.
Defined.

(** A plaintext with a surrogate on its own does not come back. The
    'utf8' conversion of [encrypt] writes the surrogate as U+FFFD, so the
    string shares its bytes, and with them its ciphertext under any key and
    nonce, with the string that has U+FFFD in its place; it is this other
    string that [decrypt] returns. *)
Lemma lone_surrogate_does_not_round_trip :
  let lone := [0xD800%N] in
  let replaced := [0xFFFD%N] in
  lone <> replaced
  /\ utf8Write lone = utf8Write replaced
  /\ exists c,
       encrypt Fixtures.toy_seal Fixtures.toy_scrypt Fixtures.env_hex_key
         Fixtures.iv_a (utf8Write lone) = Ok c
       /\ encrypt Fixtures.toy_seal Fixtures.toy_scrypt Fixtures.env_hex_key
            Fixtures.iv_a (utf8Write replaced) = Ok c
       /\ decrypt Fixtures.toy_open Fixtures.toy_scrypt Fixtures.env_hex_key c
          = Ok (utf8Write replaced).
Proof.
  cbv zeta. split; [discriminate|]. split; [reflexivity|].
  eexists. split; [vm_compute; reflexivity|].
  split; vm_compute; reflexivity.
Qed.

End VaultFacts.

(** * Properties of the order service *)

Module OrderFacts.
Import Store OrderService.

(** ** The steps of a transaction, one by one *)

Lemma allocateItem_unfold (order : Order) (now : Z) (item : OrderItem) (w : World) :
  allocateItem order now item w
  = let ks := licenseKey_findAvailable (item_productId item) (item_quantity item) (db w) in
    if Nat.ltb (List.length ks) (item_quantity item) then
      (Err (BadRequestError
              (InsufficientKeys (item_productName item) (item_quantity item)
                 (List.length ks))), w)
    else
      (Ok tt,
       mkWorld (licenseKey_updateMany (map key_id ks) (markSold (order_id order) now) (db w))
         (log w)).
Proof.
  unfold allocateItem, bind, read, write, throw. cbv zeta.
  destruct (Nat.ltb _ _); reflexivity.
Qed.

Lemma forEach_cons {A} (x : A) (l : list A) (body : A -> Tx unit) (w : World) :
  forEach (x :: l) body w
  = match body x w with
    | (Ok _, w') => forEach l body w'
    | (Err e, w') => (Err e, w')
    end.
Proof. reflexivity. Qed.

(** Allocation writes license keys and nothing else. *)
Lemma allocateItem_frame order now item w r w' :
  allocateItem order now item w = (r, w') ->
  orders (db w') = orders (db w) /\ orderItems (db w') = orderItems (db w)
  /\ products (db w') = products (db w) /\ log w' = log w.
Proof.
  rewrite allocateItem_unfold. cbv zeta.
  destruct (Nat.ltb _ _); intros [= <- <-]; auto.
Qed.

Lemma forEach_allocate_frame order now items : forall w r w',
  forEach items (allocateItem order now) w = (r, w') ->
  orders (db w') = orders (db w) /\ orderItems (db w') = orderItems (db w)
  /\ products (db w') = products (db w) /\ log w' = log w.
Proof.
  induction items as [|item items IH]; intros w r w'.
  - intros [= <- <-]. auto.
  - rewrite forEach_cons.
    destruct (allocateItem order now item w) as [[[]|e] w1] eqn:E1.
    + intros H. apply IH in H as (H1 & H2 & H3 & H4).
      apply allocateItem_frame in E1 as (G1 & G2 & G3 & G4).
      repeat split; congruence.
    + intros [= <- <-]. now apply allocateItem_frame in E1.
Qed.

Lemma find_map_stable {A} (p : A -> bool) (f : A -> A) (l : list A) :
  (forall x, p (f x) = p x) ->
  List.find p (map f l) = option_map f (List.find p l).
Proof.
  intros Hp. induction l as [|x l IH]; [reflexivity|].
  cbn [map List.find]. rewrite Hp. destruct (p x); [reflexivity|exact IH].
Qed.

Lemma order_update_spec id data w :
  order_update id data w
  = match List.find (fun o => Nat.eqb (order_id o) id) (orders (db w)) with
    | None => (Err RecordNotFound, w)
    | Some o =>
        (Ok (data o),
         mkWorld
           (with_orders
              (map (fun o' => if Nat.eqb (order_id o') id then data o' else o')
                 (orders (db w)))
              (db w))
           (log w))
    end.
Proof. reflexivity. Qed.

(** A row that was read by its order number is there to be updated. *)
Lemma find_by_id_of_found orderNo d order :
  order_findUnique orderNo d = Some order ->
  exists o, List.find (fun o => Nat.eqb (order_id o) (order_id order)) (orders d) = Some o.
Proof.
  unfold order_findUnique. intros H. apply find_some in H as [Hin _].
  destruct (List.find _ (orders d)) as [o|] eqn:E; [eauto|].
  exfalso. apply (find_none _ _ E) in Hin. now rewrite Nat.eqb_refl in Hin.
Qed.

(** Reading the order again by its number after an update that keeps
    identity and number. *)
Lemma findUnique_after_update orderNo d order data :
  (forall o, order_orderNo (data o) = order_orderNo o) ->
  order_findUnique orderNo d = Some order ->
  order_findUnique orderNo
    (with_orders
       (map (fun o' => if Nat.eqb (order_id o') (order_id order) then data o' else o')
          (orders d)) d)
  = Some (data order).
Proof.
  intros Hno H. unfold order_findUnique in *. cbn [orders with_orders].
  rewrite find_map_stable.
  - rewrite H. cbn [option_map]. now rewrite Nat.eqb_refl.
  - intros o. destruct (Nat.eqb _ _); [now rewrite Hno|reflexivity].
Qed.

(** The confirmation step cannot fail and leaves the database alone; it
    adds at most one event, the mail. *)
Lemma sendConfirmation_spec c order updatedOrder w :
  sendConfirmation c order updatedOrder w
  = (Ok tt, mkWorld (db w) (log w ++ confirmationEvents c order updatedOrder (db w))).
Proof.
  unfold sendConfirmation, confirmationEvents, bind, read, emit, ret.
  destruct (mapM _ _); cbn [db log]; [reflexivity|].
  rewrite app_nil_r. now destruct w.
Qed.

Lemma completeOrder_spec c now order items txid w :
  _completeOrder c now order items txid w
  = match forEach items (allocateItem order now) w with
    | (Err e, w') => (Err e, w')
    | (Ok _, wa) =>
        match order_update (order_id order) (setPaid COMPLETED txid now) wa with
        | (Err e, w') => (Err e, w')
        | (Ok u, wb) =>
            (Ok tt, mkWorld (db wb) (log wb ++ confirmationEvents c order u (db wb)))
        end
    end.
Proof.
  unfold _completeOrder, bind.
  destruct (forEach _ _ w) as [[[]|e] wa]; [|reflexivity].
  destruct (order_update _ _ wa) as [[u|e] wb]; [|reflexivity].
  apply sendConfirmation_spec.
Qed.

(** The callback, path by path. *)
Lemma handlePaymentCallback_spec c now p w :
  handlePaymentCallback c now p w
  = match order_findUnique (p_orderNo p) (db w) with
    | None =>
        (Err (NotFoundError ("Order " ++ p_orderNo p ++ " not found")),
         mkWorld (db w) (log w ++ [EvRollback]))
    | Some order =>
        if negb (bool_decide (order_status order = PENDING)) then
          (Ok alreadyProcessed, mkWorld (db w) (log w ++ [EvCommit]))
        else if amountMismatch (order_totalAmount order) (p_amount p) then
          (Err (BadRequestError AmountMismatch), mkWorld (db w) (log w ++ [EvRollback]))
        else if bool_decide (p_status p = "success") then
          match _completeOrder c now order (orderItems_of order (db w))
                  (p_transactionId p) w with
          | (Ok _, w') =>
              (Ok (mkCallbackResult true "Order completed" (Some (p_orderNo p))),
               mkWorld (db w') (log w' ++ [EvCommit]))
          | (Err e, w') => (Err e, mkWorld (db w) (log w' ++ [EvRollback]))
          end
        else
          match order_update (order_id order)
                  (setPaid CANCELLED (p_transactionId p) now) w with
          | (Ok _, w') =>
              (Ok (mkCallbackResult false "Payment failed" (Some (p_orderNo p))),
               mkWorld (db w') (log w' ++ [EvCommit]))
          | (Err e, w') => (Err e, mkWorld (db w) (log w' ++ [EvRollback]))
          end
    end.
Proof.
  unfold handlePaymentCallback, transaction, bind, read, throw, ret, alreadyProcessed.
  destruct (order_findUnique _ _) as [order|]; [|reflexivity].
  destruct (negb _); [reflexivity|].
  destruct (amountMismatch _ _); [reflexivity|].
  destruct (bool_decide (p_status p = "success")).
  - destruct (_completeOrder _ _ _ _ _ w) as [[[]|e] w']; reflexivity.
  - destruct (order_update _ _ w) as [[u|e] w']; reflexivity.
Qed.

(** After an update of the order that was read, the same order number
    finds the updated row. *)
Lemma order_update_found orderNo order data w w0 :
  (forall o, order_orderNo (data o) = order_orderNo o) ->
  order_findUnique orderNo (db w0) = Some order ->
  orders (db w) = orders (db w0) ->
  exists u w',
    order_update (order_id order) data w = (Ok u, w')
    /\ order_findUnique orderNo (db w') = Some (data order)
    /\ licenseKeys (db w') = licenseKeys (db w)
    /\ log w' = log w.
Proof.
  intros Hno Hfound Horders.
  destruct (find_by_id_of_found _ _ _ Hfound) as [o Ho].
  rewrite order_update_spec, Horders, Ho.
  eexists. eexists. split; [reflexivity|]. cbn [db log].
  split; [|split; reflexivity].
  pose proof (findUnique_after_update orderNo (db w0) order data Hno Hfound) as H.
  unfold order_findUnique in *. cbn [orders with_orders] in *. exact H.
Qed.

Lemma setPaid_orderNo st txid now o : order_orderNo (setPaid st txid now o) = order_orderNo o.
Proof. reflexivity. Qed.

Lemma setStatus_orderNo st o : order_orderNo (setStatus st o) = order_orderNo o.
Proof. reflexivity. Qed.

(** A callback that returns leaves its order in a status that is not
    pending. *)
Lemma handlePaymentCallback_settles c now p w r w1 :
  handlePaymentCallback c now p w = (Ok r, w1) ->
  exists order,
    order_findUnique (p_orderNo p) (db w1) = Some order
    /\ order_status order <> PENDING.
Proof.
  rewrite handlePaymentCallback_spec.
  destruct (order_findUnique (p_orderNo p) (db w)) as [order|] eqn:Hfound; [|discriminate].
  destruct (bool_decide (order_status order = PENDING)) eqn:Hst; cbn [negb].
  2:{ intros [= <- <-]. exists order. split; [exact Hfound|].
      now apply bool_decide_eq_false in Hst. }
  destruct (amountMismatch _ _); [discriminate|].
  destruct (bool_decide (p_status p = "success")).
  - rewrite completeOrder_spec.
    destruct (forEach _ _ w) as [[[]|e] wa] eqn:Hloop; [|discriminate].
    apply forEach_allocate_frame in Hloop as (Ho & _).
    destruct (order_update_found (p_orderNo p) order
                (setPaid COMPLETED (p_transactionId p) now) wa w
                (setPaid_orderNo _ _ _) Hfound Ho) as (u & wb & Hu & Hf & _).
    rewrite Hu. intros [= <- <-]. cbn [db].
    eexists. split; [exact Hf|]. discriminate.
  - destruct (order_update_found (p_orderNo p) order
                (setPaid CANCELLED (p_transactionId p) now) w w
                (setPaid_orderNo _ _ _) Hfound eq_refl) as (u & wb & Hu & Hf & _).
    rewrite Hu. intros [= <- <-]. cbn [db].
    eexists. split; [exact Hf|]. discriminate.
Qed.


(** ** Selection of keys *)

Lemma insert_by_createdAt_perm k l : Permutation (insert_by_createdAt k l) (k :: l).
Proof.
  induction l as [|h t IH]; [reflexivity|].
  cbn [insert_by_createdAt]. destruct (Z.leb _ _); [reflexivity|].
  rewrite IH. apply perm_swap.
Qed.

Lemma orderBy_createdAt_asc_perm l : Permutation (orderBy_createdAt_asc l) l.
Proof.
  induction l as [|k l IH]; [reflexivity|].
  cbn [orderBy_createdAt_asc foldr]. fold (orderBy_createdAt_asc l).
  rewrite insert_by_createdAt_perm. now constructor.
Qed.

Lemma length_findAvailable productId quantity d :
  List.length (licenseKey_findAvailable productId quantity d)
  = Nat.min quantity (InventoryService.availableStock d productId).
Proof.
  unfold licenseKey_findAvailable, InventoryService.availableStock.
  rewrite length_take. f_equal.
  apply Permutation_length, orderBy_createdAt_asc_perm.
Qed.

Lemma forEach_app {A} (l1 l2 : list A) (body : A -> Tx unit) : forall w,
  forEach (l1 ++ l2) body w
  = match forEach l1 body w with
    | (Ok _, w') => forEach l2 body w'
    | (Err e, w') => (Err e, w')
    end.
Proof.
  induction l1 as [|x l1 IH]; intros w; [reflexivity|].
  cbn [app]. rewrite !forEach_cons.
  destruct (body x w) as [[[]|e] w1]; [apply IH|reflexivity].
Qed.

(** C3. When the turn of an order item comes and its product has fewer
    available keys than the item asks for, the whole callback transaction
    aborts with the insufficient-keys error and the database is the one
    from before the callback: the order stays pending and no key has
    changed, whatever was allocated to the items before. The callback is
    one that reaches the allocation: its order is pending, its amount
    passes the amount test and its status is 'success'. *)
Theorem insufficient_inventory_aborts
    (c : Collaborators) (now : Z) (p : Payload) (w wa : World)
    (order : Order) (before after : list OrderItem) (item : OrderItem) :
  order_findUnique (p_orderNo p) (db w) = Some order ->
  order_status order = PENDING ->
  amountMismatch (order_totalAmount order) (p_amount p) = false ->
  p_status p = "success" ->
  orderItems_of order (db w) = (before ++ item :: after)%list ->
  forEach before (allocateItem order now) w = (Ok tt, wa) ->
  InventoryService.availableStock (db wa) (item_productId item) < item_quantity item ->
  let out := handlePaymentCallback c now p w in
  out
  = (Err (BadRequestError
            (InsufficientKeys (item_productName item) (item_quantity item)
               (InventoryService.availableStock (db wa) (item_productId item)))),
     mkWorld (db w) (log w ++ [EvRollback]))
  /\ order_findUnique (p_orderNo p) (db (snd out)) = Some order
  /\ licenseKeys (db (snd out)) = licenseKeys (db w)
  /\ orderItems (db (snd out)) = orderItems (db w).
Proof.
  intros Hfound Hst Hamount Hsuccess Hitems Hbefore Hstock out.
  assert (Hout : out
                 = (Err (BadRequestError
                           (InsufficientKeys (item_productName item) (item_quantity item)
                              (InventoryService.availableStock (db wa)
                                 (item_productId item)))),
                    mkWorld (db w) (log w ++ [EvRollback]))).
  { subst out.
    rewrite handlePaymentCallback_spec, Hfound, Hst, Hamount.
    rewrite bool_decide_eq_true_2 by reflexivity. cbn [negb].
    rewrite bool_decide_eq_true_2 by exact Hsuccess.
    rewrite completeOrder_spec, Hitems, forEach_app, Hbefore, forEach_cons.
    rewrite allocateItem_unfold. cbv zeta.
    rewrite length_findAvailable.
    replace (Nat.min _ _)
      with (InventoryService.availableStock (db wa) (item_productId item)) by lia.
    destruct (Nat.ltb_spec
                (InventoryService.availableStock (db wa) (item_productId item))
                (item_quantity item)) as [_|Hge]; [|lia].
    apply forEach_allocate_frame in Hbefore as (_ & _ & _ & Hlog).
    now rewrite Hlog. }
  rewrite Hout. cbn [snd db]. auto.
Qed.

(** The statement at an order of two lines: the first line takes two of
    the three keys of its product, the second finds no key of its own, and
    the callback leaves the shop as it was, the two keys included. *)
Lemma insufficient_inventory_aborts_witness :
  let w := mkWorld Fixtures.db_two_lines [] in
  let wa := snd (forEach [Fixtures.item3a] (allocateItem Fixtures.order3 5000) w) in
  let out := handlePaymentCallback Fixtures.services_up 5000 Fixtures.paid3 w in
  map key_status (licenseKeys (db wa)) = [KeySold; KeySold; KeyAvailable]
  /\ out
     = (Err (BadRequestError (InsufficientKeys "Office" 1 0)),
        mkWorld Fixtures.db_two_lines [EvRollback])
  /\ order_findUnique "ORD20251016000003" (db (snd out)) = Some Fixtures.order3
  /\ map key_status (licenseKeys (db (snd out)))
     = [KeyAvailable; KeyAvailable; KeyAvailable].
Proof.
  cbv zeta.
  destruct (insufficient_inventory_aborts Fixtures.services_up 5000 Fixtures.paid3
              (mkWorld Fixtures.db_two_lines [])
              (snd (forEach [Fixtures.item3a] (allocateItem Fixtures.order3 5000)
                      (mkWorld Fixtures.db_two_lines [])))
              Fixtures.order3 [Fixtures.item3a] [] Fixtures.item3b)
    as (Hout & Hfound & Hkeys & _).
  - reflexivity.
  - reflexivity.
  - vm_compute. reflexivity.
  - reflexivity.
  - reflexivity.
  - vm_compute. reflexivity.
  - vm_compute. lia.
  - split; [vm_compute; reflexivity|]. split.
    + rewrite Hout. vm_compute. reflexivity.
    + split; [exact Hfound|]. rewrite Hkeys. vm_compute. reflexivity.
Defined.

(** ** The confirmation mail *)

Lemma completeOrder_collaborators c c' now order items txid w :
  fst (_completeOrder c now order items txid w)
  = fst (_completeOrder c' now order items txid w)
  /\ db (snd (_completeOrder c now order items txid w))
     = db (snd (_completeOrder c' now order items txid w)).
Proof.
  rewrite !completeOrder_spec.
  destruct (forEach _ _ w) as [[[]|e] wa]; [|auto].
  destruct (order_update _ _ wa) as [[u|e] wb]; auto.
Qed.

(** C9, as the code has it. The confirmation mail is sent inside the
    transaction, before its commit; whatever decryption and the mail
    transport do, the callback returns the same answer and commits the same
    database: a failure of the mail step never undoes the completion of the
    order or the allocation of its keys. *)
Theorem confirmation_mail_never_rolls_back
    (c c' : Collaborators) (now : Z) (p : Payload) (w : World) :
  fst (handlePaymentCallback c now p w) = fst (handlePaymentCallback c' now p w)
  /\ db (snd (handlePaymentCallback c now p w))
     = db (snd (handlePaymentCallback c' now p w))
  /\ (forall r w1,
         handlePaymentCallback c now p w = (Ok r, w1) ->
         exists mails,
           log w1 = (log w ++ mails ++ [EvCommit])%list
           /\ (mails = [] \/ exists req delivered, mails = [EvMail req delivered])).
Proof.
  split; [|split].
  - rewrite !handlePaymentCallback_spec.
    destruct (order_findUnique _ _) as [order|]; [|reflexivity].
    destruct (negb _); [reflexivity|].
    destruct (amountMismatch _ _); [reflexivity|].
    destruct (bool_decide _); [|reflexivity].
    destruct (completeOrder_collaborators c c' now order
                (orderItems_of order (db w)) (p_transactionId p) w) as [Hr _].
    destruct (_completeOrder c _ _ _ _ _) as [[[]|e] w1],
             (_completeOrder c' _ _ _ _ _) as [[[]|e'] w1'];
      cbn [fst] in *; congruence.
  - rewrite !handlePaymentCallback_spec.
    destruct (order_findUnique _ _) as [order|]; [|reflexivity].
    destruct (negb _); [reflexivity|].
    destruct (amountMismatch _ _); [reflexivity|].
    destruct (bool_decide _); [|reflexivity].
    destruct (completeOrder_collaborators c c' now order
                (orderItems_of order (db w)) (p_transactionId p) w) as [Hr Hd].
    destruct (_completeOrder c _ _ _ _ _) as [[[]|e] w1],
             (_completeOrder c' _ _ _ _ _) as [[[]|e'] w1'];
      cbn [fst snd db] in *; congruence.
  - intros r w1. rewrite handlePaymentCallback_spec.
    destruct (order_findUnique _ _) as [order|]; [|discriminate].
    destruct (negb _).
    { intros [= <- <-]. exists []. cbn [log]. auto. }
    destruct (amountMismatch _ _); [discriminate|].
    destruct (bool_decide _).
    + rewrite completeOrder_spec.
      destruct (forEach _ _ w) as [[[]|e] wa] eqn:Hloop; [|discriminate].
      apply forEach_allocate_frame in Hloop as (_ & _ & _ & Hlog).
      rewrite order_update_spec.
      destruct (List.find _ _) as [o|]; [|discriminate].
      intros [= <- <-]. cbn [log db]. rewrite Hlog, <- app_assoc.
      eexists. split; [reflexivity|].
      unfold confirmationEvents. destruct (mapM _ _); eauto.
    + rewrite order_update_spec.
      destruct (List.find _ _) as [o|]; [|discriminate].
      intros [= <- <-]. exists []. cbn [log]. auto.
Qed.

(** The order of events the specification asks for fails on a plain
    successful callback: the mail is out before the commit. *)
Lemma confirmation_mail_precedes_commit :
  exists req,
    log (snd (handlePaymentCallback Fixtures.services_up 5000 Fixtures.paid
                Fixtures.world0))
    = [EvMail req true; EvCommit]
    /\ mailOnlyAfterCommit false
         (log (snd (handlePaymentCallback Fixtures.services_up 5000 Fixtures.paid
                      Fixtures.world0)))
       = false.
Proof. eexists. split; vm_compute; reflexivity. Qed.

End OrderFacts.

(** * Properties of the key allocation *)

Module AllocationFacts.
Import Store OrderService.

Lemma insert_by_createdAt_In k x l :
  In x (insert_by_createdAt k l) -> x = k \/ In x l.
Proof.
  intros H. apply (Permutation_in _ (OrderFacts.insert_by_createdAt_perm k l)) in H.
  destruct H; auto.
Qed.

Lemma insert_by_createdAt_sorted k l :
  StronglySorted olderOrSame l -> StronglySorted olderOrSame (insert_by_createdAt k l).
Proof.
  induction 1 as [|h t Hs IH Hh]; cbn [insert_by_createdAt].
  - repeat constructor.
  - destruct (Z.leb_spec (key_createdAt k) (key_createdAt h)) as [Hle|Hgt].
    + constructor; [now constructor|].
      constructor; [exact Hle|].
      eapply Forall_impl; [exact Hh|]. unfold olderOrSame. intros; lia.
    + constructor; [exact IH|].
      apply List.Forall_forall. intros x Hx.
      apply insert_by_createdAt_In in Hx as [->|Hx].
      * unfold olderOrSame. lia.
      * rewrite List.Forall_forall in Hh. now apply Hh.
Qed.

Lemma orderBy_createdAt_asc_sorted l : StronglySorted olderOrSame (orderBy_createdAt_asc l).
Proof.
  induction l as [|k l IH]; [constructor|].
  apply insert_by_createdAt_sorted, IH.
Qed.

Lemma sorted_prefix_before_rest {A} (R : A -> A -> Prop) (l1 l2 : list A) :
  StronglySorted R (l1 ++ l2) ->
  StronglySorted R l1 /\ forall a b, In a l1 -> In b l2 -> R a b.
Proof.
  induction l1 as [|x l1 IH]; cbn [app]; intros Hs.
  - split; [constructor|]. intros a b [].
  - apply StronglySorted_inv in Hs as [Hs Hx].
    destruct (IH Hs) as [Hs1 Hab]. split.
    + constructor; [exact Hs1|]. rewrite Forall_app in Hx. tauto.
    + intros a b [<-|Ha] Hb.
      * rewrite List.Forall_forall in Hx. apply Hx, in_or_app. now right.
      * now apply Hab.
Qed.

Lemma availableOf_In productId d k :
  In k (availableOf productId d)
  <-> In k (licenseKeys d) /\ key_productId k = productId /\ key_status k = KeyAvailable.
Proof.
  unfold availableOf. rewrite filter_In, andb_true_iff, Nat.eqb_eq, bool_decide_eq_true.
  tauto.
Qed.

(** C5, as the code has it. With at least [quantity] available keys of the
    product, the selection is [quantity] available keys of that product in
    ascending order of creation time, and no available key left behind is
    older than a selected one; the query orders by creation time alone. *)
Theorem allocation_is_fifo_by_creation_time (productId quantity : nat) (d : Db) :
  quantity <= InventoryService.availableStock d productId ->
  let selected := licenseKey_findAvailable productId quantity d in
  List.length selected = quantity
  /\ StronglySorted olderOrSame selected
  /\ exists rest,
       Permutation (availableOf productId d) (selected ++ rest)
       /\ forall a b, In a selected -> In b rest -> olderOrSame a b.
Proof.
  intros Hq selected. subst selected.
  split; [rewrite OrderFacts.length_findAvailable; lia|].
  unfold licenseKey_findAvailable. fold (availableOf productId d).
  pose proof (orderBy_createdAt_asc_sorted (availableOf productId d)) as Hs.
  rewrite <- (take_drop quantity (orderBy_createdAt_asc (availableOf productId d))) in Hs.
  apply sorted_prefix_before_rest in Hs as [Hs Hab].
  split; [exact Hs|].
  exists (drop quantity (orderBy_createdAt_asc (availableOf productId d))).
  split; [|exact Hab].
  rewrite take_drop. symmetry. apply OrderFacts.orderBy_createdAt_asc_perm.
Qed.

(** The statement at the shop with three keys. *)
Lemma allocation_is_fifo_by_creation_time_witness :
  let selected := licenseKey_findAvailable 1 2 Fixtures.db0 in
  List.length selected = 2
  /\ StronglySorted olderOrSame selected
  /\ exists rest,
       Permutation (availableOf 1 Fixtures.db0) (selected ++ rest)
       /\ forall a b, In a selected -> In b rest -> olderOrSame a b.
Proof.
  apply (allocation_is_fifo_by_creation_time 1 2 Fixtures.db0).
  vm_compute. lia.
Defined.

(** Two keys of one creation time: the code takes the one the store
    enumerates first, the order (creation time, id) asks for the other. *)
Lemma allocation_breaks_ties_by_store_order :
  map key_id (licenseKey_findAvailable 1 1 Fixtures.db_tie) = [2]
  /\ map key_id (fifo_by_createdAt_then_id 1 1 Fixtures.db_tie) = [1]
  /\ 1 <= InventoryService.availableStock Fixtures.db_tie 1.
Proof. vm_compute. repeat split; lia. Qed.

(** ** The mark-sold write *)

Lemma updateMany_lookup ids data d i :
  licenseKeys (licenseKey_updateMany ids data d) !! i
  = (fun k => if bool_decide (key_id k ∈ ids) then data k else k)
      <$> licenseKeys d !! i.
Proof. unfold licenseKey_updateMany. cbn [licenseKeys with_licenseKeys]. apply list_lookup_fmap. Qed.

Lemma updateMany_ids ids data d :
  (forall k, key_id (data k) = key_id k) ->
  map key_id (licenseKeys (licenseKey_updateMany ids data d)) = map key_id (licenseKeys d).
Proof.
  intros Hid. unfold licenseKey_updateMany. cbn [licenseKeys with_licenseKeys].
  rewrite map_map. apply map_ext. intros k. destruct (bool_decide _); auto.
Qed.

Lemma unique_id_same_row (l : list LicenseKey) (a b : LicenseKey) :
  NoDup (map key_id l) -> In a l -> In b l -> key_id a = key_id b -> a = b.
Proof.
  induction l as [|x l IH]; cbn [map]; [intros _ []|].
  rewrite NoDup_cons. intros [Hx Hl] [<-|Ha] [<-|Hb] Hab; auto.
  - exfalso. apply Hx. rewrite Hab. apply list_elem_of_In, in_map, Hb.
  - exfalso. apply Hx. rewrite <- Hab. apply list_elem_of_In, in_map, Ha.
Qed.

Lemma findAvailable_In productId quantity d k :
  In k (licenseKey_findAvailable productId quantity d) ->
  In k (licenseKeys d) /\ key_productId k = productId /\ key_status k = KeyAvailable.
Proof.
  unfold licenseKey_findAvailable. fold (availableOf productId d). intros H.
  apply availableOf_In.
  apply (Permutation_in _ (OrderFacts.orderBy_createdAt_asc_perm _)).
  apply list_elem_of_In. apply (subseteq_take quantity). apply list_elem_of_In, H.
Qed.

(** Run without interruption over unique ids, the allocation of an item
    writes only rows that are available. *)
Lemma allocateItem_keeps_unavailable order now item w r w' :
  NoDup (map key_id (licenseKeys (db w))) ->
  allocateItem order now item w = (r, w') ->
  NoDup (map key_id (licenseKeys (db w')))
  /\ forall i k, licenseKeys (db w) !! i = Some k -> key_status k <> KeyAvailable ->
                licenseKeys (db w') !! i = Some k.
Proof.
  intros Hnd. rewrite OrderFacts.allocateItem_unfold. cbv zeta.
  destruct (Nat.ltb _ _); intros [= <- <-]; [auto|]. cbn [db]. split.
  - now rewrite updateMany_ids.
  - intros i k Hi Hst. rewrite updateMany_lookup, Hi. cbn [fmap option_fmap option_map].
    rewrite bool_decide_eq_false_2; [reflexivity|].
    intros Hin. apply list_elem_of_In, in_map_iff in Hin as (k' & Hid & Hk').
    apply findAvailable_In in Hk' as (Hk' & _ & Hav).
    apply Hst. rewrite <- (unique_id_same_row _ k' k Hnd Hk'); auto.
    apply list_elem_of_In. eapply list_elem_of_lookup_2, Hi.
Qed.

Lemma forEach_allocate_keeps_unavailable order now items : forall w r w',
  NoDup (map key_id (licenseKeys (db w))) ->
  forEach items (allocateItem order now) w = (r, w') ->
  NoDup (map key_id (licenseKeys (db w')))
  /\ forall i k, licenseKeys (db w) !! i = Some k -> key_status k <> KeyAvailable ->
                licenseKeys (db w') !! i = Some k.
Proof.
  induction items as [|item items IH]; intros w r w' Hnd.
  - intros [= <- <-]. auto.
  - rewrite OrderFacts.forEach_cons.
    destruct (allocateItem order now item w) as [[[]|e] w1] eqn:E1.
    + destruct (allocateItem_keeps_unavailable _ _ _ _ _ _ Hnd E1) as [Hnd1 H1].
      intros H. destruct (IH _ _ _ Hnd1 H) as [Hnd' H']. split; [exact Hnd'|].
      intros i k Hi Hst. apply H'; auto.
    + intros [= <- <-]. eapply allocateItem_keeps_unavailable; eauto.
Qed.

Lemma order_update_keys id data w r w' :
  order_update id data w = (r, w') -> licenseKeys (db w') = licenseKeys (db w).
Proof.
  rewrite OrderFacts.order_update_spec.
  destruct (List.find _ _); intros [= <- <-]; reflexivity.
Qed.

(** The mark-sold write selects by id alone: every row whose id is among
    the selected ones is written, whatever its status. A callback that
    runs uninterrupted over a table of unique key ids leaves every row
    that is not available when it starts exactly as it was. *)
Lemma mark_sold_selects_by_id_alone :
  (forall ids orderId now d i k,
      licenseKeys d !! i = Some k -> key_id k ∈ ids ->
      licenseKeys (licenseKey_updateMany ids (markSold orderId now) d) !! i
      = Some (markSold orderId now k))
  /\ (forall c now p w r w1,
         NoDup (map key_id (licenseKeys (db w))) ->
         handlePaymentCallback c now p w = (r, w1) ->
         forall i k, licenseKeys (db w) !! i = Some k -> key_status k <> KeyAvailable ->
                     licenseKeys (db w1) !! i = Some k).
Proof.
  split.
  - intros ids orderId now d i k Hi Hin.
    rewrite updateMany_lookup, Hi. cbn [fmap option_fmap option_map].
    now rewrite bool_decide_eq_true_2.
  - intros c now p w r w1 Hnd. rewrite OrderFacts.handlePaymentCallback_spec.
    destruct (order_findUnique _ _) as [order|]; [|intros [= <- <-]; auto].
    destruct (negb _); [intros [= <- <-]; auto|].
    destruct (amountMismatch _ _); [intros [= <- <-]; auto|].
    destruct (bool_decide _).
    + rewrite OrderFacts.completeOrder_spec.
      destruct (forEach _ _ w) as [[[]|e] wa] eqn:Hloop; [|intros [= <- <-]; auto].
      destruct (forEach_allocate_keeps_unavailable _ _ _ _ _ _ Hnd Hloop) as [_ Hkeep].
      destruct (order_update _ _ wa) as [[u|e] wb] eqn:Hu; intros [= <- <-]; auto.
      cbn [db]. apply order_update_keys in Hu. rewrite Hu. exact Hkeep.
    + destruct (order_update _ _ w) as [[u|e] wb] eqn:Hu; intros [= <- <-]; auto.
      cbn [db]. apply order_update_keys in Hu. now rewrite Hu.
Qed.

(** C2, at the failing input. Two buyers pay for the last key of a
    product and their callbacks interleave: both select key 1 while it is
    available, both pass the test on the number of keys selected, and each
    then writes and completes its order. The write of the second, issued
    after the first has sold the key, still takes the row: both orders end
    completed, the one key belongs to the second, and the first holds none.
    The guarded write of the specification would have affected no row at
    that point. *)
Theorem stale_selection_takes_a_sold_key :
  let d := Fixtures.db_two_buyers in
  let selected1 := licenseKey_findAvailable 1 1 d in
  let selected2 := licenseKey_findAvailable 1 1 d in
  let d1 := licenseKey_updateMany (map key_id selected1) (markSold 1 5000) d in
  let w1 := snd (order_update 1 (setPaid COMPLETED "TXN-1" 5000) (mkWorld d1 [])) in
  let d2 := licenseKey_updateMany (map key_id selected2) (markSold 2 5001) (db w1) in
  let w2 := snd (order_update 2 (setPaid COMPLETED "TXN-2" 5001) (mkWorld d2 [])) in
  map key_id selected1 = [1] /\ map key_id selected2 = [1]
  /\ Nat.ltb (List.length selected1) 1 = false
  /\ Nat.ltb (List.length selected2) 1 = false
  /\ map (fun k => (key_id k, key_status k, key_orderId k)) (licenseKeys (db w1))
     = [(1, KeySold, Some 1)]
  /\ map (fun k => (key_id k, key_status k, key_orderId k)) (licenseKeys (db w2))
     = [(1, KeySold, Some 2)]
  /\ map (fun o => (order_id o, order_status o)) (orders (db w2))
     = [(1, COMPLETED); (2, COMPLETED)]
  /\ item_licenseKeys (db w2) Fixtures.item1 = []
  /\ fst (updateMany_where_available (map key_id selected2) (markSold 2 5001) (db w1)) = 0.
Proof. vm_compute. repeat split. Qed.

End AllocationFacts.

(** * Properties of the refund *)

Module RefundFacts.
Import Store OrderService.

(** The refund, path by path. *)
Lemma refundOrder_spec c orderNo refundAmount refundReason w :
  refundOrder c orderNo refundAmount refundReason w
  = match order_findUnique orderNo (db w) with
    | None =>
        (Err (NotFoundError "Order not found"), mkWorld (db w) (log w ++ [EvRollback]))
    | Some order =>
        let req := refundRequestOf order refundAmount refundReason in
        if negb (refundable order) then
          (Err (BadRequestError (CannotRefund (order_status order))),
           mkWorld (db w) (log w ++ [EvRollback]))
        else if (refund_amount req >? order_totalAmount order)%Z then
          (Err (BadRequestError RefundExceedsTotal), mkWorld (db w) (log w ++ [EvRollback]))
        else
          match gatewayRefund c req with
          | GatewaySuccess =>
              let ids :=
                map key_id (flat_map (item_licenseKeys (db w)) (orderItems_of order (db w))) in
              let released :=
                if Nat.ltb 0 (List.length ids)
                then licenseKey_updateMany ids release (db w) else db w in
              match order_update (order_id order) (setStatus REFUNDED)
                      (mkWorld released (log w ++ [EvRefund req GatewaySuccess])) with
              | (Ok u, w') =>
                  (Ok (mkRefundResult true u (refund_amount req)),
                   mkWorld (db w') (log w' ++ [EvCommit]))
              | (Err e, w') => (Err e, mkWorld (db w) (log w' ++ [EvRollback]))
              end
          | GatewayFailure =>
              (Err (AppError "Refund failed" 500),
               mkWorld (db w) ((log w ++ [EvRefund req GatewayFailure]) ++ [EvRollback]))
          | GatewayThrows e =>
              (Err e,
               mkWorld (db w) ((log w ++ [EvRefund req (GatewayThrows e)]) ++ [EvRollback]))
          end
    end.
Proof.
  unfold refundOrder, callGateway, transaction, refundable, refundRequestOf.
  unfold bind, read, throw, ret, emit, write.
  destruct (order_findUnique _ _) as [order|]; [|reflexivity].
  cbv zeta. cbn [refund_amount]. rewrite negb_orb.
  destruct (_ && _); [reflexivity|].
  destruct (Z.gtb _ _); [reflexivity|].
  cbn [db log].
  destruct (gatewayRefund c _); cbn [negb db log]; try reflexivity.
  destruct (Nat.ltb _ _); cbn [db log];
    match goal with
    | |- context [order_update ?i ?f ?w0] =>
        destruct (order_update i f w0) as [[u|e] w']
    end; reflexivity.
Qed.

(** C4. [refundOrder] on an order that is neither paid nor completed is
    rejected and changes nothing; when the gateway does not confirm the
    refund nothing changes either; when it does, one committed transaction
    sets the order to 'refunded' and returns every license key linked to
    the order to stock: its status is 'available', its order and its sale
    time are cleared, and what else the row holds is kept. Over a key table
    with unique ids the keys of other orders are left as they were. *)
Theorem refundOrder_contract
    (c : Collaborators) (orderNo : string) (refundAmount : option Z)
    (refundReason : string) (w : World) (order : Order) :
  order_findUnique orderNo (db w) = Some order ->
  let out := refundOrder c orderNo refundAmount refundReason w in
  let req := refundRequestOf order refundAmount refundReason in
  (refundable order = false ->
     fst out = Err (BadRequestError (CannotRefund (order_status order)))
     /\ db (snd out) = db w /\ log (snd out) = (log w ++ [EvRollback])%list)
  /\ (refundable order = true ->
      (refund_amount req <= order_totalAmount order)%Z ->
      gatewayRefund c req <> GatewaySuccess ->
      (exists e, fst out = Err e) /\ db (snd out) = db w)
  /\ (refundable order = true ->
      (refund_amount req <= order_totalAmount order)%Z ->
      gatewayRefund c req = GatewaySuccess ->
      orderItems_of order (db w) <> [] ->
      (exists u, fst out = Ok (mkRefundResult true u (refund_amount req))
                 /\ order_status u = REFUNDED)
      /\ order_findUnique orderNo (db (snd out)) = Some (setStatus REFUNDED order)
      /\ log (snd out) = (log w ++ [EvRefund req GatewaySuccess; EvCommit])%list
      /\ (forall i k,
             licenseKeys (db w) !! i = Some k ->
             key_orderId k = Some (order_id order) ->
             exists k',
               licenseKeys (db (snd out)) !! i = Some k'
               /\ key_status k' = KeyAvailable
               /\ key_orderId k' = None
               /\ key_soldAt k' = None
               /\ key_id k' = key_id k
               /\ key_productId k' = key_productId k
               /\ keyValueEncrypted k' = keyValueEncrypted k
               /\ key_createdAt k' = key_createdAt k
               /\ key_revokedAt k' = key_revokedAt k
               /\ key_revokeReason k' = key_revokeReason k)
      /\ (NoDup (map key_id (licenseKeys (db w))) ->
          forall i k,
            licenseKeys (db w) !! i = Some k ->
            key_orderId k <> Some (order_id order) ->
            licenseKeys (db (snd out)) !! i = Some k)
      /\ map key_id (licenseKeys (db (snd out))) = map key_id (licenseKeys (db w))).
Proof.
  intros Hfound out req. subst out.
  rewrite refundOrder_spec, Hfound. cbv zeta. fold req.
  split; [|split].
  - intros ->. cbn [negb fst snd db log]. auto.
  - intros -> Hle Hgw. cbn [negb].
    destruct (Z.gtb_spec (refund_amount req) (order_totalAmount order)); [lia|].
    destruct (gatewayRefund c req); [contradiction| |]; cbn [fst snd db]; eauto.
  - intros -> Hle -> Hitems. cbn [negb].
    destruct (Z.gtb_spec (refund_amount req) (order_totalAmount order)); [lia|].
    set (ids := map key_id
                  (flat_map (item_licenseKeys (db w)) (orderItems_of order (db w)))).
    set (released := if Nat.ltb 0 (List.length ids)
                     then licenseKey_updateMany ids release (db w) else db w).
    assert (Horders : orders released = orders (db w)).
    { unfold released. destruct (Nat.ltb _ _); reflexivity. }
    destruct (OrderFacts.order_update_found orderNo order (setStatus REFUNDED)
                (mkWorld released (log w ++ [EvRefund req GatewaySuccess])) w
                (OrderFacts.setStatus_orderNo _) Hfound Horders)
      as (u & w' & Hu & Hf & Hkeys & Hlog).
    pose proof Hu as Hu'. rewrite OrderFacts.order_update_spec in Hu'.
    rewrite Hu. cbn [fst snd db log].
    split; [|split; [exact Hf|split; [|split; [|split]]]].
    + exists u. split; [reflexivity|].
      destruct (List.find _ _) as [o|]; [|discriminate].
      injection Hu' as <- _. reflexivity.
    + rewrite Hlog. cbn [log]. now rewrite <- app_assoc.
    + intros i k Hi Hlinked. rewrite Hkeys. cbn [db].
      assert (Hin : key_id k ∈ ids).
      { unfold ids. apply list_elem_of_In, in_map, in_flat_map.
        destruct (orderItems_of order (db w)) as [|it its] eqn:Hits; [contradiction|].
        exists it. split; [now left|].
        unfold item_licenseKeys. apply filter_In. split.
        - apply list_elem_of_In. eapply list_elem_of_lookup_2, Hi.
        - apply bool_decide_eq_true. rewrite Hlinked. f_equal. symmetry.
          assert (Hit : In it (orderItems_of order (db w))) by (rewrite Hits; now left).
          unfold orderItems_of in Hit. apply filter_In in Hit as [_ Hit].
          now apply Nat.eqb_eq in Hit. }
      unfold released.
      destruct (Nat.ltb_spec 0 (List.length ids)) as [_|Hlen].
      * rewrite AllocationFacts.updateMany_lookup, Hi.
        cbn [fmap option_fmap option_map]. rewrite bool_decide_eq_true_2 by exact Hin.
        eexists. split; [reflexivity|]. repeat split.
      * exfalso. destruct ids; [now apply elem_of_nil in Hin|cbn in Hlen; lia].
    + intros Hnd i k Hi Hother. rewrite Hkeys. cbn [db].
      unfold released. destruct (Nat.ltb 0 (List.length ids)); [|exact Hi].
      rewrite AllocationFacts.updateMany_lookup, Hi.
      cbn [fmap option_fmap option_map].
      rewrite bool_decide_eq_false_2; [reflexivity|].
      intros Hin. apply Hother. unfold ids in Hin.
      apply list_elem_of_In, in_map_iff in Hin as (k2 & Hid & Hk2).
      apply in_flat_map in Hk2 as (it & Hit & Hk2).
      unfold item_licenseKeys in Hk2. apply filter_In in Hk2 as [Hk2 Hlinked].
      apply bool_decide_eq_true in Hlinked.
      unfold orderItems_of in Hit. apply filter_In in Hit as [_ Hit].
      apply Nat.eqb_eq in Hit.
      assert (Hk : In k (licenseKeys (db w)))
        by (apply list_elem_of_In; eapply list_elem_of_lookup_2, Hi).
      rewrite <- (AllocationFacts.unique_id_same_row _ _ _ Hnd Hk2 Hk Hid).
      now rewrite Hlinked, Hit.
    + rewrite Hkeys. cbn [db]. unfold released.
      destruct (Nat.ltb 0 (List.length ids)); [|reflexivity].
      now apply AllocationFacts.updateMany_ids.
Qed.

(** The statement at the shop whose buyer has paid, with a gateway that
    confirms: key 1, sold to the order, is in stock again; keys 2 and 3
    are as they were. *)
Lemma refundOrder_contract_witness :
  let sold := markSold 1 5000 (Fixtures.stored_key 1 100 "AAAAA-AAAAA") in
  let out := refundOrder Fixtures.services_up "ORD20251016000001" None
               "Customer request" Fixtures.world_completed in
  licenseKeys (db Fixtures.world_completed) !! 0 = Some sold
  /\ (exists k',
        licenseKeys (db (snd out)) !! 0 = Some k'
        /\ key_status k' = KeyAvailable
        /\ key_orderId k' = None
        /\ key_soldAt k' = None
        /\ key_id k' = 1
        /\ keyValueEncrypted k' = keyValueEncrypted sold)
  /\ order_findUnique "ORD20251016000001" (db (snd out))
     = Some (setStatus REFUNDED (setPaid COMPLETED "TXN-1" 5000 Fixtures.order1))
  /\ licenseKeys (db (snd out)) !! 1 = Some (Fixtures.stored_key 2 100 "BBBBB-BBBBB").
Proof.
  cbv zeta.
  destruct (refundOrder_contract Fixtures.services_up "ORD20251016000001" None
              "Customer request" Fixtures.world_completed
              (setPaid COMPLETED "TXN-1" 5000 Fixtures.order1))
    as (_ & _ & H3).
  - vm_compute. reflexivity.
  - destruct H3 as (_ & Hf & _ & Hlinked & Hothers & _).
    + reflexivity.
    + vm_compute. discriminate.
    + reflexivity.
    + vm_compute. discriminate.
    + split; [vm_compute; reflexivity|]. split; [|split; [exact Hf|]].
      * destruct (Hlinked 0 (markSold 1 5000 (Fixtures.stored_key 1 100 "AAAAA-AAAAA")))
          as (k' & H0 & Hs & Ho & Ha & Hi & _ & Hv & _).
        -- vm_compute. reflexivity.
        -- reflexivity.
        -- exists k'. repeat split; assumption.
      * apply Hothers.
        -- refine (bool_decide_unpack _ _). vm_compute. exact I.
        -- vm_compute. reflexivity.
        -- vm_compute. discriminate.
Defined.

(** C6, at the failing input. The buyer pays and key 1 is sold to the
    order; the administrator revokes key 1; the order is refunded: the
    refund writes every key of the order, and the revoked key is
    'available' again. *)
Theorem refund_returns_revoked_key_to_stock :
  let status_of w := map (fun k => (key_id k, key_status k)) (licenseKeys (db w)) in
  status_of Fixtures.world_completed
  = [(1, KeySold); (2, KeyAvailable); (3, KeyAvailable)]
  /\ status_of Fixtures.world_revoked
     = [(1, KeyRevoked); (2, KeyAvailable); (3, KeyAvailable)]
  /\ status_of
       (snd (refundOrder Fixtures.services_up "ORD20251016000001" None
               "Customer request" Fixtures.world_revoked))
     = [(1, KeyAvailable); (2, KeyAvailable); (3, KeyAvailable)].
Proof. vm_compute. repeat split. Qed.

End RefundFacts.

(** * Properties of the admin license-key routes *)

Module AdminFacts.
Import Store AdminLicenseKeys.

Lemma encrypt_length_multiple_of_four gcm_seal scrypt env_key iv text c :
  Vault.encrypt gcm_seal scrypt env_key iv text = Ok c ->
  String.length c mod 4 = 0.
Proof.
  unfold Vault.encrypt.
  destruct (Vault.getEncryptionKey scrypt env_key) as [key|]; [|discriminate].
  destruct (negb _); [discriminate|].
  destruct (gcm_seal key iv _) as [ct tag].
  intros [= <-]. apply VaultFacts.base64_encode_length.
Qed.

(** C7, at the failing input. A bulk import of one key stores the key as it
    was posted: the new row's [keyValueEncrypted] is the plaintext, which
    no call of [encrypt] returns, under any key, nonce or cipher. *)
Theorem bulk_import_stores_plaintext :
  let posted := "AAAAA-BBBBB-CCCCC-DDDDD-EEEEE" in
  let out := bulkImport 1 [posted] 7000 Fixtures.db0 in
  fst out = Reply200 (mkImportReport 1 0 1)
  /\ map (fun k => (key_id k, keyValueEncrypted k))
       (drop 3 (licenseKeys (snd out)))
     = [(4, posted)]
  /\ (forall gcm_seal scrypt env_key iv text,
         Vault.encrypt gcm_seal scrypt env_key iv text <> Ok posted)
  /\ Fixtures.vault_decrypt posted = None.
Proof.
  cbv zeta. split; [vm_compute; reflexivity|].
  split; [vm_compute; reflexivity|].
  split; [|vm_compute; reflexivity].
  intros gcm_seal scrypt env_key iv text H.
  apply encrypt_length_multiple_of_four in H. vm_compute in H. discriminate.
Qed.

(** ** Where 'revoked' does stay *)

(** The admin routes and the cancellation keep a revoked key revoked: the
    import only appends rows, a revocation marks rows revoked, and the
    cancellation writes no key at all. *)
Lemma bulkImport_keeps_rows productId keys now d i k :
  licenseKeys d !! i = Some k ->
  licenseKeys (snd (bulkImport productId keys now d)) !! i = Some k.
Proof.
  intros Hi. unfold bulkImport.
  destruct (List.find _ (products d)); [|exact Hi].
  destruct (Nat.eqb _ 0); [exact Hi|].
  destruct (Nat.eqb _ 0); [exact Hi|].
  cbn [snd licenseKeys]. now apply lookup_app_l_Some.
Qed.

Lemma revoke_keeps_revoked id reason now d i k :
  licenseKeys d !! i = Some k -> key_status k = KeyRevoked ->
  exists k', licenseKeys (snd (revoke id reason now d)) !! i = Some k'
             /\ key_status k' = KeyRevoked.
Proof.
  intros Hi Hst. unfold revoke.
  destruct (List.find _ (licenseKeys d)) as [key|]; [|eauto].
  destruct (bool_decide _); [eauto|].
  cbn [snd licenseKeys with_licenseKeys]. rewrite list_lookup_fmap, Hi.
  cbn [fmap option_fmap option_map]. destruct (Nat.eqb _ _); eauto.
Qed.

Lemma bulkRevoke_keeps_revoked ids reason now d i k :
  licenseKeys d !! i = Some k -> key_status k = KeyRevoked ->
  licenseKeys (snd (bulkRevoke ids reason now d)) !! i = Some k.
Proof.
  intros Hi Hst. unfold bulkRevoke.
  cbn [snd licenseKeys with_licenseKeys]. rewrite list_lookup_fmap, Hi.
  cbn [fmap option_fmap option_map].
  rewrite (bool_decide_eq_true_2 _ Hst). cbn [negb]. now rewrite andb_false_r.
Qed.

Lemma cancelOrder_keeps_keys orderNo w :
  licenseKeys (db (snd (OrderService.cancelOrder orderNo w))) = licenseKeys (db w).
Proof.
  unfold OrderService.cancelOrder, transaction, bind, read, throw.
  destruct (order_findUnique _ _) as [order|]; [|reflexivity].
  destruct (negb _); [reflexivity|].
  destruct (order_update _ _ w) as [[u|e] w'] eqn:Hu; [|reflexivity].
  cbn [snd db]. now apply AllocationFacts.order_update_keys in Hu.
Qed.

End AdminFacts.

(** * Properties of the low-stock alerts *)

Module InventoryFacts.
Import Store InventoryService.

Lemma alertKey_inj (a b : nat) : alertKey a = alertKey b -> a = b.
Proof.
  unfold alertKey. intros H.
  apply (inj (String.app "inventory:alert:")) in H.
  now apply (inj pretty) in H.
Qed.

Lemma hasRecentAlert_entry productId now (r r' : Redis) :
  r !! alertKey productId = r' !! alertKey productId ->
  _hasRecentAlert productId now r = _hasRecentAlert productId now r'.
Proof. unfold _hasRecentAlert, redis_exists. now intros ->. Qed.

Lemma markAlertSent_same productId now (r : Redis) :
  _markAlertSent productId now r !! alertKey productId
  = Some ("1", Some (now + ALERT_COOLDOWN * 1000)%Z).
Proof. unfold _markAlertSent, redis_setex. apply lookup_insert_eq. Qed.

Lemma markAlertSent_other productId other now (r : Redis) :
  other <> productId ->
  _markAlertSent other now r !! alertKey productId = r !! alertKey productId.
Proof.
  intros Hne. unfold _markAlertSent, redis_setex. apply lookup_insert_ne.
  intros H. now apply alertKey_inj in H.
Qed.

(** While the entry stands the product counts as alerted, and no longer. *)
Lemma hasRecentAlert_of_entry productId (r : Redis) (value : string) (expireAt now : Z) :
  r !! alertKey productId = Some (value, Some expireAt) ->
  _hasRecentAlert productId now r = (now <? expireAt)%Z.
Proof.
  intros H. unfold _hasRecentAlert, redis_exists. rewrite H.
  now destruct (Z.ltb now expireAt).
Qed.

Lemma alertsFor_app productId (l1 l2 : list Alert) :
  alertsFor productId (l1 ++ l2) = (alertsFor productId l1 ++ alertsFor productId l2)%list.
Proof. apply List.filter_app. Qed.

(** One turn of the loop, by case. *)
Lemma alertStep_cases ch d now st item :
  let product :=
    List.find (fun p => Nat.eqb (product_id p) (si_productId item)) (products d) in
  let sent :=
    mkAlert (si_productId item) (si_stockCount item)
      ((fun send => send product (si_stockCount item)) <$> emailChannel ch)
      ((fun send => send product (si_stockCount item)) <$> wechatChannel ch) in
  alertStep ch d now st item
  = if _hasRecentAlert (si_productId item) now (cs_redis st) then st
    else if alertDelivered sent then
      mkCheckState (_markAlertSent (si_productId item) now (cs_redis st))
        (S (cs_alertsSent st)) (cs_alerts st ++ [sent])
    else mkCheckState (cs_redis st) (cs_alertsSent st) (cs_alerts st ++ [sent]).
Proof. reflexivity. Qed.

(** A turn for another product leaves the entry and the alerts of this
    one alone. *)
Lemma alertStep_other ch d now st item productId :
  si_productId item <> productId ->
  cs_redis (alertStep ch d now st item) !! alertKey productId
  = cs_redis st !! alertKey productId
  /\ alertsFor productId (cs_alerts (alertStep ch d now st item))
     = alertsFor productId (cs_alerts st).
Proof.
  intros Hne. rewrite alertStep_cases. cbv zeta.
  destruct (_hasRecentAlert _ _ _); [auto|].
  assert (Hno : forall a, alert_productId a = si_productId item ->
                  alertsFor productId (cs_alerts st ++ [a])
                  = alertsFor productId (cs_alerts st)).
  { intros a Ha. rewrite alertsFor_app. unfold alertsFor at 2. cbn [List.filter].
    rewrite Ha. apply Nat.eqb_neq in Hne. rewrite Hne. apply app_nil_r. }
  destruct (alertDelivered _); cbn [cs_redis cs_alerts]; split;
    auto using markAlertSent_other.
Qed.

Lemma fold_alertStep_others ch d now productId items : forall st,
  Forall (fun item => si_productId item <> productId) items ->
  cs_redis (fold_left (alertStep ch d now) items st) !! alertKey productId
  = cs_redis st !! alertKey productId
  /\ alertsFor productId (cs_alerts (fold_left (alertStep ch d now) items st))
     = alertsFor productId (cs_alerts st).
Proof.
  induction items as [|item items IH]; intros st Hall; [auto|].
  apply Forall_cons in Hall as [Hne Hall]. cbn [fold_left].
  destruct (IH (alertStep ch d now st item) Hall) as [H1 H2].
  destruct (alertStep_other ch d now st item productId Hne) as [G1 G2].
  split; congruence.
Qed.

(** Under an active cooldown a whole pass sends nothing for the product
    and keeps its entry. *)
Lemma fold_alertStep_suppressed ch d now productId items : forall st,
  _hasRecentAlert productId now (cs_redis st) = true ->
  cs_redis (fold_left (alertStep ch d now) items st) !! alertKey productId
  = cs_redis st !! alertKey productId
  /\ alertsFor productId (cs_alerts (fold_left (alertStep ch d now) items st))
     = alertsFor productId (cs_alerts st).
Proof.
  induction items as [|item items IH]; intros st Hcool; [auto|].
  cbn [fold_left].
  destruct (Nat.eq_dec (si_productId item) productId) as [Heq|Hne].
  - rewrite alertStep_cases. cbv zeta. rewrite Heq, Hcool. now apply IH.
  - destruct (alertStep_other ch d now st item productId Hne) as [G1 G2].
    destruct (IH (alertStep ch d now st item)) as [H1 H2].
    + now rewrite (hasRecentAlert_entry _ _ _ _ G1).
    + split; congruence.
Qed.

Lemma checkAndAlert_suppressed threshold ch d now productId (r : Redis) :
  _hasRecentAlert productId now r = true ->
  snd (fst (checkAndAlert threshold ch d now r)) !! alertKey productId
  = r !! alertKey productId
  /\ alertsFor productId (snd (checkAndAlert threshold ch d now r)) = [].
Proof.
  intros Hcool. unfold checkAndAlert.
  destruct (Nat.eqb _ 0); cbn [fst snd]; [auto|].
  apply (fold_alertStep_suppressed ch d now productId _ (mkCheckState r 0 [])).
  exact Hcool.
Qed.

Lemma monitor_cons threshold ch d now rest (r : Redis) :
  monitor threshold ((ch, d, now) :: rest) r
  = (fst (monitor threshold rest (snd (fst (checkAndAlert threshold ch d now r)))),
     (snd (checkAndAlert threshold ch d now r)
        ++ snd (monitor threshold rest (snd (fst (checkAndAlert threshold ch d now r)))))%list).
Proof.
  cbn [monitor].
  destruct (checkAndAlert threshold ch d now r) as [[rep r'] sent].
  cbn [fst snd]. now destruct (monitor threshold rest r').
Qed.

(** Any number of checks before the entry expires. *)
Lemma monitor_suppressed threshold productId value expireAt checks : forall r : Redis,
  r !! alertKey productId = Some (value, Some expireAt) ->
  Forall (fun check => (snd check < expireAt)%Z) checks ->
  fst (monitor threshold checks r) !! alertKey productId = Some (value, Some expireAt)
  /\ alertsFor productId (snd (monitor threshold checks r)) = [].
Proof.
  induction checks as [|[[ch d] now] checks IH]; intros r Hentry Hall; [auto|].
  apply Forall_cons in Hall as [Hnow Hall]. cbn [snd] in Hnow.
  rewrite monitor_cons. cbn [fst snd].
  destruct (checkAndAlert_suppressed threshold ch d now productId r) as [G1 G2].
  { rewrite (hasRecentAlert_of_entry _ _ _ _ _ Hentry). now apply Z.ltb_lt. }
  destruct (IH (snd (fst (checkAndAlert threshold ch d now r)))) as [H1 H2];
    [congruence|exact Hall|].
  split; [exact H1|]. now rewrite alertsFor_app, G2, H2.
Qed.

(** ** The check after the cooldown *)

Lemma NoDup_map_filter {A B} (f : A -> B) (p : A -> bool) (l : list A) :
  NoDup (map f l) -> NoDup (map f (List.filter p l)).
Proof.
  induction l as [|x l IH]; cbn [map List.filter]; [auto|].
  rewrite NoDup_cons. intros [Hx Hl]. destruct (p x); cbn [map]; [|auto].
  apply NoDup_cons. split; [|auto].
  intros Hin. apply Hx. apply list_elem_of_In in Hin. apply list_elem_of_In.
  apply in_map_iff in Hin as (y & Hy & Hin). apply filter_In in Hin as [Hin _].
  rewrite <- Hy. now apply in_map.
Qed.

Lemma lowStock_ids_NoDup threshold d :
  NoDup (map product_id (products d)) ->
  NoDup (map si_productId (getLowStockProducts threshold d)).
Proof.
  intros Hnd. unfold getLowStockProducts, checkAllStock.
  apply NoDup_map_filter. rewrite map_map. cbn [si_productId].
  now apply NoDup_map_filter.
Qed.

Lemma lowStock_In threshold d p :
  In p (products d) ->
  product_status p = ProductActive ->
  (Z.of_nat (availableStock d (product_id p)) <= threshold)%Z ->
  In (mkStockInfo (product_id p) (product_name p) (availableStock d (product_id p))
        threshold true ProductActive)
     (getLowStockProducts threshold d).
Proof.
  intros Hin Hact Hlow. unfold getLowStockProducts, checkAllStock.
  apply filter_In. split; [|reflexivity].
  apply in_map_iff. exists p. split.
  - rewrite Hact. f_equal. now apply Z.leb_le.
  - apply filter_In. split; [exact Hin|]. now apply bool_decide_eq_true.
Qed.

Lemma NoDup_map_split {A} (f : A -> nat) (l1 l2 : list A) (x : A) :
  NoDup (map f (l1 ++ x :: l2)) ->
  Forall (fun y => f y <> f x) l1 /\ Forall (fun y => f y <> f x) l2.
Proof.
  rewrite map_app. cbn [map]. rewrite NoDup_app, NoDup_cons.
  intros (_ & Hdisj & Hx & _). split; apply List.Forall_forall; intros y Hy Heq.
  - apply (Hdisj (f y)).
    + apply list_elem_of_In. now apply in_map.
    + rewrite Heq. now left.
  - apply Hx. rewrite <- Heq. apply list_elem_of_In. now apply in_map.
Qed.

(** With no cooldown standing, a pass over a list that holds the product
    once calls [sendStockAlert] for it once, and sets the cooldown exactly
    when the alert was delivered. *)
Lemma fold_alertStep_fires ch d now (r : Redis) l1 item l2 :
  Forall (fun other => si_productId other <> si_productId item) l1 ->
  Forall (fun other => si_productId other <> si_productId item) l2 ->
  _hasRecentAlert (si_productId item) now r = false ->
  let st := fold_left (alertStep ch d now) (l1 ++ item :: l2) (mkCheckState r 0 []) in
  exists a,
    alertsFor (si_productId item) (cs_alerts st) = [a]
    /\ alert_productId a = si_productId item
    /\ alert_stock a = si_stockCount item
    /\ cs_redis st !! alertKey (si_productId item)
       = if alertDelivered a
         then Some ("1", Some (now + ALERT_COOLDOWN * 1000)%Z)
         else r !! alertKey (si_productId item).
Proof.
  intros H1 H2 Hcool st. subst st.
  rewrite fold_left_app. cbn [fold_left].
  set (st1 := fold_left (alertStep ch d now) l1 (mkCheckState r 0 [])).
  destruct (fold_alertStep_others ch d now (si_productId item) l1
              (mkCheckState r 0 []) H1) as [E1 A1].
  fold st1 in E1, A1. cbn [cs_redis cs_alerts] in E1, A1.
  destruct (fold_alertStep_others ch d now (si_productId item) l2
              (alertStep ch d now st1 item) H2) as [E2 A2].
  rewrite E2, A2. rewrite alertStep_cases. cbv zeta.
  rewrite (hasRecentAlert_entry _ now _ r E1), Hcool.
  match goal with
  | |- context [alertDelivered ?a0] => exists a0; set (a := a0)
  end.
  assert (Hfor : alertsFor (si_productId item) (cs_alerts st1 ++ [a]) = [a]).
  { rewrite alertsFor_app, A1. unfold alertsFor. cbn [List.filter app a alert_productId].
    now rewrite Nat.eqb_refl. }
  destruct (alertDelivered a); cbn [cs_redis cs_alerts];
    (split; [exact Hfor|]); (split; [reflexivity|]); (split; [reflexivity|]).
  - apply markAlertSent_same.
  - exact E1.
Qed.

(** C10, as the code has it. Once an alert for a product has set the
    cooldown at [t0], no check before [t0] plus 24 hours calls
    [sendStockAlert] for that product, however many there are. The first
    check at or after the expiry in which the product is active and at or
    below the threshold calls it exactly once; the cooldown is set anew,
    for 24 hours from that check, when a channel delivered the alert, and
    is left unset when none did. *)
Theorem cooldown_suppresses_alerts
    (threshold : Z) (p : Product) (r : Redis) (t0 : Z)
    (checks : list (Channels * Db * Z)) (ch : Channels) (d : Db) (now : Z) :
  let expiry := (t0 + ALERT_COOLDOWN * 1000)%Z in
  let during := monitor threshold checks (_markAlertSent (product_id p) t0 r) in
  let after := checkAndAlert threshold ch d now (fst during) in
  Forall (fun check => (snd check < expiry)%Z) checks ->
  (expiry <= now)%Z ->
  NoDup (map product_id (products d)) ->
  In p (products d) ->
  product_status p = ProductActive ->
  (Z.of_nat (availableStock d (product_id p)) <= threshold)%Z ->
  alertsFor (product_id p) (snd during) = []
  /\ exists a,
       alertsFor (product_id p) (snd after) = [a]
       /\ alert_stock a = availableStock d (product_id p)
       /\ (alertDelivered a = true ->
           forall t, (now <= t < now + ALERT_COOLDOWN * 1000)%Z ->
                     _hasRecentAlert (product_id p) t (snd (fst after)) = true)
       /\ (alertDelivered a = false ->
           forall t, (now <= t)%Z ->
                     _hasRecentAlert (product_id p) t (snd (fst after)) = false).
Proof.
  intros expiry during after Hwindow Hexpired Hnd Hin Hactive Hlow.
  destruct (monitor_suppressed threshold (product_id p) "1" expiry checks
              (_markAlertSent (product_id p) t0 r)
              (markAlertSent_same _ _ _) Hwindow) as [Hentry Hnone].
  fold during in Hentry, Hnone. split; [exact Hnone|].
  pose proof (lowStock_In threshold d p Hin Hactive Hlow) as Hitem.
  apply in_split in Hitem as (l1 & l2 & Hlist).
  pose proof (lowStock_ids_NoDup threshold d Hnd) as Hnd'.
  rewrite Hlist in Hnd'. apply NoDup_map_split in Hnd' as [H1 H2].
  assert (Hcool : _hasRecentAlert (product_id p) now (fst during) = false).
  { rewrite (hasRecentAlert_of_entry _ _ _ _ _ Hentry). apply Z.ltb_ge. lia. }
  destruct (fold_alertStep_fires ch d now (fst during) l1 _ l2 H1 H2 Hcool)
    as (a & Ha & _ & Hstock & Hredis).
  cbv zeta in Ha, Hredis. cbn [si_productId si_stockCount] in Ha, Hstock, Hredis.
  assert (Hafter : after
                   = (mkCheckReport (List.length (getLowStockProducts threshold d))
                        (cs_alertsSent
                           (fold_left (alertStep ch d now) (getLowStockProducts threshold d)
                              (mkCheckState (fst during) 0 []))),
                      cs_redis
                        (fold_left (alertStep ch d now) (getLowStockProducts threshold d)
                           (mkCheckState (fst during) 0 [])),
                      cs_alerts
                        (fold_left (alertStep ch d now) (getLowStockProducts threshold d)
                           (mkCheckState (fst during) 0 [])))).
  { unfold after, checkAndAlert. rewrite Hlist at 1.
    rewrite length_app. cbn [List.length].
    replace (Nat.eqb (List.length l1 + S (List.length l2)) 0) with false; [reflexivity|].
    symmetry. apply Nat.eqb_neq. lia. }
  rewrite Hafter. cbn [fst snd]. rewrite Hlist.
  exists a. split; [exact Ha|]. split; [exact Hstock|]. split.
  - intros Hdel t Ht. rewrite Hdel in Hredis.
    rewrite (hasRecentAlert_of_entry _ _ _ _ _ Hredis). apply Z.ltb_lt. lia.
  - intros Hdel t Ht. rewrite Hdel, Hentry in Hredis.
    rewrite (hasRecentAlert_of_entry _ _ _ _ _ Hredis). apply Z.ltb_ge. lia.
Qed.

(** The statement at the shop with three keys and a threshold of ten: two
    checks inside the window, one at the expiry. *)
Lemma cooldown_suppresses_alerts_witness :
  let expiry := (0 + ALERT_COOLDOWN * 1000)%Z in
  let during :=
    monitor 10
      [(Fixtures.channels_up, Fixtures.db0, 1000%Z);
       (Fixtures.channels_up, Fixtures.db0, 86399999%Z)]
      (_markAlertSent (product_id Fixtures.w11) 0 ∅) in
  let after := checkAndAlert 10 Fixtures.channels_up Fixtures.db0 86400000 (fst during) in
  alertsFor (product_id Fixtures.w11) (snd during) = []
  /\ exists a,
       alertsFor (product_id Fixtures.w11) (snd after) = [a]
       /\ alert_stock a = availableStock Fixtures.db0 (product_id Fixtures.w11)
       /\ (alertDelivered a = true ->
           forall t, (86400000 <= t < 86400000 + ALERT_COOLDOWN * 1000)%Z ->
                     _hasRecentAlert (product_id Fixtures.w11) t (snd (fst after)) = true)
       /\ (alertDelivered a = false ->
           forall t, (86400000 <= t)%Z ->
                     _hasRecentAlert (product_id Fixtures.w11) t (snd (fst after)) = false).
Proof.
  apply (cooldown_suppresses_alerts 10 Fixtures.w11 ∅ 0
           [(Fixtures.channels_up, Fixtures.db0, 1000%Z);
            (Fixtures.channels_up, Fixtures.db0, 86399999%Z)]
           Fixtures.channels_up Fixtures.db0 86400000).
  - repeat constructor.
  - vm_compute. discriminate.
  - repeat constructor. apply not_elem_of_nil.
  - now left.
  - reflexivity.
  - vm_compute. discriminate.
Defined.

(** A qualifying check after the expiry whose channels all fail counts no
    alert and sets no cooldown; the check after it tries again. *)
Lemma failed_alert_sets_no_cooldown :
  let r0 := _markAlertSent 1 0 ∅ in
  let first := checkAndAlert 10 Fixtures.channels_down Fixtures.db0 86400000 r0 in
  let second := checkAndAlert 10 Fixtures.channels_up Fixtures.db0 86400001 (snd (fst first)) in
  _hasRecentAlert 1 86400000 r0 = false
  /\ map si_productId (getLowStockProducts 10 Fixtures.db0) = [1]
  /\ alertsSent (fst (fst first)) = 0
  /\ map alertDelivered (snd first) = [false]
  /\ _hasRecentAlert 1 86400000 (snd (fst first)) = false
  /\ alertsSent (fst (fst second)) = 1.
Proof. vm_compute. repeat split. Qed.

End InventoryFacts.

(** * Cancellation, late payments and the stock a payment takes *)

Module SettlementFacts.
Import Store OrderService Accounting Operations.
Import InventoryService.

(** ** Cancellation *)

Lemma cancelOrder_spec orderNo w :
  cancelOrder orderNo w
  = match order_findUnique orderNo (db w) with
    | None =>
        (Err (NotFoundError "Order not found"), mkWorld (db w) (log w ++ [EvRollback]))
    | Some order =>
        if negb (bool_decide (order_status order = PENDING)) then
          (Err (BadRequestError (CannotCancel (order_status order))),
           mkWorld (db w) (log w ++ [EvRollback]))
        else
          match order_update (order_id order) (setStatus CANCELLED) w with
          | (Ok u, w') => (Ok u, mkWorld (db w') (log w' ++ [EvCommit]))
          | (Err e, w') => (Err e, mkWorld (db w) (log w' ++ [EvRollback]))
          end
    end.
Proof.
  unfold cancelOrder, transaction, bind, read, throw.
  destruct (order_findUnique _ _) as [order|]; [|reflexivity].
  destruct (negb _); reflexivity.
Qed.


(** X2. Paying after the cancellation delivers nothing: once [cancelOrder]
    has returned, every payment notification for that order number, of
    whatever amount and status, is answered 'Order already processed' and
    leaves the database as the cancellation left it. *)
Theorem payment_after_cancel_is_ignored
    (c : Collaborators) (now : Z) (p : Payload) (w w1 : World) (u : Order) :
  cancelOrder (p_orderNo p) w = (Ok u, w1) ->
  handlePaymentCallback c now p w1
  = (Ok alreadyProcessed, mkWorld (db w1) (log w1 ++ [EvCommit])).
Proof.
  rewrite cancelOrder_spec.
  destruct (order_findUnique (p_orderNo p) (db w)) as [order|] eqn:Hfound; [|discriminate].
  destruct (bool_decide (order_status order = PENDING)) eqn:Hst; [|discriminate].
  cbn [negb].
  destruct (OrderFacts.order_update_found (p_orderNo p) order (setStatus CANCELLED) w w
              (OrderFacts.setStatus_orderNo CANCELLED) Hfound eq_refl)
    as (u' & w' & Hu & Hf & _ & _).
  rewrite Hu. intros [= <- <-]. cbn [db log].
  rewrite OrderFacts.handlePaymentCallback_spec. cbn [db log]. now rewrite Hf.
Qed.

Lemma payment_after_cancel_is_ignored_witness :
  handlePaymentCallback Fixtures.services_up 5000 Fixtures.paid
    (snd (cancelOrder "ORD20251016000001" Fixtures.world0))
  = (Ok alreadyProcessed,
     mkWorld (db (snd (cancelOrder "ORD20251016000001" Fixtures.world0)))
       [EvCommit; EvCommit]).
Proof.
  exact (payment_after_cancel_is_ignored Fixtures.services_up 5000 Fixtures.paid
           Fixtures.world0 (snd (cancelOrder "ORD20251016000001" Fixtures.world0))
           (setStatus CANCELLED Fixtures.order1) eq_refl).
Defined.

(** ** The stock a payment takes *)

Lemma filter_length_split {A} (p q : A -> bool) (l : list A) :
  List.length (List.filter p l)
  = List.length (List.filter (fun x => p x && q x) l)
    + List.length (List.filter (fun x => p x && negb (q x)) l).
Proof.
  induction l as [|x l IH]; [reflexivity|]. cbn [List.filter].
  destruct (p x), (q x); cbn [andb negb List.length]; lia.
Qed.

Lemma filter_none_in {A} (p : A -> bool) (l : list A) :
  (forall x, In x l -> p x = false) -> List.filter p l = [].
Proof.
  induction l as [|x l IH]; [reflexivity|]. intros H. cbn [List.filter].
  rewrite (H x) by now left. apply IH. intros y Hy. apply H. now right.
Qed.

Lemma filter_of_map {A B} (p : B -> bool) (f : A -> B) (l : list A) :
  List.filter p (map f l) = map f (List.filter (fun x => p (f x)) l).
Proof.
  induction l as [|x l IH]; [reflexivity|]. cbn [map List.filter].
  destruct (p (f x)); cbn [map]; now rewrite IH.
Qed.

Lemma NoDup_List_filter {A} (p : A -> bool) (l : list A) :
  NoDup l -> NoDup (List.filter p l).
Proof. rewrite !NoDup_ListNoDup. apply List.NoDup_filter. Qed.

Lemma NoDup_findAvailable productId quantity d :
  NoDup (map key_id (licenseKeys d)) ->
  NoDup (licenseKey_findAvailable productId quantity d).
Proof.
  intros Hnd. unfold licenseKey_findAvailable.
  eapply sublist_NoDup; [|apply sublist_take].
  rewrite (OrderFacts.orderBy_createdAt_asc_perm _).
  apply NoDup_List_filter. now apply NoDup_fmap_1 in Hnd.
Qed.

(** Over unique ids, the rows an id list selects are the rows it was read
    from. *)
Lemma selected_rows (l ks : list LicenseKey) k :
  NoDup (map key_id l) -> (forall x, In x ks -> In x l) -> In k l ->
  bool_decide (key_id k ∈ map key_id ks) = true <-> In k ks.
Proof.
  intros Hnd Hsub Hk. rewrite bool_decide_eq_true. split.
  - intros Hin. apply list_elem_of_In, in_map_iff in Hin as (k' & Hid & Hk').
    now rewrite <- (AllocationFacts.unique_id_same_row l k' k Hnd (Hsub _ Hk') Hk Hid).
  - intros Hin. apply list_elem_of_In, in_map, Hin.
Qed.

Lemma selected_rows_count (l ks : list LicenseKey) :
  NoDup (map key_id l) -> NoDup ks -> (forall x, In x ks -> In x l) ->
  List.length (List.filter (fun k => bool_decide (key_id k ∈ map key_id ks)) l)
  = List.length ks.
Proof.
  intros Hnd Hks Hsub. apply Permutation_length, NoDup_Permutation; [|exact Hks|].
  - apply NoDup_List_filter. now apply NoDup_fmap_1 in Hnd.
  - intros k. rewrite !list_elem_of_In, filter_In. split.
    + intros [Hk Hhit]. now apply (selected_rows l ks k Hnd Hsub Hk).
    + intros Hk. split; [auto|]. apply (selected_rows l ks k Hnd Hsub); auto.
Qed.

(** The allocation of one order item takes its quantity from the available
    stock of its product, and nothing from another product. *)
Lemma allocateItem_stock order now item w w' :
  NoDup (map key_id (licenseKeys (db w))) ->
  allocateItem order now item w = (Ok tt, w') ->
  forall productId,
    availableStock (db w') productId
    + (if Nat.eqb (item_productId item) productId then item_quantity item else 0)
    = availableStock (db w) productId.
Proof.
  intros Hnd. rewrite OrderFacts.allocateItem_unfold. cbv zeta.
  set (ks := licenseKey_findAvailable (item_productId item) (item_quantity item) (db w)).
  destruct (Nat.ltb_spec (List.length ks) (item_quantity item)) as [|Hlen]; [discriminate|].
  intros [= <-] productId. cbn [db].
  assert (Hks : forall x, In x ks ->
            In x (licenseKeys (db w)) /\ key_productId x = item_productId item
            /\ key_status x = KeyAvailable)
    by (intros x; apply AllocationFacts.findAvailable_In).
  assert (Hq : List.length ks = item_quantity item).
  { pose proof (OrderFacts.length_findAvailable (item_productId item)
                  (item_quantity item) (db w)) as H. fold ks in H. lia. }
  unfold availableStock, licenseKey_updateMany. cbn [licenseKeys with_licenseKeys].
  rewrite filter_of_map, length_map.
  set (hit := fun k => bool_decide (key_id k ∈ map key_id ks)).
  set (av := fun k => Nat.eqb (key_productId k) productId
                      && bool_decide (key_status k = KeyAvailable)).
  rewrite (filter_length_split av hit (licenseKeys (db w))).
  match goal with
  | |- List.length (List.filter ?f _) + _ = _ =>
      rewrite (List.filter_ext_in f (fun x => av x && negb (hit x)))
  end.
  2:{ intros x Hx. unfold hit. destruct (bool_decide (key_id x ∈ _)); cbn [negb].
      - unfold av. cbn [markSold key_status key_productId].
        rewrite (bool_decide_eq_false_2 (KeySold = KeyAvailable)) by discriminate.
        now rewrite !andb_false_r.
      - now rewrite andb_true_r. }
  destruct (Nat.eqb_spec (item_productId item) productId) as [Hp|Hp].
  - rewrite (List.filter_ext_in (fun x => av x && hit x) hit).
    + assert (Hc : List.length (List.filter hit (licenseKeys (db w))) = List.length ks).
      { apply selected_rows_count; [exact Hnd|now apply NoDup_findAvailable|].
        intros x Hx. now apply Hks. }
      rewrite Hc. lia.
    + intros x Hx. destruct (hit x) eqn:Hh; [|now rewrite andb_false_r].
      apply (selected_rows _ ks x Hnd) in Hh; [|intros y Hy; now apply Hks|exact Hx].
      apply Hks in Hh as (_ & Hpx & Hsx). unfold av.
      rewrite Hpx, Hp, Nat.eqb_refl, (bool_decide_eq_true_2 _ Hsx). reflexivity.
  - rewrite (List.filter_ext_in (fun x => av x && hit x) (fun _ => false)).
    + assert (E : forall l : list LicenseKey, List.filter (fun _ => false) l = [])
        by (induction l; auto).
      rewrite E. cbn [List.length]. lia.
    + intros x Hx. destruct (hit x) eqn:Hh; [|now rewrite andb_false_r].
      apply (selected_rows _ ks x Hnd) in Hh; [|intros y Hy; now apply Hks|exact Hx].
      apply Hks in Hh as (_ & Hpx & _). unfold av.
      destruct (Nat.eqb_spec (key_productId x) productId); [congruence|reflexivity].
Qed.

Lemma quantityOf_cons productId item items :
  quantityOf productId (item :: items)
  = (if Nat.eqb (item_productId item) productId then item_quantity item else 0)
    + quantityOf productId items.
Proof.
  unfold quantityOf. cbn [List.filter].
  destruct (Nat.eqb _ _); reflexivity.
Qed.

Lemma forEach_allocate_stock order now items : forall w w',
  NoDup (map key_id (licenseKeys (db w))) ->
  forEach items (allocateItem order now) w = (Ok tt, w') ->
  forall productId,
    availableStock (db w') productId + quantityOf productId items
    = availableStock (db w) productId.
Proof.
  induction items as [|item items IH]; intros w w' Hnd.
  - intros [= <-] productId. unfold quantityOf. cbn. lia.
  - rewrite OrderFacts.forEach_cons.
    destruct (allocateItem order now item w) as [[[]|e] w1] eqn:E1; [|discriminate].
    intros H productId.
    destruct (AllocationFacts.allocateItem_keeps_unavailable _ _ _ _ _ _ Hnd E1) as [Hnd1 _].
    pose proof (allocateItem_stock _ _ _ _ _ Hnd E1 productId).
    pose proof (IH _ _ Hnd1 H productId).
    rewrite quantityOf_cons. lia.
Qed.

(** What a callback that completes its order did to the database. *)
Lemma completed_callback_inv c now p w r w1 order :
  order_findUnique (p_orderNo p) (db w) = Some order ->
  order_status order = PENDING ->
  p_status p = "success" ->
  handlePaymentCallback c now p w = (Ok r, w1) ->
  exists wa u wb,
    forEach (orderItems_of order (db w)) (allocateItem order now) w = (Ok tt, wa)
    /\ order_update (order_id order) (setPaid COMPLETED (p_transactionId p) now) wa
       = (Ok u, wb)
    /\ db w1 = db wb.
Proof.
  intros Hfound Hst Hsucc. rewrite OrderFacts.handlePaymentCallback_spec, Hfound.
  rewrite (bool_decide_eq_true_2 _ Hst). cbn [negb].
  destruct (OrderService.amountMismatch _ _); [discriminate|].
  rewrite (bool_decide_eq_true_2 _ Hsucc), OrderFacts.completeOrder_spec.
  destruct (forEach _ _ w) as [[[]|e] wa] eqn:Ha; [|discriminate].
  destruct (order_update _ _ wa) as [[u|e] wb] eqn:Hu; [|discriminate].
  intros [= <- <-]. exists wa, u, wb. auto.
Qed.

(** X3. A payment that completes an order takes exactly the ordered
    quantity of each product from its available stock: over a key table
    with unique ids, the available stock of every product after the
    callback plus the quantity the order asks of it is the stock before. *)
Theorem payment_takes_ordered_quantity_from_stock
    (c : Collaborators) (now : Z) (p : Payload) (w w1 : World)
    (r : CallbackResult) (order : Order) :
  NoDup (map key_id (licenseKeys (db w))) ->
  order_findUnique (p_orderNo p) (db w) = Some order ->
  order_status order = PENDING ->
  p_status p = "success" ->
  handlePaymentCallback c now p w = (Ok r, w1) ->
  forall productId,
    availableStock (db w1) productId
    + quantityOf productId (orderItems_of order (db w))
    = availableStock (db w) productId.
Proof.
  intros Hnd Hfound Hst Hsucc Hcb productId.
  destruct (completed_callback_inv _ _ _ _ _ _ _ Hfound Hst Hsucc Hcb)
    as (wa & u & wb & Ha & Hu & ->).
  apply AllocationFacts.order_update_keys in Hu.
  unfold availableStock at 1. rewrite Hu. fold (availableStock (db wa) productId).
  now apply (forEach_allocate_stock order now _ w wa).
Qed.

Lemma payment_takes_ordered_quantity_from_stock_witness :
  availableStock
    (db (snd (handlePaymentCallback Fixtures.services_up 5000 Fixtures.paid
                Fixtures.world0))) 1
  + quantityOf 1 (orderItems_of Fixtures.order1 (db Fixtures.world0))
  = availableStock (db Fixtures.world0) 1.
Proof.
  eapply (payment_takes_ordered_quantity_from_stock Fixtures.services_up 5000
            Fixtures.paid Fixtures.world0 _ _ Fixtures.order1).
  - refine (bool_decide_unpack _ _). vm_compute. exact I.
  - reflexivity.
  - reflexivity.
  - reflexivity.
  - vm_compute. reflexivity.
Defined.

(** ** Payment, then refund *)

Lemma allocateItem_rows order now item w w' :
  NoDup (map key_id (licenseKeys (db w))) ->
  allocateItem order now item w = (Ok tt, w') ->
  forall i, soldOrKept (order_id order) now (licenseKeys (db w) !! i)
              (licenseKeys (db w') !! i).
Proof.
  intros Hnd. rewrite OrderFacts.allocateItem_unfold. cbv zeta.
  set (ks := licenseKey_findAvailable (item_productId item) (item_quantity item) (db w)).
  destruct (Nat.ltb _ _); [discriminate|]. intros [= <-] i. cbn [db].
  rewrite AllocationFacts.updateMany_lookup. unfold soldOrKept.
  destruct (licenseKeys (db w) !! i) as [k|] eqn:Hi; cbn [fmap option_fmap option_map];
    [|reflexivity].
  destruct (bool_decide (key_id k ∈ map key_id ks)) eqn:Hhit; [right|now left].
  split; [|reflexivity].
  apply (selected_rows (licenseKeys (db w)) ks k Hnd) in Hhit.
  - now apply AllocationFacts.findAvailable_In in Hhit.
  - intros x Hx. now apply AllocationFacts.findAvailable_In in Hx.
  - apply list_elem_of_In. eapply list_elem_of_lookup_2, Hi.
Qed.

Lemma forEach_allocate_rows order now items : forall w w',
  NoDup (map key_id (licenseKeys (db w))) ->
  forEach items (allocateItem order now) w = (Ok tt, w') ->
  forall i, soldOrKept (order_id order) now (licenseKeys (db w) !! i)
              (licenseKeys (db w') !! i).
Proof.
  induction items as [|item items IH]; intros w w' Hnd.
  - intros [= <-] i. unfold soldOrKept. destruct (_ !! i); auto.
  - rewrite OrderFacts.forEach_cons.
    destruct (allocateItem order now item w) as [[[]|e] w1] eqn:E1; [|discriminate].
    intros H i.
    destruct (AllocationFacts.allocateItem_keeps_unavailable _ _ _ _ _ _ Hnd E1) as [Hnd1 _].
    pose proof (allocateItem_rows _ _ _ _ _ Hnd E1 i) as H1.
    pose proof (IH _ _ Hnd1 H i) as H2.
    destruct (AllocationFacts.forEach_allocate_keeps_unavailable _ _ _ _ _ _ Hnd1 H)
      as [_ Hkeep].
    unfold soldOrKept in *.
    destruct (licenseKeys (db w) !! i) as [k|]; [|now rewrite H1 in H2].
    destruct H1 as [H1|[Hav H1]].
    + rewrite H1 in H2. exact H2.
    + right. split; [exact Hav|]. now apply Hkeep.
Qed.




(** ** First in, first out, through a whole payment *)

(** What the allocation of one item sells is at least as old as what it
    leaves in stock of the product. *)
Lemma allocateItem_oldest order now item w w' i sold j left :
  NoDup (map key_id (licenseKeys (db w))) ->
  allocateItem order now item w = (Ok tt, w') ->
  licenseKeys (db w) !! i = Some sold -> key_status sold = KeyAvailable ->
  licenseKeys (db w') !! i = Some (markSold (order_id order) now sold) ->
  licenseKeys (db w) !! j = Some left -> key_status left = KeyAvailable ->
  licenseKeys (db w') !! j = Some left ->
  key_productId left = key_productId sold ->
  olderOrSame sold left.
Proof.
  intros Hnd. rewrite OrderFacts.allocateItem_unfold. cbv zeta.
  set (ks := licenseKey_findAvailable (item_productId item) (item_quantity item) (db w)).
  destruct (Nat.ltb _ _); [discriminate|]. intros [= <-]. cbn [db].
  intros Hi Hsold Hi' Hj Hleft Hj' Hprod.
  rewrite AllocationFacts.updateMany_lookup in Hi', Hj'. rewrite Hi in Hi'. rewrite Hj in Hj'.
  cbn [fmap option_fmap option_map] in Hi', Hj'.
  assert (Hsub : forall x, In x ks -> In x (licenseKeys (db w)))
    by (intros x Hx; now apply AllocationFacts.findAvailable_In in Hx).
  assert (Hin_sold : In sold (licenseKeys (db w)))
    by (apply list_elem_of_In; eapply list_elem_of_lookup_2, Hi).
  assert (Hin_left : In left (licenseKeys (db w)))
    by (apply list_elem_of_In; eapply list_elem_of_lookup_2, Hj).
  assert (Hsel : In sold ks).
  { apply (selected_rows _ ks sold Hnd Hsub Hin_sold).
    destruct (bool_decide (key_id sold ∈ map key_id ks)); [reflexivity|].
    injection Hi' as Hi'. rewrite Hi' in Hsold. discriminate. }
  assert (Hnot : ~ In left ks).
  { intros Hl. apply (selected_rows _ ks left Hnd Hsub Hin_left) in Hl.
    rewrite Hl in Hj'. injection Hj' as Hj'. rewrite <- Hj' in Hleft. discriminate. }
  pose proof (AllocationFacts.findAvailable_In _ _ _ _ Hsel) as (_ & Hp & _).
  unfold ks, licenseKey_findAvailable in Hsel, Hnot.
  fold (availableOf (item_productId item) (db w)) in Hsel, Hnot.
  pose proof (AllocationFacts.orderBy_createdAt_asc_sorted
                (availableOf (item_productId item) (db w))) as Hs.
  rewrite <- (take_drop (item_quantity item)
                (orderBy_createdAt_asc (availableOf (item_productId item) (db w)))) in Hs.
  apply AllocationFacts.sorted_prefix_before_rest in Hs as [_ Hab].
  apply Hab; [exact Hsel|].
  assert (Hall : In left (orderBy_createdAt_asc (availableOf (item_productId item) (db w)))).
  { apply (Permutation_in _ (Permutation_sym (OrderFacts.orderBy_createdAt_asc_perm _))).
    apply AllocationFacts.availableOf_In. repeat split; [exact Hin_left|congruence|exact Hleft]. }
  rewrite <- (take_drop (item_quantity item)) in Hall.
  apply in_app_or in Hall as [Hall|Hall]; [contradiction|exact Hall].
Qed.

Lemma forEach_allocate_oldest order now items : forall w w' i sold j left,
  NoDup (map key_id (licenseKeys (db w))) ->
  forEach items (allocateItem order now) w = (Ok tt, w') ->
  licenseKeys (db w) !! i = Some sold -> key_status sold = KeyAvailable ->
  licenseKeys (db w') !! i = Some (markSold (order_id order) now sold) ->
  licenseKeys (db w') !! j = Some left -> key_status left = KeyAvailable ->
  key_productId left = key_productId sold ->
  olderOrSame sold left.
Proof.
  induction items as [|item items IH]; intros w w' i sold j left Hnd.
  - intros [= <-] Hi Hsold Hi'. rewrite Hi in Hi'. injection Hi' as Hi'.
    rewrite Hi' in Hsold. discriminate.
  - rewrite OrderFacts.forEach_cons.
    destruct (allocateItem order now item w) as [[[]|e] w1] eqn:E1; [|discriminate].
    intros H Hi Hsold Hi' Hj' Hleft Hprod.
    destruct (AllocationFacts.allocateItem_keeps_unavailable _ _ _ _ _ _ Hnd E1) as [Hnd1 _].
    destruct (AllocationFacts.forEach_allocate_keeps_unavailable _ _ _ _ _ _ Hnd1 H)
      as [_ Hkeep].
    pose proof (forEach_allocate_rows _ _ _ _ _ Hnd1 H j) as Hrow1.
    pose proof (allocateItem_rows _ _ _ _ _ Hnd E1 j) as Hrow0.
    pose proof (allocateItem_rows _ _ _ _ _ Hnd E1 i) as Hrowi.
    unfold soldOrKept in Hrow1, Hrow0, Hrowi. rewrite Hj' in Hrow1. rewrite Hi in Hrowi.
    assert (Hj1 : licenseKeys (db w1) !! j = Some left).
    { destruct (licenseKeys (db w1) !! j) as [k1|]; [|discriminate].
      destruct Hrow1 as [[= ->]|[_ [= ->]]]; [reflexivity|discriminate]. }
    rewrite Hj1 in Hrow0.
    assert (Hj0 : licenseKeys (db w) !! j = Some left).
    { destruct (licenseKeys (db w) !! j) as [k0|]; [|discriminate].
      destruct Hrow0 as [[= ->]|[_ [= ->]]]; [reflexivity|discriminate]. }
    destruct Hrowi as [Hsame|[_ Hnow]].
    + apply (IH w1 w' i sold j left Hnd1 H Hsame Hsold Hi' Hj' Hleft Hprod).
    + apply (allocateItem_oldest order now item w w1 i sold j left Hnd E1 Hi Hsold Hnow
               Hj0 Hleft Hj1 Hprod).
Qed.

(** X26. First in, first out, through a whole payment. Over a key table
    with unique ids, every key that a payment sells to its order was
    created no later than every key of the same product that the payment
    leaves in stock, however many items the order has; so a payment that
    comes later never receives an older key than one that came before,
    unless keys were imported in between. *)
Theorem payment_sells_the_oldest_keys
    (c : Collaborators) (now : Z) (p : Payload) (w w1 : World)
    (r : CallbackResult) (order : Order) :
  NoDup (map key_id (licenseKeys (db w))) ->
  order_findUnique (p_orderNo p) (db w) = Some order ->
  order_status order = PENDING ->
  p_status p = "success" ->
  handlePaymentCallback c now p w = (Ok r, w1) ->
  forall i sold j left,
    licenseKeys (db w) !! i = Some sold ->
    key_status sold = KeyAvailable ->
    licenseKeys (db w1) !! i = Some (markSold (order_id order) now sold) ->
    licenseKeys (db w1) !! j = Some left ->
    key_status left = KeyAvailable ->
    key_productId left = key_productId sold ->
    (key_createdAt sold <= key_createdAt left)%Z.
Proof.
  intros Hnd Hfound Hst Hsucc Hcb i sold j left Hi Hsold Hi' Hj' Hleft Hprod.
  destruct (completed_callback_inv _ _ _ _ _ _ _ Hfound Hst Hsucc Hcb)
    as (wa & u & wb & Ha & Hu & Hdb).
  apply AllocationFacts.order_update_keys in Hu.
  rewrite Hdb, Hu in Hi', Hj'.
  exact (forEach_allocate_oldest order now _ w wa i sold j left Hnd Ha Hi Hsold Hi' Hj'
           Hleft Hprod).
Qed.

Lemma payment_sells_the_oldest_keys_witness :
  (key_createdAt (Fixtures.stored_key 1 100 "AAAAA-AAAAA")
   <= key_createdAt (Fixtures.stored_key 3 200 "CCCCC-CCCCC"))%Z.
Proof.
  apply (fun Hnd Hfound Hst Hsucc Hcb =>
           payment_sells_the_oldest_keys Fixtures.services_up 5000 Fixtures.paid
             Fixtures.world0
             (snd (handlePaymentCallback Fixtures.services_up 5000 Fixtures.paid
                     Fixtures.world0))
             (mkCallbackResult true "Order completed" (Some "ORD20251016000001"))
             Fixtures.order1 Hnd Hfound Hst Hsucc Hcb
             0 (Fixtures.stored_key 1 100 "AAAAA-AAAAA")
             2 (Fixtures.stored_key 3 200 "CCCCC-CCCCC")).
  - refine (bool_decide_unpack _ _). vm_compute. exact I.
  - reflexivity.
  - reflexivity.
  - reflexivity.
  - vm_compute. reflexivity.
  - reflexivity.
  - reflexivity.
  - vm_compute. reflexivity.
  - vm_compute. reflexivity.
  - reflexivity.
  - reflexivity.
Defined.

(** X6. A refund is not repeatable: once [refundOrder] has returned for
    an order, a second call for it, whatever its amount, is rejected before
    the payment gateway is asked, and changes nothing. *)
Theorem refund_is_not_repeatable
    (c c' : Collaborators) (orderNo : string) (refundAmount refundAmount' : option Z)
    (refundReason refundReason' : string) (w w1 : World) (res : RefundResult) :
  refundOrder c orderNo refundAmount refundReason w = (Ok res, w1) ->
  refundOrder c' orderNo refundAmount' refundReason' w1
  = (Err (BadRequestError (CannotRefund REFUNDED)),
     mkWorld (db w1) (log w1 ++ [EvRollback])).
Proof.
  rewrite RefundFacts.refundOrder_spec.
  destruct (order_findUnique orderNo (db w)) as [order|] eqn:Hfound; [|discriminate].
  cbv zeta. destruct (negb _); [discriminate|].
  destruct (Z.gtb _ _); [discriminate|].
  destruct (gatewayRefund c _); [|discriminate|discriminate].
  match goal with
  | |- context [order_update ?i ?f ?w0] => set (w2 := w0)
  end.
  assert (Hf2 : order_findUnique orderNo (db w2) = Some order).
  { unfold w2. cbn [db]. destruct (Nat.ltb _ _); exact Hfound. }
  destruct (OrderFacts.order_update_found orderNo order (setStatus REFUNDED)
              w2 w2 (OrderFacts.setStatus_orderNo REFUNDED) Hf2 eq_refl)
    as (u & w' & Hu & Hf & _ & _).
  rewrite Hu. intros [= <- <-].
  rewrite RefundFacts.refundOrder_spec. cbn [db log]. rewrite Hf. reflexivity.
Qed.

Lemma refund_is_not_repeatable_witness :
  refundOrder Fixtures.services_up "ORD20251016000001" (Some 100%Z) "again"
    (snd (refundOrder Fixtures.services_up "ORD20251016000001" None "first"
            Fixtures.world_completed))
  = (Err (BadRequestError (CannotRefund REFUNDED)),
     mkWorld
       (db (snd (refundOrder Fixtures.services_up "ORD20251016000001" None "first"
                   Fixtures.world_completed)))
       (log (snd (refundOrder Fixtures.services_up "ORD20251016000001" None "first"
                    Fixtures.world_completed)) ++ [EvRollback])).
Proof.
  eapply (refund_is_not_repeatable Fixtures.services_up Fixtures.services_up
            "ORD20251016000001" None (Some 100%Z) "first" "again"
            Fixtures.world_completed).
  vm_compute. reflexivity.
Defined.

End SettlementFacts.

(** * The payment callback, delivered twice *)

Module IdempotenceFacts.
Import Store OrderService Accounting.
Import InventoryService.







End IdempotenceFacts.

(** * Importing, revoking and deleting keys *)

Module KeyAdminFacts.
Import Store AdminLicenseKeys AdminDeletion Operations.
Import InventoryService.

Lemma Forall_List_filter {A} (P : A -> Prop) (p : A -> bool) (l : list A) :
  Forall P l -> Forall P (List.filter p l).
Proof.
  rewrite !List.Forall_forall. intros H x Hx. apply filter_In in Hx as [Hx _]. auto.
Qed.

(** [[...new Set(xs)]] has no duplicates. *)
Lemma uniq_from_spec xs : forall seen,
  NoDup (uniq_from seen xs)
  /\ forall x, x ∈ uniq_from seen xs -> (x ∉ seen) /\ (x ∈ xs).
Proof.
  induction xs as [|x xs IH]; intros seen; cbn [uniq_from].
  - split; [constructor|]. intros x Hx. now apply elem_of_nil in Hx.
  - destruct (bool_decide (x ∈ seen)) eqn:Hseen.
    + destruct (IH seen) as [Hnd Hin]. split; [exact Hnd|].
      intros y Hy. destruct (Hin y Hy). split; [auto|]. now apply list_elem_of_further.
    + apply bool_decide_eq_false in Hseen.
      destruct (IH (x :: seen)) as [Hnd Hin]. split.
      * apply NoDup_cons. split; [|exact Hnd].
        intros Hx. apply Hin in Hx as [Hx _]. apply Hx. apply list_elem_of_here.
      * intros y Hy. apply elem_of_cons in Hy as [->|Hy].
        -- split; [exact Hseen|apply list_elem_of_here].
        -- destruct (Hin y Hy) as [Hn Hy']. split.
           ++ intros Hs. apply Hn. now apply list_elem_of_further.
           ++ now apply list_elem_of_further.
Qed.

Lemma newRows_spec productId now values : forall next,
  map key_id (newRows next productId now values) = seq next (List.length values)
  /\ map (fun k => (key_productId k, keyValueEncrypted k)) (newRows next productId now values)
     = map (pair productId) values
  /\ Forall (fun k => keyLinkOk k = true) (newRows next productId now values).
Proof.
  induction values as [|v values IH]; intros next; cbn [newRows map seq List.length].
  - repeat split. constructor.
  - destruct (IH (S next)) as (H1 & H2 & H3). rewrite H1, H2.
    repeat split. constructor; [reflexivity|exact H3].
Qed.

Lemma newRows_length productId now values next :
  List.length (newRows next productId now values) = List.length values.
Proof.
  destruct (newRows_spec productId now values next) as (H & _ & _).
  apply (f_equal (@List.length nat)) in H. now rewrite length_map, length_seq in H.
Qed.

(** What a successful import did. *)
Lemma bulkImport_ok productId keys now d rep d' :
  bulkImport productId keys now d = (Reply200 rep, d') ->
  let uniqueKeys :=
    List.filter (fun k => Nat.ltb 0 (String.length k)) (uniq (map trim keys)) in
  let existingKeyValues :=
    map keyValueEncrypted
      (List.filter
         (fun k => Nat.eqb (key_productId k) productId
                   && bool_decide (keyValueEncrypted k ∈ uniqueKeys))
         (licenseKeys d)) in
  let newKeys :=
    List.filter (fun k => negb (bool_decide (k ∈ existingKeyValues))) uniqueKeys in
  let rows := newRows (S (key_seq d)) productId now newKeys in
  (exists product,
      List.find (fun p => Nat.eqb (product_id p) productId) (products d) = Some product)
  /\ List.length uniqueKeys <> 0
  /\ List.length newKeys <> 0
  /\ rep = mkImportReport (List.length rows) (List.length existingKeyValues)
             (List.length uniqueKeys)
  /\ d' = mkDb (orders d) (orderItems d) (licenseKeys d ++ rows) (products d)
            (key_seq d + List.length rows).
Proof.
  unfold bulkImport.
  destruct (List.find _ (products d)) as [product|]; [|discriminate].
  cbv zeta.
  destruct (Nat.eqb_spec (List.length
    (List.filter (fun k => Nat.ltb 0 (String.length k)) (uniq (map trim keys)))) 0);
    [discriminate|].
  match goal with
  | |- context [Nat.eqb (List.length ?l) 0] =>
      destruct (Nat.eqb_spec (List.length l) 0); [discriminate|]
  end.
  intros [= <- <-]. repeat split; eauto.
Qed.

(** X7. Importing the same batch again imports nothing: after a
    successful bulk import, a second import of the same keys for the same
    product is answered 400 ALL_KEYS_EXIST and adds no row. *)
Theorem bulk_import_twice_imports_nothing
    (productId : nat) (keys : list string) (now now' : Z) (d d' : Db)
    (rep : ImportReport) :
  bulkImport productId keys now d = (Reply200 rep, d') ->
  bulkImport productId keys now' d' = (Reply400 "ALL_KEYS_EXIST", d').
Proof.
  intros H. apply bulkImport_ok in H. cbv zeta in H.
  destruct H as ([product Hprod] & Hu & Hn & _ & ->).
  unfold bulkImport. cbn [products licenseKeys]. rewrite Hprod.
  set (uniqueKeys := List.filter (fun k => Nat.ltb 0 (String.length k))
                       (uniq (map trim keys))) in *.
  destruct (Nat.eqb_spec (List.length uniqueKeys) 0) as [|_]; [contradiction|].
  set (existingKeyValues := map keyValueEncrypted
         (List.filter
            (fun k => Nat.eqb (key_productId k) productId
                      && bool_decide (keyValueEncrypted k ∈ uniqueKeys))
            (licenseKeys d))) in *.
  set (newKeys := List.filter (fun k => negb (bool_decide (k ∈ existingKeyValues)))
                    uniqueKeys) in *.
  set (rows := newRows (S (key_seq d)) productId now newKeys).
  rewrite SettlementFacts.filter_none_in; [reflexivity|].
  intros v Hv. apply negb_false_iff, bool_decide_eq_true.
  rewrite List.filter_app, map_app. apply elem_of_app.
  destruct (bool_decide (v ∈ existingKeyValues)) eqn:Hex.
  - left. now apply bool_decide_eq_true in Hex.
  - right.
    assert (Hnew : In v newKeys).
    { unfold newKeys. apply filter_In. split; [exact Hv|]. now rewrite Hex. }
    destruct (newRows_spec productId now newKeys (S (key_seq d)))
      as (_ & Hpairs & _).
    assert (Hin : In (productId, v)
                    (map (fun k => (key_productId k, keyValueEncrypted k)) rows)).
    { unfold rows. rewrite Hpairs. now apply in_map. }
    apply in_map_iff in Hin as (k & [= Hp Hk] & Hin).
    apply list_elem_of_In, in_map_iff. exists k. split; [exact Hk|].
    apply filter_In. split; [exact Hin|].
    rewrite Hp, Nat.eqb_refl. cbn [andb]. apply bool_decide_eq_true.
    rewrite Hk. now apply list_elem_of_In.
Qed.

Lemma bulk_import_twice_imports_nothing_witness :
  bulkImport 1 ["DDDDD-DDDDD"; " EEEEE-EEEEE "] 400
    (snd (bulkImport 1 ["DDDDD-DDDDD"; " EEEEE-EEEEE "] 300 Fixtures.db0))
  = (Reply400 "ALL_KEYS_EXIST",
     snd (bulkImport 1 ["DDDDD-DDDDD"; " EEEEE-EEEEE "] 300 Fixtures.db0)).
Proof.
  eapply (bulk_import_twice_imports_nothing 1 ["DDDDD-DDDDD"; " EEEEE-EEEEE "] 300 400
            Fixtures.db0).
  vm_compute. reflexivity.
Defined.

Lemma filter_length_partition {A} (p : A -> bool) (l : list A) :
  List.length (List.filter p l) + List.length (List.filter (fun x => negb (p x)) l)
  = List.length l.
Proof.
  induction l as [|x l IH]; [reflexivity|]. cbn [List.filter].
  destruct (p x); cbn [negb List.length]; lia.
Qed.

Lemma newRows_stock productId now values other : forall next,
  List.length
    (List.filter
       (fun k => Nat.eqb (key_productId k) other
                 && bool_decide (key_status k = KeyAvailable))
       (newRows next productId now values))
  = if Nat.eqb productId other then List.length values else 0.
Proof.
  induction values as [|v values IH]; intros next; cbn [newRows List.filter].
  - now destruct (Nat.eqb _ _).
  - cbn [key_productId key_status].
    rewrite (bool_decide_eq_true_2 (KeyAvailable = KeyAvailable)) by reflexivity.
    rewrite andb_true_r. specialize (IH (S next)).
    destruct (Nat.eqb productId other); cbn [List.length]; now rewrite IH.
Qed.

(** X8. The report of a bulk import accounts for every key of the batch,
    and the stock follows it. Over a table in which no product holds a key
    value twice, the keys imported and the duplicates add up to the
    distinct non-blank keys of the batch; the available stock of the
    product grows by exactly the imported count and that of every other
    product is unchanged. *)
Theorem bulk_import_accounts_for_every_key
    (productId : nat) (keys : list string) (now : Z) (d d' : Db) (rep : ImportReport) :
  NoDup (map (fun k => (key_productId k, keyValueEncrypted k)) (licenseKeys d)) ->
  bulkImport productId keys now d = (Reply200 rep, d') ->
  imported rep + duplicates rep = total rep
  /\ 0 < imported rep
  /\ List.length (licenseKeys d') = List.length (licenseKeys d) + imported rep
  /\ availableStock d' productId = availableStock d productId + imported rep
  /\ (forall other, other <> productId ->
        availableStock d' other = availableStock d other).
Proof.
  intros Hnd H. apply bulkImport_ok in H. cbv zeta in H.
  destruct H as (_ & _ & Hn & -> & ->).
  set (uniqueKeys := List.filter (fun k => Nat.ltb 0 (String.length k))
                       (uniq (map trim keys))) in *.
  set (existingKeys := List.filter
         (fun k => Nat.eqb (key_productId k) productId
                   && bool_decide (keyValueEncrypted k ∈ uniqueKeys))
         (licenseKeys d)) in *.
  set (newKeys := List.filter
         (fun k => negb (bool_decide (k ∈ map keyValueEncrypted existingKeys)))
         uniqueKeys) in *.
  cbn [imported duplicates total licenseKeys].
  rewrite newRows_length.
  assert (Huniq : NoDup uniqueKeys).
  { unfold uniqueKeys. apply SettlementFacts.NoDup_List_filter.
    apply uniq_from_spec. }
  assert (Hex : NoDup (map keyValueEncrypted existingKeys)).
  { assert (Hpairs : NoDup (map (fun k => (key_productId k, keyValueEncrypted k))
                              existingKeys))
      by now apply InventoryFacts.NoDup_map_filter.
    assert (E : map (fun k => (key_productId k, keyValueEncrypted k)) existingKeys
                = map (pair productId) (map keyValueEncrypted existingKeys)).
    { rewrite map_map. apply map_ext_in. intros k Hk. unfold existingKeys in Hk.
      apply filter_In in Hk as [_ Hk]. apply andb_prop in Hk as [Hk _].
      apply Nat.eqb_eq in Hk. now rewrite Hk. }
    rewrite E in Hpairs. now apply NoDup_fmap_1 in Hpairs. }
  repeat split.
  - pose proof (filter_length_partition
                  (fun v => bool_decide (v ∈ map keyValueEncrypted existingKeys))
                  uniqueKeys) as Hsplit.
    cbv beta in Hsplit. fold newKeys in Hsplit.
    assert (Hdup : List.length
                     (List.filter
                        (fun v => bool_decide (v ∈ map keyValueEncrypted existingKeys))
                        uniqueKeys)
                   = List.length (map keyValueEncrypted existingKeys)).
    { apply Permutation_length, NoDup_Permutation;
        [now apply SettlementFacts.NoDup_List_filter|exact Hex|].
      intros v. rewrite !list_elem_of_In, filter_In, bool_decide_eq_true.
      rewrite <- !list_elem_of_In. split; [tauto|]. intros Hv. split; [|exact Hv].
      apply list_elem_of_In, in_map_iff in Hv as (k & <- & Hk).
      unfold existingKeys in Hk. apply filter_In in Hk as [_ Hk].
      apply andb_prop in Hk as [_ Hk]. now apply bool_decide_eq_true in Hk. }
    lia.
  - lia.
  - rewrite length_app, newRows_length. reflexivity.
  - unfold availableStock. cbn [licenseKeys].
    rewrite List.filter_app, length_app, newRows_stock, Nat.eqb_refl. reflexivity.
  - intros other Hother. unfold availableStock. cbn [licenseKeys].
    rewrite List.filter_app, length_app, newRows_stock.
    destruct (Nat.eqb_spec productId other); [congruence|lia].
Qed.

Lemma bulk_import_accounts_for_every_key_witness :
  availableStock
    (snd (bulkImport 1 ["DDDDD-DDDDD"; " EEEEE-EEEEE "; "DDDDD-DDDDD"; "  "] 300
            Fixtures.db0)) 1
  = availableStock Fixtures.db0 1 + 2.
Proof.
  eapply (bulk_import_accounts_for_every_key 1
            ["DDDDD-DDDDD"; " EEEEE-EEEEE "; "DDDDD-DDDDD"; "  "] 300 Fixtures.db0 _
            (mkImportReport 2 0 2)).
  - refine (bool_decide_unpack _ _). vm_compute. exact I.
  - vm_compute. reflexivity.
Defined.

(** ** Revocation *)

Lemma revoked_count_map (hit : LicenseKey -> bool) now reason (l : list LicenseKey) :
  (forall k, In k l -> hit k = true -> key_status k <> KeyRevoked) ->
  List.length
    (List.filter (fun k => bool_decide (key_status k = KeyRevoked))
       (map (fun k => if hit k then markRevoked now reason k else k) l))
  = List.length (List.filter (fun k => bool_decide (key_status k = KeyRevoked)) l)
    + List.length (List.filter hit l).
Proof.
  induction l as [|k l IH]; [reflexivity|]. intros H.
  cbn [map List.filter].
  specialize (IH (fun x Hx => H x (or_intror Hx))).
  destruct (hit k) eqn:Hk.
  - cbn [markRevoked key_status].
    rewrite (bool_decide_eq_true_2 (KeyRevoked = KeyRevoked)) by reflexivity.
    rewrite (bool_decide_eq_false_2 (key_status k = KeyRevoked))
      by (apply H; [now left|exact Hk]).
    cbn [List.length]. lia.
  - destruct (bool_decide _); cbn [List.length]; lia.
Qed.

(** X9. Revoking is idempotent and counts what it does: revoking a key
    that [revoke] has just revoked is answered 400 ALREADY_REVOKED and
    changes nothing; the count [bulkRevoke] returns is exactly the number of
    keys that became revoked, and a second [bulkRevoke] of the same ids
    returns 0 and changes nothing, so that the first date and reason of a
    revocation are never overwritten. *)
Theorem revoking_is_idempotent :
  (forall id reason reason' now now' d key d',
      revoke id reason now d = (Reply200 key, d') ->
      revoke id reason' now' d' = (Reply400 "ALREADY_REVOKED", d'))
  /\ (forall ids reason now d n d',
         bulkRevoke ids reason now d = (Reply200 n, d') ->
         List.length
           (List.filter (fun k => bool_decide (key_status k = KeyRevoked)) (licenseKeys d'))
         = List.length
             (List.filter (fun k => bool_decide (key_status k = KeyRevoked)) (licenseKeys d))
           + n)
  /\ (forall ids reason reason' now now' d,
         bulkRevoke ids reason' now' (snd (bulkRevoke ids reason now d))
         = (Reply200 0, snd (bulkRevoke ids reason now d))).
Proof.
  split; [|split].
  - intros id reason reason' now now' d key d'. unfold revoke.
    destruct (List.find _ (licenseKeys d)) as [k|] eqn:Hfind; [|discriminate].
    destruct (bool_decide (key_status k = KeyRevoked)); [discriminate|].
    intros [= _ <-]. cbn [licenseKeys with_licenseKeys].
    rewrite (OrderFacts.find_map_stable (fun k0 => Nat.eqb (key_id k0) id)
               (fun k0 => if Nat.eqb (key_id k0) id then markRevoked now reason k0 else k0))
      by (intros x; destruct (Nat.eqb (key_id x) id) eqn:E; [exact E|exact E]).
    rewrite Hfind. cbn [option_map].
    apply find_some in Hfind as [_ Hid]. rewrite Hid. reflexivity.
  - intros ids reason now d n d'. unfold bulkRevoke. intros [= <- <-].
    cbn [licenseKeys with_licenseKeys]. apply revoked_count_map.
    intros k _ Hhit. apply andb_prop in Hhit as [_ Hhit].
    now apply negb_true_iff, bool_decide_eq_false in Hhit.
  - intros ids reason reason' now now' d. unfold bulkRevoke. cbv zeta.
    cbn [snd licenseKeys with_licenseKeys orders orderItems products key_seq].
    set (hit := fun k => bool_decide (key_id k ∈ ids)
                         && negb (bool_decide (key_status k = KeyRevoked))).
    set (f := fun k => if bool_decide (key_id k ∈ ids)
                          && negb (bool_decide (key_status k = KeyRevoked))
                       then markRevoked now reason k else k).
    set (f' := fun k => if bool_decide (key_id k ∈ ids)
                           && negb (bool_decide (key_status k = KeyRevoked))
                        then markRevoked now' reason' k else k).
    assert (Hno : forall k, In k (map f (licenseKeys d)) -> hit k = false).
    { intros k Hk. apply in_map_iff in Hk as (k0 & <- & _). unfold f, hit.
      destruct (bool_decide (key_id k0 ∈ ids)
                && negb (bool_decide (key_status k0 = KeyRevoked))) eqn:Hk0;
        [|exact Hk0].
      cbn [markRevoked key_status].
      rewrite (bool_decide_eq_true_2 (KeyRevoked = KeyRevoked)) by reflexivity.
      now rewrite andb_false_r. }
    rewrite (SettlementFacts.filter_none_in hit _ Hno).
    replace (map f' (map f (licenseKeys d))) with (map f (licenseKeys d));
      [reflexivity|].
    rewrite <- (map_id (map f (licenseKeys d))) at 1. apply map_ext_in.
    intros k Hk. unfold f'. pose proof (Hno k Hk) as E. unfold hit in E. now rewrite E.
Qed.

(** ** Deletion *)

(** X10. The delete routes take only keys in stock out of the table: every
    key that is sold or revoked is still there after a bulk delete, and,
    over unique ids, after a delete by id; the count of a bulk delete is
    the number of rows that left the table and a delete by id that
    succeeds removes one row. *)
Theorem only_keys_in_stock_are_deleted :
  (forall ids d k,
      In k (licenseKeys d) -> key_status k <> KeyAvailable ->
      In k (licenseKeys (snd (bulkDelete ids d))))
  /\ (forall ids d n d',
         bulkDelete ids d = (Reply200 n, d') ->
         List.length (licenseKeys d') + n = List.length (licenseKeys d))
  /\ (forall id d k,
         NoDup (map key_id (licenseKeys d)) ->
         In k (licenseKeys d) -> key_status k <> KeyAvailable ->
         In k (licenseKeys (snd (deleteKey id d))))
  /\ (forall id d u d',
         NoDup (map key_id (licenseKeys d)) ->
         deleteKey id d = (Reply200 u, d') ->
         List.length (licenseKeys d') + 1 = List.length (licenseKeys d)
         /\ forall k, In k (licenseKeys d') -> key_id k <> id).
Proof.
  split; [|split; [|split]].
  - intros ids d k Hk Hst. unfold bulkDelete. cbn [snd licenseKeys with_licenseKeys].
    apply filter_In. split; [exact Hk|].
    rewrite (bool_decide_eq_false_2 _ Hst). now rewrite andb_false_r.
  - intros ids d n d'. unfold bulkDelete. intros [= <- <-].
    cbn [licenseKeys with_licenseKeys]. rewrite Nat.add_comm.
    apply filter_length_partition.
  - intros id d k Hnd Hk Hst. unfold deleteKey.
    destruct (List.find _ (licenseKeys d)) as [key|] eqn:Hfind; [|exact Hk].
    destruct (bool_decide (key_status key = KeyAvailable)) eqn:Hav; [|exact Hk].
    cbn [negb snd licenseKeys with_licenseKeys].
    apply filter_In. split; [exact Hk|]. apply negb_true_iff, Nat.eqb_neq.
    intros Hid. apply bool_decide_eq_true in Hav. apply find_some in Hfind as [Hin Hkey].
    apply Nat.eqb_eq in Hkey.
    rewrite (AllocationFacts.unique_id_same_row _ k key Hnd Hk Hin) in Hst; congruence.
  - intros id d u d' Hnd. unfold deleteKey.
    destruct (List.find _ (licenseKeys d)) as [key|] eqn:Hfind; [|discriminate].
    destruct (negb _); [discriminate|]. intros [= _ <-].
    cbn [licenseKeys with_licenseKeys]. split.
    + pose proof (filter_length_partition (fun k => Nat.eqb (key_id k) id) (licenseKeys d))
        as Hsplit.
      cbv beta in Hsplit.
      assert (Hone : List.length (List.filter (fun k => Nat.eqb (key_id k) id)
                                    (licenseKeys d)) = 1).
      { change 1 with (List.length [key]).
        apply Permutation_length, NoDup_Permutation.
        - apply SettlementFacts.NoDup_List_filter. now apply NoDup_fmap_1 in Hnd.
        - apply NoDup_singleton.
        - intros k. rewrite list_elem_of_singleton, list_elem_of_In, filter_In.
          apply find_some in Hfind as [Hin Hkey]. apply Nat.eqb_eq in Hkey.
          split.
          + intros [Hk Hid]. apply Nat.eqb_eq in Hid.
            apply (AllocationFacts.unique_id_same_row _ k key Hnd Hk Hin). congruence.
          + intros ->. split; [exact Hin|now apply Nat.eqb_eq]. }
      lia.
    + intros k Hk. apply filter_In in Hk as [_ Hk].
      now apply negb_true_iff, Nat.eqb_neq in Hk.
Qed.

End KeyAdminFacts.

(** * The check report, the manual reset, the stock report and the monitor *)

Module InventoryAdminFacts.
Import Store InventoryService InventoryAdmin.
Import InventoryFacts.

(** ** What one check reports *)

Lemma marked_is_recent productId now (r : Redis) :
  r !! alertKey productId = Some ("1", Some (now + ALERT_COOLDOWN * 1000)%Z) ->
  _hasRecentAlert productId now r = true.
Proof.
  intros H. rewrite (hasRecentAlert_of_entry _ _ _ _ _ H).
  apply Z.ltb_lt. unfold ALERT_COOLDOWN. lia.
Qed.

(** The loop of [checkAndAlert] keeps its counter equal to the number of
    delivered alerts, sends at most one alert per turn and only for
    products outside a cooldown, and leaves a cooldown behind every
    delivered alert. *)
Lemma fold_alertStep_inv ch d now (r : Redis) items : forall st turns,
  cs_alertsSent st = List.length (List.filter alertDelivered (cs_alerts st)) ->
  List.length (cs_alerts st) <= turns ->
  Forall (fun a => _hasRecentAlert (alert_productId a) now r = false) (cs_alerts st) ->
  Forall (fun a => alertDelivered a = true ->
                   cs_redis st !! alertKey (alert_productId a)
                   = Some ("1", Some (now + ALERT_COOLDOWN * 1000)%Z)) (cs_alerts st) ->
  (forall productId,
      cs_redis st !! alertKey productId = r !! alertKey productId
      \/ cs_redis st !! alertKey productId
         = Some ("1", Some (now + ALERT_COOLDOWN * 1000)%Z)) ->
  let st' := fold_left (alertStep ch d now) items st in
  cs_alertsSent st' = List.length (List.filter alertDelivered (cs_alerts st'))
  /\ List.length (cs_alerts st') <= turns + List.length items
  /\ Forall (fun a => _hasRecentAlert (alert_productId a) now r = false) (cs_alerts st')
  /\ Forall (fun a => alertDelivered a = true ->
                      cs_redis st' !! alertKey (alert_productId a)
                      = Some ("1", Some (now + ALERT_COOLDOWN * 1000)%Z)) (cs_alerts st').
Proof.
  induction items as [|item items IH]; intros st turns I1 I2 I3 I4 I5.
  - cbn [fold_left List.length]. rewrite Nat.add_0_r. auto.
  - cbn [fold_left List.length]. rewrite <- Nat.add_succ_comm.
    apply IH; clear IH; rewrite alertStep_cases; cbv zeta;
      destruct (_hasRecentAlert (si_productId item) now (cs_redis st)) eqn:Hcool;
      auto;
      match goal with
      | |- context [alertDelivered ?a0] => set (a := a0)
      end;
      assert (Hfresh : _hasRecentAlert (si_productId item) now r = false)
        by (destruct (I5 (si_productId item)) as [E|E];
            [now rewrite <- (hasRecentAlert_entry _ now _ _ E)
            |now rewrite (marked_is_recent _ _ _ E) in Hcool]);
      destruct (alertDelivered a) eqn:Hdel; cbn [cs_alertsSent cs_alerts cs_redis].
    + rewrite List.filter_app, length_app. cbn [List.filter]. rewrite Hdel.
      cbn [List.length]. lia.
    + rewrite List.filter_app, length_app. cbn [List.filter]. rewrite Hdel.
      cbn [List.length]. lia.
    + rewrite length_app. cbn [List.length]. lia.
    + rewrite length_app. cbn [List.length]. lia.
    + apply Forall_app. split; [exact I3|]. now repeat constructor.
    + apply Forall_app. split; [exact I3|]. now repeat constructor.
    + apply Forall_app. split.
      * eapply List.Forall_impl; [|exact I4]. intros b Hb Hd. cbv beta in Hb.
        destruct (Nat.eq_dec (alert_productId b) (si_productId item)) as [->|Hne].
        -- apply markAlertSent_same.
        -- rewrite markAlertSent_other by congruence. auto.
      * repeat constructor. intros _. apply markAlertSent_same.
    + apply Forall_app. split; [exact I4|]. repeat constructor. congruence.
    + intros productId.
      destruct (Nat.eq_dec productId (si_productId item)) as [->|Hne].
      * right. apply markAlertSent_same.
      * rewrite markAlertSent_other by congruence. apply I5.
    + exact I5.
Qed.

(** X11. The report of a stock check agrees with what the check did:
    [alertsSent] is the number of alerts a channel delivered, no more
    alerts were attempted than products are low on stock, an alert was
    attempted only for a product with no cooldown standing, and every
    delivered alert leaves its product under a cooldown for the 24 hours
    that follow. *)
Theorem check_report_counts_delivered_alerts
    (threshold : Z) (ch : Channels) (d : Db) (now : Z) (r : Redis) :
  let out := checkAndAlert threshold ch d now r in
  let report := fst (fst out) in
  let sent := snd out in
  lowStockCount report = List.length (getLowStockProducts threshold d)
  /\ alertsSent report = List.length (List.filter alertDelivered sent)
  /\ List.length sent <= lowStockCount report
  /\ Forall (fun a => _hasRecentAlert (alert_productId a) now r = false) sent
  /\ Forall (fun a => alertDelivered a = true ->
                      forall t, (now <= t < now + ALERT_COOLDOWN * 1000)%Z ->
                                _hasRecentAlert (alert_productId a) t (snd (fst out)) = true)
       sent.
Proof.
  cbv zeta. unfold checkAndAlert.
  destruct (Nat.eqb_spec (List.length (getLowStockProducts threshold d)) 0) as [E|_].
  - cbn [fst snd lowStockCount alertsSent List.filter List.length]. rewrite E.
    repeat split; auto.
  - cbn [fst snd lowStockCount alertsSent].
    destruct (fold_alertStep_inv ch d now r (getLowStockProducts threshold d)
                (mkCheckState r 0 []) 0) as (H1 & H2 & H3 & H4);
      cbn [cs_alertsSent cs_alerts cs_redis List.filter List.length]; auto.
    repeat split; auto.
    eapply List.Forall_impl; [|exact H4]. intros a Ha Hd t Ht. cbv beta in Ha.
    rewrite (hasRecentAlert_of_entry _ _ _ _ _ (Ha Hd)). apply Z.ltb_lt. lia.
Qed.

(** ** The manual reset *)

Lemma reset_clears productId now (r : Redis) :
  _hasRecentAlert productId now (resetAlertCooldown productId r) = false.
Proof.
  unfold _hasRecentAlert, redis_exists, resetAlertCooldown, redis_del.
  now rewrite lookup_delete_eq.
Qed.

Lemma reset_other productId other now (r : Redis) :
  other <> productId ->
  _hasRecentAlert other now (resetAlertCooldown productId r) = _hasRecentAlert other now r.
Proof.
  intros Hne. apply hasRecentAlert_entry.
  unfold resetAlertCooldown, redis_del. apply lookup_delete_ne.
  intros H. apply alertKey_inj in H. congruence.
Qed.

(** X12. [resetAlertCooldown] re-arms the alert of one product and of no
    other: whatever cooldown stood, the next check in which the product is
    active and at or below the threshold calls [sendStockAlert] for it
    exactly once, with its current stock, while the cooldown of every other
    product stands as before. *)
Theorem reset_rearms_the_alert
    (threshold : Z) (p : Product) (r : Redis) (ch : Channels) (d : Db) (now : Z) :
  NoDup (map product_id (products d)) ->
  In p (products d) ->
  product_status p = ProductActive ->
  (Z.of_nat (availableStock d (product_id p)) <= threshold)%Z ->
  let out := checkAndAlert threshold ch d now (resetAlertCooldown (product_id p) r) in
  (exists a,
      alertsFor (product_id p) (snd out) = [a]
      /\ alert_stock a = availableStock d (product_id p))
  /\ (forall other t,
         other <> product_id p ->
         _hasRecentAlert other t (resetAlertCooldown (product_id p) r)
         = _hasRecentAlert other t r).
Proof.
  intros Hnd Hin Hactive Hlow out. split; [|intros other t; apply reset_other].
  pose proof (lowStock_In threshold d p Hin Hactive Hlow) as Hitem.
  apply in_split in Hitem as (l1 & l2 & Hlist).
  pose proof (lowStock_ids_NoDup threshold d Hnd) as Hnd'.
  rewrite Hlist in Hnd'. apply NoDup_map_split in Hnd' as [H1 H2].
  destruct (fold_alertStep_fires ch d now (resetAlertCooldown (product_id p) r)
              l1 _ l2 H1 H2 (reset_clears _ _ _)) as (a & Ha & _ & Hstock & _).
  cbv zeta in Ha. cbn [si_productId si_stockCount] in Ha, Hstock.
  exists a. split; [|exact Hstock].
  subst out. unfold checkAndAlert. rewrite Hlist at 1.
  rewrite length_app. cbn [List.length].
  replace (Nat.eqb (List.length l1 + S (List.length l2)) 0) with false
    by (symmetry; apply Nat.eqb_neq; lia).
  cbn [snd]. rewrite Hlist. exact Ha.
Qed.

Lemma reset_rearms_the_alert_witness :
  let out :=
    checkAndAlert 10 Fixtures.channels_up Fixtures.db0 1000
      (resetAlertCooldown (product_id Fixtures.w11) (_markAlertSent 1 0 ∅)) in
  (exists a,
      alertsFor (product_id Fixtures.w11) (snd out) = [a]
      /\ alert_stock a = availableStock Fixtures.db0 (product_id Fixtures.w11))
  /\ (forall other t,
         other <> product_id Fixtures.w11 ->
         _hasRecentAlert other t
           (resetAlertCooldown (product_id Fixtures.w11) (_markAlertSent 1 0 ∅))
         = _hasRecentAlert other t (_markAlertSent 1 0 ∅)).
Proof.
  apply (reset_rearms_the_alert 10 Fixtures.w11 (_markAlertSent 1 0 ∅)
           Fixtures.channels_up Fixtures.db0 1000).
  - repeat constructor. apply not_elem_of_nil.
  - now left.
  - reflexivity.
  - vm_compute. discriminate.
Defined.

(** ** The stock report *)

Lemma filter_length_le {A} (p q : A -> bool) (l : list A) :
  (forall x, p x = true -> q x = true) ->
  List.length (List.filter p l) <= List.length (List.filter q l).
Proof.
  intros H. induction l as [|x l IH]; [reflexivity|]. cbn [List.filter].
  destruct (p x) eqn:Hp.
  - rewrite (H x Hp). cbn [List.length]. lia.
  - destruct (q x); cbn [List.length]; lia.
Qed.

Lemma checkAllStock_low threshold d item :
  In item (checkAllStock threshold d) ->
  si_isLowStock item = (Z.of_nat (si_stockCount item) <=? threshold)%Z
  /\ si_stockCount item = availableStock d (si_productId item)
  /\ si_status item = ProductActive.
Proof.
  unfold checkAllStock. intros H. apply in_map_iff in H as (p & <- & Hp).
  apply filter_In in Hp as [_ Hp]. apply bool_decide_eq_true in Hp.
  cbn [si_isLowStock si_stockCount si_productId si_status]. auto.
Qed.

Lemma count_status_map (f : StockInfo -> ReportLine) (p : StockInfo -> bool)
    (level : StockLevel) (l : list StockInfo) :
  (forall item, bool_decide (line_status (f item) = level) = p item) ->
  List.length (List.filter (fun line => bool_decide (line_status line = level)) (map f l))
  = List.length (List.filter p l).
Proof.
  intros H. rewrite SettlementFacts.filter_of_map, length_map.
  f_equal. apply List.filter_ext. exact H.
Qed.

Lemma filter_none_length {A} (p : A -> bool) (l : list A) :
  (forall x, In x l -> p x = false) -> List.length (List.filter p l) = 0.
Proof.
  intros H. induction l as [|x l IH]; [reflexivity|]. cbn [List.filter].
  rewrite (H x) by now left. apply IH. intros y Hy. apply H. now right.
Qed.

(** X13. The numbers of the stock report, whatever integer the threshold
    is: every active product is either low on stock or healthy; the
    product lines are as many as the active products; OUT_OF_STOCK and
    LOW_STOCK lines together are counted by [lowStockProducts] and HEALTHY
    lines by [healthyStockProducts]. When the threshold is not negative, a
    product that is out of stock counts as low on stock and the
    OUT_OF_STOCK lines are counted by [outOfStockProducts]. When the
    threshold is negative no product is low on stock and no line is
    OUT_OF_STOCK or LOW_STOCK, while [outOfStockProducts] still counts the
    products without a key. *)
Theorem stock_report_adds_up (threshold : Z) (now : Z) (d : Db) :
  let report := getStockReport threshold now d in
  let lines level :=
    List.length
      (List.filter (fun line => bool_decide (line_status line = level))
         (report_products report)) in
  lowStockProducts report + healthyStockProducts report = totalProducts report
  /\ lines OUT_OF_STOCK + lines LOW_STOCK = lowStockProducts report
  /\ lines HEALTHY = healthyStockProducts report
  /\ List.length (report_products report) = totalProducts report
  /\ outOfStockProducts report
     = List.length
         (List.filter (fun p => Nat.eqb (availableStock d (product_id p)) 0)
            (List.filter (fun p => bool_decide (product_status p = ProductActive))
               (products d)))
  /\ ((0 <= threshold)%Z ->
      outOfStockProducts report <= lowStockProducts report
      /\ lines OUT_OF_STOCK = outOfStockProducts report)
  /\ ((threshold < 0)%Z ->
      lowStockProducts report = 0
      /\ lines OUT_OF_STOCK = 0
      /\ lines LOW_STOCK = 0
      /\ healthyStockProducts report = totalProducts report).
Proof.
  cbv zeta. unfold getStockReport.
  cbn [lowStockProducts healthyStockProducts totalProducts outOfStockProducts
       report_products].
  set (allStock := checkAllStock threshold d).
  set (toLine := fun item =>
                   mkReportLine (si_productId item) (si_productName item)
                     (si_stockCount item) (si_threshold item)
                     (if si_isLowStock item
                      then if Nat.eqb (si_stockCount item) 0
                           then OUT_OF_STOCK else LOW_STOCK
                      else HEALTHY)).
  assert (Hout : List.length
                   (List.filter (fun line => bool_decide (line_status line = OUT_OF_STOCK))
                      (map toLine allStock))
                 = List.length
                     (List.filter
                        (fun item => si_isLowStock item
                                     && Nat.eqb (si_stockCount item) 0) allStock)).
  { apply count_status_map. intros item. cbn [toLine line_status].
    now destruct (si_isLowStock item), (Nat.eqb (si_stockCount item) 0). }
  assert (Hlow : List.length
                   (List.filter (fun line => bool_decide (line_status line = LOW_STOCK))
                      (map toLine allStock))
                 = List.length
                     (List.filter
                        (fun item => si_isLowStock item
                                     && negb (Nat.eqb (si_stockCount item) 0)) allStock)).
  { apply count_status_map. intros item. cbn [toLine line_status].
    now destruct (si_isLowStock item), (Nat.eqb (si_stockCount item) 0). }
  pose proof (SettlementFacts.filter_length_split (fun item => si_isLowStock item)
                (fun item => Nat.eqb (si_stockCount item) 0) allStock) as Hsplit.
  cbv beta in Hsplit.
  pose proof (KeyAdminFacts.filter_length_partition si_isLowStock allStock) as Hpart.
  split; [exact Hpart|].
  split; [rewrite Hout, Hlow; lia|].
  split.
  { apply count_status_map. intros item. cbn [toLine line_status].
    now destruct (si_isLowStock item), (Nat.eqb (si_stockCount item) 0). }
  split; [apply length_map|].
  split.
  { unfold allStock, checkAllStock.
    rewrite SettlementFacts.filter_of_map, length_map. reflexivity. }
  split.
  - intros Hpos.
    assert (Hzero : forall item, In item allStock ->
              Nat.eqb (si_stockCount item) 0 = true -> si_isLowStock item = true).
    { intros item Hitem Hz. apply checkAllStock_low in Hitem as (-> & _ & _).
      apply Nat.eqb_eq in Hz. rewrite Hz. now apply Z.leb_le. }
    assert (Hzero' : List.length
                       (List.filter (fun item => Nat.eqb (si_stockCount item) 0) allStock)
                     = List.length
                         (List.filter
                            (fun item => si_isLowStock item
                                         && Nat.eqb (si_stockCount item) 0) allStock)).
    { f_equal. apply List.filter_ext_in. intros item Hitem.
      destruct (Nat.eqb (si_stockCount item) 0) eqn:Hz.
      - now rewrite (Hzero item Hitem Hz).
      - now rewrite andb_false_r. }
    split; [|now rewrite Hout, Hzero'].
    rewrite Hzero'. apply filter_length_le. intros item H.
    now apply andb_prop in H as [H _].
  - intros Hneg.
    assert (Hnone : forall item, In item allStock -> si_isLowStock item = false).
    { intros item Hitem. apply checkAllStock_low in Hitem as (-> & _ & _).
      apply Z.leb_gt. lia. }
    assert (Hlow0 : List.length (List.filter (fun item => si_isLowStock item) allStock) = 0)
      by now apply filter_none_length.
    assert (Hlow1 : List.length (List.filter si_isLowStock allStock) = 0)
      by exact Hlow0.
    split; [exact Hlow0|].
    split; [rewrite Hout; lia|].
    split; [rewrite Hlow; lia|].
    lia.
Qed.

(** ** The monitor *)

Lemma call_inv m c :
  (forall t, In t (timers m) -> fst t < nextHandle m) ->
  (if isMonitoring m
   then exists period, monitorInterval m = Some (nextHandle m - 1)
                       /\ timers m = [(nextHandle m - 1, period)]
   else monitorInterval m = None /\ timers m = []) ->
  let m' := call m c in
  (forall t, In t (timers m') -> fst t < nextHandle m')
  /\ (if isMonitoring m'
      then exists period, monitorInterval m' = Some (nextHandle m' - 1)
                          /\ timers m' = [(nextHandle m' - 1, period)]
      else monitorInterval m' = None /\ timers m' = []).
Proof.
  intros Hlt Hinv. destruct c as [interval|]; cbn [call].
  - unfold startMonitoring. destruct (isMonitoring m) eqn:Hm.
    + rewrite Hm. auto.
    + destruct Hinv as [_ Ht]. cbn [isMonitoring timers nextHandle monitorInterval].
      rewrite Ht, Nat.sub_succ, Nat.sub_0_r. split; [|eauto].
      intros t [<-|[]]. cbn. lia.
  - unfold stopMonitoring. destruct (isMonitoring m) eqn:Hm; cbn [negb].
    + destruct Hinv as (period & Hi & Ht). rewrite Hi.
      cbn [isMonitoring timers nextHandle monitorInterval]. rewrite Ht.
      cbn [List.filter fst]. rewrite Nat.eqb_refl. cbn [negb]. split; [|auto].
      intros t [].
    + rewrite Hm. auto.
Qed.

(** X14. However [startMonitoring] and [stopMonitoring] are called on a
    new service, at most one interval timer runs, and [isMonitoring] tells
    whether one does: while it is set exactly the timer of
    [monitorInterval] runs, and after a stop none is left. *)
Theorem monitor_runs_at_most_one_timer (calls : list MonitorCall) :
  let m := fold_left call calls newMonitor in
  List.length (timers m) <= 1
  /\ (isMonitoring m = true <->
      exists handle period, monitorInterval m = Some handle /\ timers m = [(handle, period)])
  /\ (isMonitoring m = false <-> timers m = []).
Proof.
  cbv zeta.
  assert (H : forall m,
             (forall t, In t (timers m) -> fst t < nextHandle m) ->
             (if isMonitoring m
              then exists period, monitorInterval m = Some (nextHandle m - 1)
                                  /\ timers m = [(nextHandle m - 1, period)]
              else monitorInterval m = None /\ timers m = []) ->
             let m' := fold_left call calls m in
             (if isMonitoring m'
              then exists period, monitorInterval m' = Some (nextHandle m' - 1)
                                  /\ timers m' = [(nextHandle m' - 1, period)]
              else monitorInterval m' = None /\ timers m' = [])).
  { induction calls as [|c calls IH]; intros m H1 H2; [exact H2|].
    cbn [fold_left]. destruct (call_inv m c H1 H2) as [G1 G2]. now apply IH. }
  specialize (H newMonitor (fun t (Ht : In t []) => match Ht with end)
                (conj eq_refl eq_refl)).
  cbv zeta in H. destruct (isMonitoring (fold_left call calls newMonitor)).
  - destruct H as (period & Hi & Ht). rewrite Ht. cbn [List.length].
    repeat split; eauto; discriminate.
  - destruct H as [Hi Ht]. rewrite Ht. cbn [List.length]. repeat split; auto.
    + discriminate.
    + intros (handle & period & _ & [=]).
Qed.

End InventoryAdminFacts.

(** * The encryption key and the random strings *)

Module VaultToolsFacts.
Import Vault VaultTools.

Lemma hex_encode_length (bs : list byte) :
  String.length (hex_encode bs) = 2 * List.length bs.
Proof.
  induction bs as [|b bs IH]; [reflexivity|].
  cbn [hex_encode String.length List.length]. lia.
Qed.

(** Strings, two characters at a time. *)
Lemma string_ind2 (P : string -> Prop) :
  P EmptyString ->
  (forall c, P (String c EmptyString)) ->
  (forall c1 c2 s, P s -> P (String c1 (String c2 s))) ->
  forall s, P s.
Proof.
  intros H0 H1 H2.
  assert (H : forall s, P s /\ forall c, P (String c s)).
  { induction s as [|c s [IH1 IH2]]; split; auto. }
  intros s. apply H.
Qed.

Lemma hex_value_units (c : ascii) (h : N) : hex_value c = Some h -> utf16_units c = 1.
Proof.
  unfold hex_value, utf16_units. cbv zeta.
  destruct ((48 <=? N_of_ascii c) && (N_of_ascii c <=? 57))%N eqn:E1;
    [|destruct ((97 <=? N_of_ascii c) && (N_of_ascii c <=? 102))%N eqn:E2;
      [|destruct ((65 <=? N_of_ascii c) && (N_of_ascii c <=? 70))%N eqn:E3;
        [|discriminate]]];
    intros _;
    match goal with
    | H : (_ && _)%bool = true |- _ =>
        apply andb_prop in H as [Hlo Hhi];
        apply N.leb_le in Hlo; apply N.leb_le in Hhi
    end;
    (replace (N.ltb (N_of_ascii c) 192) with true by (symmetry; apply N.ltb_lt; lia));
    (replace (N.leb 128 (N_of_ascii c)) with false by (symmetry; apply N.leb_gt; lia));
    (replace (N.leb 240 (N_of_ascii c)) with false by (symmetry; apply N.leb_gt; lia));
    reflexivity.
Qed.

Lemma utf16_length_hex_encode (bs : list byte) :
  utf16_length (hex_encode bs) = 2 * List.length bs.
Proof.
  induction bs as [|b bs IH]; [reflexivity|].
  cbn [hex_encode utf16_length List.length]. rewrite IH.
  assert (Hd : forall n, (n < 16)%N -> utf16_units (hex_digit n) = 1).
  { intros n Hn.
    assert (Hall : forallb (fun m => Nat.eqb (utf16_units (hex_digit m)) 1)
                     (map N.of_nat (seq 0 16)) = true) by (vm_compute; reflexivity).
    rewrite forallb_forall in Hall. apply Nat.eqb_eq. apply Hall.
    apply in_map_iff. exists (N.to_nat n). split; [lia|]. apply in_seq. lia. }
  rewrite !Hd; [lia| |].
  - apply N.mod_lt. discriminate.
  - apply N.Div0.div_lt_upper_bound.
    pose proof (Byte.to_N_bounded b). lia.
Qed.

Lemma utf16_units_le (c : ascii) (s : string) :
  In c (list_ascii_of_string s) -> utf16_units c <= utf16_length s.
Proof.
  induction s as [|c0 s IH]; cbn [list_ascii_of_string utf16_length]; [intros []|].
  intros [<-|H]; [lia|]. specialize (IH H). lia.
Qed.

(** [Buffer.from(s, 'hex')] yields a byte for every two code units only
    when every character is a hexadecimal digit. *)
Lemma hex_decode_short (s : string) :
  2 * List.length (hex_decode s) <= utf16_length s
  /\ ((exists c, In c (list_ascii_of_string s) /\ hex_value c = None
                 /\ 0 < utf16_units c) ->
      2 * List.length (hex_decode s) < utf16_length s).
Proof.
  induction s as [|c|c1 c2 s [IH1 IH2]] using string_ind2.
  - cbn. split; [lia|]. intros (c & [] & _).
  - cbn [hex_decode List.length utf16_length list_ascii_of_string].
    split; [lia|]. intros (c0 & [<-|[]] & _ & Hu). lia.
  - cbn [hex_decode].
    destruct (hex_value c1) as [h|] eqn:E1.
    + destruct (hex_value c2) as [l|] eqn:E2.
      * cbn [List.length utf16_length list_ascii_of_string].
        rewrite (hex_value_units _ _ E1), (hex_value_units _ _ E2).
        split; [lia|].
        intros (c & [<-|[<-|Hc]] & Hnone & Hu); [congruence|congruence|].
        assert (2 * List.length (hex_decode s) < utf16_length s) by eauto. lia.
      * cbn [List.length]. split; [lia|].
        intros (c & Hc & _ & Hu). pose proof (utf16_units_le _ _ Hc). lia.
    + cbn [List.length]. split; [lia|].
      intros (c & Hc & _ & Hu). pose proof (utf16_units_le _ _ Hc). lia.
Qed.

(** X15. An ENCRYPTION_KEY whose length is 64 and that holds a character
    other than a hexadecimal digit disables the Key Vault: the key is read
    as hexadecimal, comes out shorter than 32 bytes, and every [encrypt]
    and every [decrypt] fails; the key is never derived with scrypt
    instead. The length is the one the code tests, in UTF-16 code units;
    the character is given by the byte that starts it. *)
Theorem malformed_hex_key_disables_the_vault
    (gcm_seal : list byte -> list byte -> list byte -> list byte * list byte)
    (gcm_open : list byte -> list byte -> list byte -> list byte -> option (list byte))
    (scrypt : string -> list byte) (key : string) :
  utf16_length key = 64 ->
  (exists c, In c (list_ascii_of_string key) /\ hex_value c = None
             /\ 0 < utf16_units c) ->
  getEncryptionKey scrypt (Some key) = Some (hex_decode key)
  /\ List.length (hex_decode key) < KEY_LENGTH
  /\ (forall iv text, encrypt gcm_seal scrypt (Some key) iv text = Err EncryptionFailed)
  /\ (forall encryptedText,
         decrypt gcm_open scrypt (Some key) encryptedText = Err DecryptionFailed).
Proof.
  intros Hlen Hbad.
  assert (Hshort : List.length (hex_decode key) < KEY_LENGTH).
  { destruct (hex_decode_short key) as [_ H]. specialize (H Hbad).
    unfold KEY_LENGTH. lia. }
  assert (Hkey : getEncryptionKey scrypt (Some key) = Some (hex_decode key)).
  { unfold getEncryptionKey. destruct key as [|c key]; [discriminate Hlen|].
    now rewrite Hlen. }
  assert (Hne : Nat.eqb (List.length (hex_decode key)) KEY_LENGTH = false)
    by (apply Nat.eqb_neq; lia).
  repeat split; auto.
  - intros iv text. unfold encrypt. now rewrite Hkey, Hne.
  - intros encryptedText. unfold decrypt. now rewrite Hkey, Hne.
Qed.

Lemma malformed_hex_key_disables_the_vault_witness :
  Vault.encrypt Fixtures.toy_seal Fixtures.toy_scrypt
    (Some "g00102030405060708090a0b0c0d0e0f101112131415161718191a1b1c1d1e1f")
    Fixtures.iv_a "AAAAA-AAAAA"
  = Err EncryptionFailed.
Proof.
  apply (malformed_hex_key_disables_the_vault Fixtures.toy_seal Fixtures.toy_open
           Fixtures.toy_scrypt
           "g00102030405060708090a0b0c0d0e0f101112131415161718191a1b1c1d1e1f").
  - reflexivity.
  - exists "g"%char. split; [now left|]. split; [reflexivity|]. vm_compute. lia.
Defined.

(** X16. A key made by [generateEncryptionKey] is a key the Key Vault
    accepts: [getEncryptionKey] reads it back as the very 32 random bytes
    it was made from, without scrypt, and [encrypt] succeeds under it. *)
Theorem generated_key_is_accepted
    (gcm_seal : list byte -> list byte -> list byte -> list byte * list byte)
    (scrypt : string -> list byte) (randomBytes : list byte) :
  List.length randomBytes = KEY_LENGTH ->
  String.length (generateEncryptionKey randomBytes) = 64
  /\ utf16_length (generateEncryptionKey randomBytes) = 64
  /\ getEncryptionKey scrypt (Some (generateEncryptionKey randomBytes)) = Some randomBytes
  /\ (forall iv text,
         exists c, encrypt gcm_seal scrypt (Some (generateEncryptionKey randomBytes)) iv text
                   = Ok c).
Proof.
  intros Hlen. unfold generateEncryptionKey.
  assert (H64 : utf16_length (hex_encode randomBytes) = 64)
    by (rewrite utf16_length_hex_encode, Hlen; reflexivity).
  assert (Hkey : getEncryptionKey scrypt (Some (hex_encode randomBytes)) = Some randomBytes).
  { unfold getEncryptionKey.
    destruct (hex_encode randomBytes) as [|c key] eqn:E; [discriminate H64|].
    rewrite H64. cbn [Nat.eqb]. rewrite <- E.
    now rewrite VaultFacts.hex_decode_encode. }
  split; [rewrite hex_encode_length, Hlen; reflexivity|].
  repeat split; auto.
  intros iv text. unfold encrypt. rewrite Hkey, Hlen, Nat.eqb_refl. cbn [negb].
  destruct (gcm_seal randomBytes iv (list_byte_of_string text)) as [ct authTag]. eauto.
Qed.

Lemma generated_key_is_accepted_witness :
  getEncryptionKey Fixtures.toy_scrypt
    (Some (generateEncryptionKey (repeat x2a KEY_LENGTH)))
  = Some (repeat x2a KEY_LENGTH).
Proof.
  apply (generated_key_is_accepted Fixtures.toy_seal Fixtures.toy_scrypt
           (repeat x2a KEY_LENGTH)).
  reflexivity.
Defined.

(** ** Random strings *)

Lemma substring_length (n : nat) : forall s,
  n <= String.length s -> String.length (String.substring 0 n s) = n.
Proof.
  induction n as [|n IH]; intros s Hn.
  - now destruct s.
  - destruct s as [|c s]; cbn [String.length] in Hn; [lia|].
    cbn [String.substring String.length]. rewrite IH; [reflexivity|lia].
Qed.

Lemma substring_chars (n : nat) : forall s c,
  In c (list_ascii_of_string (String.substring 0 n s)) ->
  In c (list_ascii_of_string s).
Proof.
  induction n as [|n IH]; intros s c.
  - destruct s; cbn; tauto.
  - destruct s as [|c0 s]; cbn [String.substring list_ascii_of_string]; [tauto|].
    intros [<-|H]; [now left|right; now apply IH].
Qed.

Lemma hex_digit_lower (n : N) : (n < 16)%N -> is_hex_lower (hex_digit n) = true.
Proof.
  intros Hn.
  assert (Hall : forallb (fun m => is_hex_lower (hex_digit m))
                   (map N.of_nat (seq 0 16)) = true) by (vm_compute; reflexivity).
  rewrite forallb_forall in Hall. apply Hall.
  apply in_map_iff. exists (N.to_nat n). split; [lia|]. apply in_seq. lia.
Qed.

Lemma hex_encode_chars (bs : list byte) c :
  In c (list_ascii_of_string (hex_encode bs)) -> is_hex_lower c = true.
Proof.
  induction bs as [|b bs IH]; [intros []|].
  pose proof (VaultFacts.to_N_lt b) as Hb.
  cbn [hex_encode list_ascii_of_string]. intros [<-|[<-|H]]; [| |auto].
  - apply hex_digit_lower. apply N.Div0.div_lt_upper_bound. lia.
  - apply hex_digit_lower. apply N.mod_lt. lia.
Qed.

Lemma substring_0_0 (s : string) : String.substring 0 0 s = EmptyString.
Proof. now destruct s. Qed.

(** The first [n] digits are those of the first [(n + 1) / 2] bytes. *)
Lemma substring_hex_encode_take (n : nat) : forall bs,
  String.substring 0 n (hex_encode bs)
  = String.substring 0 n (hex_encode (take (Nat.div2 (S n)) bs)).
Proof.
  assert (H : forall m,
             (forall bs, String.substring 0 m (hex_encode bs)
                         = String.substring 0 m (hex_encode (take (Nat.div2 (S m)) bs)))
             /\ (forall bs, String.substring 0 (S m) (hex_encode bs)
                            = String.substring 0 (S m)
                                (hex_encode (take (Nat.div2 (S (S m))) bs)))).
  { clear n. intros m. induction m as [|n [IH1 IH2]].
    - split; intros bs.
      + now rewrite !substring_0_0.
      + destruct bs as [|b bs]; [reflexivity|].
        reflexivity.
    - split; [exact IH2|]. intros bs.
      destruct bs as [|b bs]; [reflexivity|].
      change (Nat.div2 (S (S (S n)))) with (S (Nat.div2 (S n))).
      cbn [take hex_encode String.substring]. now rewrite <- IH1. }
  apply (H n).
Qed.

(** X17. [generateRandomString(length)] returns exactly [length]
    characters, each a lowercase hexadecimal digit, and they are the
    encoding of the first half of the random bytes alone: the second half
    of what [crypto.randomBytes(length)] returns never shows. *)
Theorem random_string_has_the_requested_length (length : nat) (randomBytes : list byte) :
  List.length randomBytes = length ->
  String.length (generateRandomString length randomBytes) = length
  /\ Forall (fun c => is_hex_lower c = true)
       (list_ascii_of_string (generateRandomString length randomBytes))
  /\ (forall otherBytes,
         take (Nat.div2 (S length)) otherBytes = take (Nat.div2 (S length)) randomBytes ->
         generateRandomString length otherBytes = generateRandomString length randomBytes).
Proof.
  intros Hlen. unfold generateRandomString. repeat split.
  - apply substring_length. rewrite hex_encode_length. lia.
  - apply List.Forall_forall. intros c Hc.
    apply substring_chars in Hc. now apply hex_encode_chars in Hc.
  - intros otherBytes Hsame.
    rewrite (substring_hex_encode_take length otherBytes), Hsame.
    now rewrite <- substring_hex_encode_take.
Qed.

Lemma random_string_has_the_requested_length_witness :
  String.length (generateRandomString 5 [x01; x23; x45; x67; x89]) = 5.
Proof.
  apply (random_string_has_the_requested_length 5 [x01; x23; x45; x67; x89]).
  reflexivity.
Defined.

End VaultToolsFacts.

(** * The payment notification routes *)

Module PaymentRouteFacts.
Import Store OrderService PaymentRoutes.

(** A callback that throws leaves the database as it was. *)
Lemma callback_error_keeps_db c now p w e w' :
  handlePaymentCallback c now p w = (Err e, w') -> db w' = db w.
Proof.
  rewrite OrderFacts.handlePaymentCallback_spec.
  destruct (order_findUnique _ _) as [order|]; [|now intros [= _ <-]].
  destruct (negb _); [discriminate|].
  destruct (OrderService.amountMismatch _ _); [now intros [= _ <-]|].
  destruct (bool_decide (p_status p = "success")).
  - destruct (_completeOrder _ _ _ _ _ w) as [[[]|e'] w1]; [discriminate|].
    now intros [= _ <-].
  - destruct (order_update _ _ w) as [[u|e'] w1]; [discriminate|].
    now intros [= _ <-].
Qed.

(** After a callback that returned, every callback for the same order
    number finds the order settled. *)
Lemma callback_after_return c c' now now' p p' w r w1 :
  handlePaymentCallback c now p w = (Ok r, w1) ->
  p_orderNo p' = p_orderNo p ->
  handlePaymentCallback c' now' p' w1
  = (Ok alreadyProcessed, mkWorld (db w1) (log w1 ++ [EvCommit])).
Proof.
  intros H Hno. apply OrderFacts.handlePaymentCallback_settles in H as (order & Hf & Hst).
  rewrite OrderFacts.handlePaymentCallback_spec, Hno, Hf.
  now rewrite (bool_decide_eq_false_2 _ Hst).
Qed.

Lemma alipayNotify_cases signatureValid c now params w :
  let p :=
    mkPayload (out_trade_no params) (trade_no params) "alipay"
      (if bool_decide (trade_status params = "TRADE_SUCCESS")
       then "success" else "pending")
      (total_amount params) in
  (signatureValid = false
   /\ alipayNotify signatureValid c now params w = ((400, "fail"), w))
  \/ (exists r w1,
         signatureValid = true
         /\ handlePaymentCallback c now p w = (Ok r, w1)
         /\ alipayNotify signatureValid c now params w = ((200, "success"), w1))
  \/ (exists e w1,
         signatureValid = true
         /\ handlePaymentCallback c now p w = (Err e, w1)
         /\ alipayNotify signatureValid c now params w = ((500, "fail"), w1)).
Proof.
  cbv zeta. unfold alipayNotify. destruct signatureValid; cbn [negb]; [|now left].
  right.
  match goal with
  | |- context [handlePaymentCallback c now ?p0 w] =>
      destruct (handlePaymentCallback c now p0 w) as [[r|e] w1]
  end; [left|right]; eauto.
Qed.

(** X18. An Alipay notification is safe to deliver again. Whenever the
    route answers anything but 200 'success' the database is as it was, so
    the gateway may retry; and once it has answered 200 'success', a
    notification for the same order, whatever it says, is answered
    200 'success' again and changes nothing. *)
Theorem alipay_notify_is_safe_to_retry
    (signatureValid : bool) (c c' : Collaborators) (now now' : Z)
    (params params' : AlipayNotice) (w : World) :
  let out := alipayNotify signatureValid c now params w in
  (fst out <> (200, "success") -> db (snd out) = db w)
  /\ (fst out = (200, "success") ->
      out_trade_no params' = out_trade_no params ->
      alipayNotify true c' now' params' (snd out)
      = ((200, "success"), mkWorld (db (snd out)) (log (snd out) ++ [EvCommit]))).
Proof.
  cbv zeta.
  destruct (alipayNotify_cases signatureValid c now params w)
    as [[_ ->]|[(r & w1 & _ & Hcb & ->)|(e & w1 & _ & Hcb & ->)]]; cbn [fst snd].
  - split; [reflexivity|discriminate].
  - split; [congruence|]. intros _ Hno. unfold alipayNotify. cbn [negb].
    match goal with
    | |- context [handlePaymentCallback c' now' ?p0 w1] =>
        rewrite (callback_after_return c c' now now' _ p0 w r w1 Hcb Hno)
    end.
    reflexivity.
  - split; [|discriminate]. intros _. now apply callback_error_keeps_db in Hcb.
Qed.



Lemma wechatNotify_cases signatureValid c now params w :
  let p :=
    mkPayload (wx_out_trade_no params) (transaction_id params) "wechat" "success"
      (Double.div (total_fee params) (Double.of_Z 100)) in
  let failed :=
    negb (bool_decide (return_code params = "SUCCESS"))
    || negb (bool_decide (result_code params = "SUCCESS")) in
  (signatureValid = false
   /\ wechatNotify signatureValid c now params w = ((200, wechatFail "签名失败"), w))
  \/ (signatureValid = true /\ failed = true
      /\ wechatNotify signatureValid c now params w = ((200, wechatOk), w))
  \/ (exists r w1,
         signatureValid = true /\ failed = false
         /\ handlePaymentCallback c now p w = (Ok r, w1)
         /\ wechatNotify signatureValid c now params w = ((200, wechatOk), w1))
  \/ (exists e w1,
         signatureValid = true /\ failed = false
         /\ handlePaymentCallback c now p w = (Err e, w1)
         /\ wechatNotify signatureValid c now params w
            = ((200, wechatFail "处理失败"), w1)).
Proof.
  cbv zeta. unfold wechatNotify. destruct signatureValid; cbn [negb]; [|now left].
  right. destruct (_ || _); [now left|]. right.
  match goal with
  | |- context [handlePaymentCallback c now ?p0 w] =>
      destruct (handlePaymentCallback c now p0 w) as [[r|e] w1]
  end; [left|right]; eauto 10.
Qed.

Lemma wechatFail_not_ok msg : (200, wechatFail msg) <> (200, wechatOk).
Proof. unfold wechatFail, wechatOk. intros H. cbv in H. discriminate H. Qed.

(** X20. A WeChat Pay notification is safe to deliver again, and a failed
    payment leaves the order open. Whenever the route answers anything but
    the SUCCESS document the database is as it was; a notification whose
    return or result code is not SUCCESS is acknowledged without touching
    the order, which stays pending; and once the route has answered
    SUCCESS, the same notification is answered SUCCESS again and changes
    nothing in the database. *)
Theorem wechat_notify_is_safe_to_retry
    (signatureValid : bool) (c c' : Collaborators) (now now' : Z)
    (params : WechatNotice) (w : World) :
  let out := wechatNotify signatureValid c now params w in
  (fst out <> (200, wechatOk) -> db (snd out) = db w)
  /\ (signatureValid = true ->
      return_code params <> "SUCCESS" \/ result_code params <> "SUCCESS" ->
      out = ((200, wechatOk), w))
  /\ (fst out = (200, wechatOk) ->
      fst (wechatNotify true c' now' params (snd out)) = (200, wechatOk)
      /\ db (snd (wechatNotify true c' now' params (snd out))) = db (snd out)).
Proof.
  cbv zeta.
  destruct (wechatNotify_cases signatureValid c now params w)
    as [[Hs ->]|[(Hs & Hfail & ->)|[(r & w1 & Hs & Hfail & Hcb & ->)
                                   |(e & w1 & Hs & Hfail & Hcb & ->)]]];
    cbn [fst snd]; try (cbv zeta in Hfail).
  - split; [reflexivity|]. split; [congruence|].
    intros H. now apply wechatFail_not_ok in H.
  - split; [reflexivity|]. split; [reflexivity|]. intros _.
    unfold wechatNotify. cbn [negb]. rewrite Hfail. auto.
  - split; [congruence|]. split.
    + intros _ [H|H]; apply orb_false_elim in Hfail as [H1 H2];
        apply negb_false_iff, bool_decide_eq_true in H1, H2; contradiction.
    + intros _. unfold wechatNotify. cbn [negb]. rewrite Hfail.
      match goal with
      | |- context [handlePaymentCallback c' now' ?p0 w1] =>
          rewrite (callback_after_return c c' now now' _ p0 w r w1 Hcb eq_refl)
      end.
      auto.
  - split; [intros _; now apply callback_error_keeps_db in Hcb|]. split.
    + intros _ [H|H]; apply orb_false_elim in Hfail as [H1 H2];
        apply negb_false_iff, bool_decide_eq_true in H1, H2; contradiction.
    + intros H. now apply wechatFail_not_ok in H.
Qed.

End PaymentRouteFacts.

(** * Placing an order *)

Module CheckoutFacts.
Import Store OrderService Accounting Checkout.
Import InventoryService.


Lemma getProductPriceByIP_error env productId ip e :
  getProductPriceByIP env productId ip = Err e ->
  e = CheckoutNotFound "No price found for this product".
Proof.
  unfold getProductPriceByIP, getProductPrice.
  repeat (destruct (List.find _ _); [discriminate|]). now intros [= <-].
Qed.

Lemma find_none_Forall {A} (p : A -> bool) (l : list A) :
  List.find p l = None -> Forall (fun x => p x = false) l.
Proof.
  intros H. apply List.Forall_forall. intros x Hx. now apply (find_none _ _ H).
Qed.

(** X24. The price quoted is always a price of the product asked for: the
    one of the visitor's country when the product has one, otherwise the
    default price, otherwise its first price; [getProductPrice] fails only
    when the product has no price at all. *)
Theorem price_is_always_of_the_product
    (table : list Price) (productId : nat) (countryCode : string) :
  match getProductPrice table productId countryCode with
  | Ok price =>
      In price table
      /\ price_productId price = productId
      /\ (price_countryCode price = countryCode
          \/ (Forall (fun p => price_productId p = productId ->
                                price_countryCode p <> countryCode) table
              /\ (price_isDefault price = true
                  \/ Forall (fun p => price_productId p = productId ->
                                       price_isDefault p = false) table)))
  | Err e =>
      e = CheckoutNotFound "No price found for this product"
      /\ Forall (fun p => price_productId p <> productId) table
  end.
Proof.
  unfold getProductPrice.
  destruct (List.find _ table) as [price|] eqn:H1.
  { apply find_some in H1 as [Hin H]. apply andb_prop in H as [Hp Hc].
    apply Nat.eqb_eq in Hp. apply bool_decide_eq_true in Hc. auto. }
  apply find_none_Forall in H1.
  assert (Hcountry : Forall (fun p => price_productId p = productId ->
                                      price_countryCode p <> countryCode) table).
  { eapply List.Forall_impl; [|exact H1]. intros p Hp Hid Hc. cbv beta in Hp.
    rewrite Hid, Nat.eqb_refl, (bool_decide_eq_true_2 _ Hc) in Hp. discriminate. }
  destruct (List.find _ table) as [price|] eqn:H2.
  { apply find_some in H2 as [Hin H]. apply andb_prop in H as [Hp Hd].
    apply Nat.eqb_eq in Hp. auto 6. }
  apply find_none_Forall in H2.
  assert (Hdefault : Forall (fun p => price_productId p = productId ->
                                      price_isDefault p = false) table).
  { eapply List.Forall_impl; [|exact H2]. intros p Hp Hid. cbv beta in Hp.
    rewrite Hid, Nat.eqb_refl in Hp. exact Hp. }
  destruct (List.find _ table) as [price|] eqn:H3.
  { apply find_some in H3 as [Hin Hp]. apply Nat.eqb_eq in Hp. auto 6. }
  apply find_none_Forall in H3. split; [reflexivity|].
  eapply List.Forall_impl; [|exact H3]. intros p Hp. now apply Nat.eqb_neq.
Qed.

(** X21. [createOrder] reserves nothing and fails cleanly, with one
    exception. It never writes a license key, so the stock it has checked
    is still there for the next buyer; when it throws for any reason other
    than the payment provider, no row was written; when the payment
    provider throws, the new order stays behind, pending and without a
    payment. *)
Theorem createOrder_reserves_nothing
    (env : Environment) (orderNo : string) (orderId itemId : nat) (now : Z)
    (productId : nat) (email paymentMethod ip lang : string) (s : Shop) :
  let out :=
    createOrder env orderNo orderId itemId now productId email paymentMethod ip lang s in
  licenseKeys (db (shop_world (snd out))) = licenseKeys (db (shop_world s))
  /\ (forall e, fst out = Err e -> e <> PaymentProviderError ->
        db (shop_world (snd out)) = db (shop_world s)
        /\ shop_origins (snd out) = shop_origins s)
  /\ (fst out = Err PaymentProviderError ->
      exists order,
        orders (db (shop_world (snd out))) = (orders (db (shop_world s)) ++ [order])%list
        /\ order_orderNo order = orderNo
        /\ order_status order = PENDING
        /\ order_findUnique orderNo (db (shop_world s)) = None)
  /\ (forall res, fst out = Ok res ->
        hasStock productId (db (shop_world (snd out))) = true
        /\ order_status (created_order res) = PENDING
        /\ map item_quantity (created_items res) = [1]).
Proof.
  cbv zeta. unfold createOrder, getProductById. cbv zeta.
  destruct (List.find _ (products _)) as [product|];
    [|cbn [fst snd]; repeat split; auto; discriminate].
  destruct (negb (bool_decide _));
    [cbn [fst snd]; repeat split; auto; discriminate|].
  destruct (hasStock productId (db (shop_world s))) eqn:Hstock; cbn [negb];
    [|cbn [fst snd]; repeat split; auto; discriminate].
  destruct (getProductPriceByIP env productId ip) as [price|e0] eqn:Hprice;
    [|apply getProductPriceByIP_error in Hprice as ->;
      cbn [fst snd]; repeat split; auto; discriminate].
  destruct (negb (isMethodAvailable env paymentMethod));
    [cbn [fst snd]; repeat split; auto; discriminate|].
  destruct (order_findUnique orderNo _) eqn:Hfresh;
    [cbn [fst snd shop_world shop_origins db]; repeat split; auto; discriminate|].
  destruct (createPayment env paymentMethod _) as [payment|];
    cbn [fst snd shop_world shop_origins db licenseKeys orders].
  - split; [reflexivity|]. split; [discriminate|]. split; [discriminate|].
    intros res [= <-]. cbn [created_order created_items order_status map item_quantity].
    repeat split. exact Hstock.
  - split; [reflexivity|]. split; [intros e [= <-]; congruence|]. split; [|discriminate].
    intros _. eexists. repeat split.
Qed.




End CheckoutFacts.

(** * What no history of operations does to the license-key table *)

Module HistoryFacts.
Import Store OrderService AdminLicenseKeys AdminDeletion Accounting Checkout Operations.

Lemma consistent_same d d' :
  licenseKeys d' = licenseKeys d -> key_seq d' = key_seq d ->
  consistent d -> consistent d'.
Proof. unfold consistent. intros -> ->. auto. Qed.

Lemma consistent_map (f : LicenseKey -> LicenseKey) d d' :
  (forall k, key_id (f k) = key_id k) ->
  (forall k, key_productId (f k) = key_productId k) ->
  (forall k, keyValueEncrypted (f k) = keyValueEncrypted k) ->
  (forall k, keyLinkOk k = true -> keyLinkOk (f k) = true) ->
  licenseKeys d' = map f (licenseKeys d) -> key_seq d' = key_seq d ->
  consistent d -> consistent d'.
Proof.
  unfold consistent. intros Hid Hp Hv Hok -> Hseq (H1 & H2 & H3 & H4).
  rewrite Hseq, !map_map. repeat split.
  - erewrite map_ext; [exact H1|]. intros k. apply Hid.
  - apply List.Forall_map. eapply List.Forall_impl; [|exact H2]. intros k. cbn. now rewrite Hid.
  - erewrite map_ext; [exact H3|]. intros k. cbn. now rewrite Hp, Hv.
  - apply List.Forall_map. eapply List.Forall_impl; [|exact H4]. intros k. apply Hok.
Qed.

Lemma consistent_filter (p : LicenseKey -> bool) d d' :
  licenseKeys d' = List.filter p (licenseKeys d) -> key_seq d' = key_seq d ->
  consistent d -> consistent d'.
Proof.
  unfold consistent. intros -> Hseq (H1 & H2 & H3 & H4). rewrite Hseq.
  repeat split; auto using InventoryFacts.NoDup_map_filter, KeyAdminFacts.Forall_List_filter.
Qed.

Lemma consistent_updateMany ids (f : LicenseKey -> LicenseKey) d :
  (forall k, key_id (f k) = key_id k) ->
  (forall k, key_productId (f k) = key_productId k) ->
  (forall k, keyValueEncrypted (f k) = keyValueEncrypted k) ->
  (forall k, keyLinkOk (f k) = true) ->
  consistent d -> consistent (licenseKey_updateMany ids f d).
Proof.
  intros Hid Hp Hv Hok.
  apply (consistent_map (fun k => if bool_decide (key_id k ∈ ids) then f k else k));
    try reflexivity; intros k; destruct (bool_decide _); auto.
Qed.

Lemma order_update_consistent id data w r w' :
  order_update id data w = (r, w') -> consistent (db w) -> consistent (db w').
Proof.
  rewrite OrderFacts.order_update_spec.
  destruct (List.find _ _); intros [= <- <-]; [|auto].
  now apply consistent_same.
Qed.

Lemma markSold_linked orderId now k : keyLinkOk (markSold orderId now k) = true.
Proof. reflexivity. Qed.

Lemma release_linked k : keyLinkOk (release k) = true.
Proof. reflexivity. Qed.

Lemma markRevoked_linked now reason k : keyLinkOk (markRevoked now reason k) = true.
Proof. reflexivity. Qed.

Lemma allocateItem_consistent order now item w r w' :
  allocateItem order now item w = (r, w') ->
  consistent (db w) -> consistent (db w').
Proof.
  rewrite OrderFacts.allocateItem_unfold. cbv zeta.
  destruct (Nat.ltb _ _); intros [= <- <-]; [auto|]. cbn [db].
  apply consistent_updateMany; auto using markSold_linked.
Qed.

Lemma forEach_allocate_consistent order now items : forall w r w',
  forEach items (allocateItem order now) w = (r, w') ->
  consistent (db w) -> consistent (db w').
Proof.
  induction items as [|item items IH]; intros w r w'.
  - now intros [= <- <-].
  - rewrite OrderFacts.forEach_cons.
    destruct (allocateItem order now item w) as [[[]|e] w1] eqn:E1.
    + intros H Hc. apply (IH _ _ _ H). now apply (allocateItem_consistent _ _ _ _ _ _ E1).
    + intros [= <- <-]. now apply (allocateItem_consistent _ _ _ _ _ _ E1).
Qed.

Lemma handlePaymentCallback_consistent c now p w :
  consistent (db w) -> consistent (db (snd (handlePaymentCallback c now p w))).
Proof.
  intros Hc. rewrite OrderFacts.handlePaymentCallback_spec.
  destruct (order_findUnique _ _) as [order|]; [|exact Hc].
  destruct (negb _); [exact Hc|].
  destruct (OrderService.amountMismatch _ _); [exact Hc|].
  destruct (bool_decide (p_status p = "success")).
  - rewrite OrderFacts.completeOrder_spec.
    destruct (forEach _ _ w) as [[[]|e] wa] eqn:Ha; [|exact Hc].
    apply forEach_allocate_consistent in Ha; [|exact Hc].
    destruct (order_update _ _ wa) as [[u|e] wb] eqn:Hu; [|exact Hc].
    cbn [snd db]. now apply (order_update_consistent _ _ _ _ _ Hu).
  - destruct (order_update _ _ w) as [[u|e] wb] eqn:Hu; [|exact Hc].
    cbn [snd db]. now apply (order_update_consistent _ _ _ _ _ Hu).
Qed.

Lemma cancelOrder_consistent orderNo w :
  consistent (db w) -> consistent (db (snd (cancelOrder orderNo w))).
Proof.
  intros Hc. rewrite SettlementFacts.cancelOrder_spec.
  destruct (order_findUnique _ _) as [order|]; [|exact Hc].
  destruct (negb _); [exact Hc|].
  destruct (order_update _ _ w) as [[u|e] wb] eqn:Hu; [|exact Hc].
  cbn [snd db]. now apply (order_update_consistent _ _ _ _ _ Hu).
Qed.

Lemma refundOrder_consistent c orderNo refundAmount refundReason w :
  consistent (db w) ->
  consistent (db (snd (refundOrder c orderNo refundAmount refundReason w))).
Proof.
  intros Hc. rewrite RefundFacts.refundOrder_spec.
  destruct (order_findUnique _ _) as [order|]; [|exact Hc]. cbv zeta.
  destruct (negb _); [exact Hc|].
  destruct (Z.gtb _ _); [exact Hc|].
  destruct (gatewayRefund c _); [|exact Hc|exact Hc].
  match goal with
  | |- context [order_update ?i ?f ?w0] =>
      destruct (order_update i f w0) as [[u|e] wb] eqn:Hu; [|exact Hc]
  end.
  cbn [snd db]. apply (order_update_consistent _ _ _ _ _ Hu). cbn [db].
  destruct (Nat.ltb _ _); [|exact Hc].
  apply consistent_updateMany; auto using release_linked.
Qed.

Lemma bulkImport_consistent productId keys now d :
  consistent d -> consistent (snd (bulkImport productId keys now d)).
Proof.
  intros Hc. unfold bulkImport.
  destruct (List.find _ (products d)); [|exact Hc].
  set (uniqueKeys := List.filter _ (uniq (map trim keys))).
  destruct (Nat.eqb _ 0); [exact Hc|].
  set (existingKeyValues := map keyValueEncrypted _).
  set (newKeys := List.filter _ uniqueKeys).
  destruct (Nat.eqb _ 0); [exact Hc|].
  cbn [snd]. destruct Hc as (H1 & H2 & H3 & H4).
  destruct (KeyAdminFacts.newRows_spec productId now newKeys (S (key_seq d))) as (R1 & R2 & R3).
  unfold consistent. cbn [licenseKeys key_seq]. rewrite !map_app, KeyAdminFacts.newRows_length, R1, R2.
  assert (Hnew : NoDup newKeys).
  { unfold newKeys, uniqueKeys. do 2 apply SettlementFacts.NoDup_List_filter.
    apply KeyAdminFacts.uniq_from_spec. }
  repeat split.
  - apply NoDup_app. split; [exact H1|]. split; [|apply NoDup_seq].
    intros x Hx Hs. apply elem_of_seq in Hs.
    apply list_elem_of_In, in_map_iff in Hx as (k & <- & Hk).
    rewrite List.Forall_forall in H2. specialize (H2 k Hk). cbn in H2. lia.
  - apply Forall_app. split.
    + eapply List.Forall_impl; [|exact H2]. intros k. cbn. lia.
    + apply List.Forall_forall. intros k Hk.
      assert (Hid : key_id k ∈ seq (S (key_seq d)) (List.length newKeys))
        by (rewrite <- R1; apply list_elem_of_In, in_map, Hk).
      apply elem_of_seq in Hid. lia.
  - apply NoDup_app. split; [exact H3|]. split.
    + intros [pid v] Hold Hin.
      apply list_elem_of_In, in_map_iff in Hin as (v' & [= <- <-] & Hv).
      apply list_elem_of_In, in_map_iff in Hold as (k & [= Hp Hk] & Hin).
      unfold newKeys in Hv. apply filter_In in Hv as [Hu Hv].
      apply negb_true_iff, bool_decide_eq_false in Hv. apply Hv.
      unfold existingKeyValues. apply list_elem_of_In, in_map_iff.
      exists k. split; [exact Hk|]. apply filter_In. split; [exact Hin|].
      rewrite Hp, Nat.eqb_refl. cbn [andb]. apply bool_decide_eq_true.
      rewrite Hk. now apply list_elem_of_In.
    + apply NoDup_fmap_2; [|exact Hnew]. intros a b [= ->]. reflexivity.
  - apply Forall_app. auto.
Qed.

Lemma revoke_consistent id reason now d :
  consistent d -> consistent (snd (revoke id reason now d)).
Proof.
  intros Hc. unfold revoke.
  destruct (List.find _ (licenseKeys d)); [|exact Hc].
  destruct (bool_decide _); [exact Hc|]. cbn [snd].
  apply (consistent_map
           (fun k => if Nat.eqb (key_id k) id then markRevoked now reason k else k) d);
    try reflexivity; try exact Hc; intros k; destruct (Nat.eqb _ _); auto.
Qed.

Lemma bulkRevoke_consistent ids reason now d :
  consistent d -> consistent (snd (bulkRevoke ids reason now d)).
Proof.
  intros Hc. unfold bulkRevoke. cbn [snd].
  apply (consistent_map
           (fun k => if bool_decide (key_id k ∈ ids)
                        && negb (bool_decide (key_status k = KeyRevoked))
                     then markRevoked now reason k else k) d);
    try reflexivity; try exact Hc; intros k; destruct (_ && _); auto.
Qed.

Lemma deleteKey_consistent id d :
  consistent d -> consistent (snd (deleteKey id d)).
Proof.
  intros Hc. unfold deleteKey.
  destruct (List.find _ (licenseKeys d)); [|exact Hc].
  destruct (negb _); [exact Hc|]. cbn [snd].
  now apply (consistent_filter (fun k => negb (Nat.eqb (key_id k) id)) d).
Qed.

Lemma bulkDelete_consistent ids d :
  consistent d -> consistent (snd (bulkDelete ids d)).
Proof.
  intros Hc. unfold bulkDelete. cbn [snd].
  now apply (consistent_filter
               (fun k => negb (bool_decide (key_id k ∈ ids)
                               && bool_decide (key_status k = KeyAvailable))) d).
Qed.

Lemma deleteProduct_consistent id d :
  consistent d -> consistent (snd (deleteProduct id d)).
Proof.
  intros Hc. unfold deleteProduct.
  destruct (List.find _ (products d)); [|exact Hc]. cbv zeta.
  destruct (_ || _); [exact Hc|]. cbn [snd]. now apply (consistent_same d).
Qed.

Lemma createOrder_keys env orderNo orderId itemId now productId email paymentMethod ip lang
    s :
  let s' :=
    snd (createOrder env orderNo orderId itemId now productId email paymentMethod ip lang
           s) in
  licenseKeys (shop_db s') = licenseKeys (shop_db s)
  /\ key_seq (shop_db s') = key_seq (shop_db s)
  /\ products (shop_db s') = products (shop_db s).
Proof.
  cbv zeta. unfold createOrder, shop_db. cbv zeta.
  destruct (getProductById _ _); [|auto].
  destruct (negb _); [auto|]. destruct (negb _); [auto|].
  destruct (getProductPriceByIP _ _ _); [|auto].
  destruct (negb _); [auto|].
  destruct (order_findUnique _ _); [auto|].
  destruct (createPayment _ _ _); auto.
Qed.

Lemma perform_consistent op s :
  consistent (shop_db s) -> consistent (shop_db (perform op s)).
Proof.
  destruct op; cbn [perform]; unfold inDb, inWorld, shop_db; cbn [shop_world db];
    auto using handlePaymentCallback_consistent, cancelOrder_consistent,
      refundOrder_consistent, bulkImport_consistent, revoke_consistent,
      bulkRevoke_consistent, deleteKey_consistent, bulkDelete_consistent,
      deleteProduct_consistent.
  intros Hc.
  destruct (createOrder_keys env orderNo orderId itemId now productId email paymentMethod
              ip lang s) as (Hk & Hs & _).
  now apply (consistent_same (shop_db s)).
Qed.

(** X5. No history of orders placed, payments, cancellations, refunds,
    imports, revocations and deletions, in whatever order and with whatever
    arguments, breaks the consistency of the license-key table: ids stay
    unique, no product ever holds the same key value twice, every key in
    stock names no order and every sold key names one. *)
Theorem history_keeps_key_table_consistent (ops : list Operation) (s : Shop) :
  consistent (shop_db s) -> consistent (shop_db (performAll ops s)).
Proof.
  unfold performAll. revert s.
  induction ops as [|op ops IH]; intros s Hc; [exact Hc|].
  cbn [fold_left]. apply IH. now apply perform_consistent.
Qed.

Lemma history_keeps_key_table_consistent_witness :
  consistent (shop_db (performAll Histories.busy_week Counter.shop0)).
Proof.
  apply (history_keeps_key_table_consistent Histories.busy_week Counter.shop0).
  repeat split; refine (bool_decide_unpack _ _); vm_compute; exact I.
Defined.

(** ** Nothing dangles *)

Lemma referential_keys_map (g : LicenseKey -> LicenseKey) d d' :
  products d' = products d -> orders d' = orders d -> orderItems d' = orderItems d ->
  licenseKeys d' = map g (licenseKeys d) ->
  (forall k, key_productId (g k) = key_productId k) ->
  (forall k orderId, key_orderId (g k) = Some orderId ->
                     key_orderId k = Some orderId \/ orderExists d orderId) ->
  referential d -> referential d'.
Proof.
  unfold referential, productExists, orderExists.
  intros -> -> -> -> Hp Ho (H1 & H2 & H3 & H4). repeat split; auto.
  - apply List.Forall_map. eapply List.Forall_impl; [|exact H1].
    intros k Hk. cbv beta. now rewrite Hp.
  - apply List.Forall_map.
    rewrite List.Forall_forall in H4 |- *. intros k Hk orderId Hg.
    destruct (Ho k orderId Hg) as [Hsame|Hex]; [now apply (H4 k Hk)|exact Hex].
Qed.

Lemma referential_keys_filter (p : LicenseKey -> bool) d d' :
  products d' = products d -> orders d' = orders d -> orderItems d' = orderItems d ->
  licenseKeys d' = List.filter p (licenseKeys d) ->
  referential d -> referential d'.
Proof.
  unfold referential, productExists, orderExists.
  intros -> -> -> -> (H1 & H2 & H3 & H4).
  repeat split; auto using KeyAdminFacts.Forall_List_filter.
Qed.

Lemma orderExists_map (f : Order -> Order) (l : list Order) orderId :
  (forall o, order_id (f o) = order_id o) ->
  (exists o, In o l /\ order_id o = orderId) ->
  exists o, In o (map f l) /\ order_id o = orderId.
Proof.
  intros Hid (o & Ho & <-). exists (f o). split; [now apply in_map|apply Hid].
Qed.

Lemma referential_orders_map (f : Order -> Order) d d' :
  products d' = products d -> licenseKeys d' = licenseKeys d ->
  orderItems d' = orderItems d -> orders d' = map f (orders d) ->
  (forall o, order_id (f o) = order_id o) ->
  referential d -> referential d'.
Proof.
  unfold referential, productExists, orderExists.
  intros -> -> -> -> Hid (H1 & H2 & H3 & H4). repeat split; auto.
  - eapply List.Forall_impl; [|exact H3]. intros it. now apply orderExists_map.
  - eapply List.Forall_impl; [|exact H4]. intros k Hk orderId Hs.
    apply orderExists_map; auto.
Qed.

Lemma order_update_referential id data w r w' :
  (forall o, order_id (data o) = order_id o) ->
  order_update id data w = (r, w') -> referential (db w) -> referential (db w').
Proof.
  intros Hid. rewrite OrderFacts.order_update_spec.
  destruct (List.find _ _); intros [= <- <-]; [|auto]. cbn [db].
  apply (referential_orders_map
           (fun o' => if Nat.eqb (order_id o') id then data o' else o'));
    try reflexivity.
  intros o'. destruct (Nat.eqb _ _); auto.
Qed.

Lemma updateMany_referential ids (g : LicenseKey -> LicenseKey) d :
  (forall k, key_productId (g k) = key_productId k) ->
  (forall k orderId, key_orderId (g k) = Some orderId ->
                     key_orderId k = Some orderId \/ orderExists d orderId) ->
  referential d -> referential (licenseKey_updateMany ids g d).
Proof.
  intros Hp Ho.
  apply (referential_keys_map (fun k => if bool_decide (key_id k ∈ ids) then g k else k));
    try reflexivity; intros k; destruct (bool_decide _); auto.
Qed.

Lemma allocateItem_referential order now item w r w' :
  orderExists (db w) (order_id order) ->
  allocateItem order now item w = (r, w') ->
  referential (db w) -> referential (db w') /\ orderExists (db w') (order_id order).
Proof.
  intros Hex. rewrite OrderFacts.allocateItem_unfold. cbv zeta.
  destruct (Nat.ltb _ _); intros [= <- <-]; [auto|]. cbn [db]. intros Hr.
  split; [|exact Hex]. apply updateMany_referential; [reflexivity| |exact Hr].
  intros k orderId [= <-]. now right.
Qed.

Lemma forEach_allocate_referential order now items : forall w r w',
  orderExists (db w) (order_id order) ->
  forEach items (allocateItem order now) w = (r, w') ->
  referential (db w) -> referential (db w').
Proof.
  induction items as [|item items IH]; intros w r w' Hex.
  - now intros [= <- <-].
  - rewrite OrderFacts.forEach_cons.
    destruct (allocateItem order now item w) as [[[]|e] w1] eqn:E1.
    + intros H Hr.
      destruct (allocateItem_referential _ _ _ _ _ _ Hex E1 Hr) as [Hr1 Hex1].
      now apply (IH _ _ _ Hex1 H).
    + intros [= <- <-] Hr. now apply (allocateItem_referential _ _ _ _ _ _ Hex E1 Hr).
Qed.

Lemma found_order_exists orderNo d order :
  order_findUnique orderNo d = Some order -> orderExists d (order_id order).
Proof.
  unfold order_findUnique. intros H. apply find_some in H as [H _].
  exists order. auto.
Qed.

Lemma setPaid_id st txid now o : order_id (setPaid st txid now o) = order_id o.
Proof. reflexivity. Qed.

Lemma setStatus_id st o : order_id (setStatus st o) = order_id o.
Proof. reflexivity. Qed.

Lemma handlePaymentCallback_referential c now p w :
  referential (db w) -> referential (db (snd (handlePaymentCallback c now p w))).
Proof.
  intros Hr. rewrite OrderFacts.handlePaymentCallback_spec.
  destruct (order_findUnique _ _) as [order|] eqn:Hfound; [|exact Hr].
  destruct (negb _); [exact Hr|].
  destruct (OrderService.amountMismatch _ _); [exact Hr|].
  apply found_order_exists in Hfound.
  destruct (bool_decide (p_status p = "success")).
  - rewrite OrderFacts.completeOrder_spec.
    destruct (forEach _ _ w) as [[[]|e] wa] eqn:Ha; [|exact Hr].
    apply (forEach_allocate_referential _ _ _ _ _ _ Hfound) in Ha; [|exact Hr].
    destruct (order_update _ _ wa) as [[u|e] wb] eqn:Hu; [|exact Hr].
    cbn [snd db].
    now apply (order_update_referential _ _ _ _ _ (setPaid_id _ _ _) Hu).
  - destruct (order_update _ _ w) as [[u|e] wb] eqn:Hu; [|exact Hr].
    cbn [snd db].
    now apply (order_update_referential _ _ _ _ _ (setPaid_id _ _ _) Hu).
Qed.

Lemma cancelOrder_referential orderNo w :
  referential (db w) -> referential (db (snd (cancelOrder orderNo w))).
Proof.
  intros Hr. rewrite SettlementFacts.cancelOrder_spec.
  destruct (order_findUnique _ _) as [order|]; [|exact Hr].
  destruct (negb _); [exact Hr|].
  destruct (order_update _ _ w) as [[u|e] wb] eqn:Hu; [|exact Hr].
  cbn [snd db]. now apply (order_update_referential _ _ _ _ _ (setStatus_id _) Hu).
Qed.

Lemma refundOrder_referential c orderNo refundAmount refundReason w :
  referential (db w) ->
  referential (db (snd (refundOrder c orderNo refundAmount refundReason w))).
Proof.
  intros Hr. rewrite RefundFacts.refundOrder_spec.
  destruct (order_findUnique _ _) as [order|]; [|exact Hr]. cbv zeta.
  destruct (negb _); [exact Hr|].
  destruct (Z.gtb _ _); [exact Hr|].
  destruct (gatewayRefund c _); [|exact Hr|exact Hr].
  match goal with
  | |- context [order_update ?i ?f ?w0] =>
      destruct (order_update i f w0) as [[u|e] wb] eqn:Hu; [|exact Hr]
  end.
  cbn [snd db]. apply (order_update_referential _ _ _ _ _ (setStatus_id _) Hu). cbn [db].
  destruct (Nat.ltb _ _); [|exact Hr].
  apply updateMany_referential; [reflexivity| |exact Hr]. intros k orderId [=].
Qed.

Lemma newRows_In productId now values : forall next k,
  In k (newRows next productId now values) ->
  key_productId k = productId /\ key_orderId k = None.
Proof.
  induction values as [|v values IH]; intros next k; cbn [newRows]; [intros []|].
  intros [<-|H]; [auto|]. now apply (IH (S next)).
Qed.

Lemma bulkImport_referential productId keys now d :
  referential d -> referential (snd (bulkImport productId keys now d)).
Proof.
  intros Hr. unfold bulkImport.
  destruct (List.find _ (products d)) as [product|] eqn:Hprod; [|exact Hr].
  destruct (Nat.eqb _ 0); [exact Hr|].
  destruct (Nat.eqb _ 0); [exact Hr|].
  cbn [snd]. destruct Hr as (H1 & H2 & H3 & H4).
  unfold referential, productExists, orderExists in *.
  cbn [licenseKeys orderItems products orders]. repeat split; auto.
  - apply Forall_app. split; [exact H1|]. apply List.Forall_forall. intros k Hk.
    apply newRows_In in Hk as [-> _]. apply find_some in Hprod as [Hin Hid].
    apply Nat.eqb_eq in Hid. eauto.
  - apply Forall_app. split; [exact H4|]. apply List.Forall_forall.
    intros k Hk orderId Hs. apply newRows_In in Hk as [_ Hnone]. congruence.
Qed.

Lemma revoke_referential id reason now d :
  referential d -> referential (snd (revoke id reason now d)).
Proof.
  intros Hr. unfold revoke.
  destruct (List.find _ (licenseKeys d)); [|exact Hr].
  destruct (bool_decide _); [exact Hr|]. cbn [snd].
  apply (referential_keys_map
           (fun k => if Nat.eqb (key_id k) id then markRevoked now reason k else k) d);
    try reflexivity; try exact Hr; intros k; destruct (Nat.eqb _ _); auto.
Qed.

Lemma bulkRevoke_referential ids reason now d :
  referential d -> referential (snd (bulkRevoke ids reason now d)).
Proof.
  intros Hr. unfold bulkRevoke. cbn [snd].
  apply (referential_keys_map
           (fun k => if bool_decide (key_id k ∈ ids)
                        && negb (bool_decide (key_status k = KeyRevoked))
                     then markRevoked now reason k else k) d);
    try reflexivity; try exact Hr; intros k; destruct (_ && _); auto.
Qed.

Lemma deleteKey_referential id d :
  referential d -> referential (snd (deleteKey id d)).
Proof.
  intros Hr. unfold deleteKey.
  destruct (List.find _ (licenseKeys d)); [|exact Hr].
  destruct (negb _); [exact Hr|]. cbn [snd].
  now apply (referential_keys_filter (fun k => negb (Nat.eqb (key_id k) id)) d).
Qed.

Lemma bulkDelete_referential ids d :
  referential d -> referential (snd (bulkDelete ids d)).
Proof.
  intros Hr. unfold bulkDelete. cbn [snd].
  now apply (referential_keys_filter
               (fun k => negb (bool_decide (key_id k ∈ ids)
                               && bool_decide (key_status k = KeyAvailable))) d).
Qed.

Lemma filter_length_0 {A} (p : A -> bool) (l : list A) x :
  List.length (List.filter p l) = 0 -> In x l -> p x = false.
Proof.
  intros Hlen Hx. destruct (p x) eqn:Hp; [|reflexivity].
  assert (Hin : In x (List.filter p l)) by (apply filter_In; auto).
  destruct (List.filter p l); [contradiction|discriminate].
Qed.

Lemma deleteProduct_referential id d :
  referential d -> referential (snd (deleteProduct id d)).
Proof.
  intros Hr. unfold deleteProduct.
  destruct (List.find _ (products d)) as [product|] eqn:Hprod; [|exact Hr]. cbv zeta.
  destruct (Nat.ltb_spec 0 (List.length
              (List.filter (fun k => Nat.eqb (key_productId k) (product_id product))
                 (licenseKeys d)))) as [|Hkeys]; [exact Hr|].
  destruct (Nat.ltb_spec 0 (List.length
              (List.filter (fun it => Nat.eqb (item_productId it) (product_id product))
                 (orderItems d)))) as [|Hitems]; [exact Hr|].
  cbn [orb snd]. apply find_some in Hprod as [_ Hid]. apply Nat.eqb_eq in Hid.
  destruct Hr as (H1 & H2 & H3 & H4).
  unfold referential, productExists, orderExists in *.
  cbn [licenseKeys orderItems products orders]. repeat split; auto.
  - rewrite List.Forall_forall in H1 |- *. intros k Hk.
    destruct (H1 k Hk) as (p & Hp & Hpid). exists p. split; [|exact Hpid].
    apply filter_In. split; [exact Hp|]. apply negb_true_iff, Nat.eqb_neq.
    intros Heq.
    assert (Hz : Nat.eqb (key_productId k) (product_id product) = false)
      by (apply (filter_length_0
                   (fun k0 => Nat.eqb (key_productId k0) (product_id product))
                   (licenseKeys d) k); [lia|exact Hk]).
    apply Nat.eqb_neq in Hz. congruence.
  - rewrite List.Forall_forall in H2 |- *. intros it Hit.
    destruct (H2 it Hit) as (p & Hp & Hpid). exists p. split; [|exact Hpid].
    apply filter_In. split; [exact Hp|]. apply negb_true_iff, Nat.eqb_neq.
    intros Heq.
    assert (Hz : Nat.eqb (item_productId it) (product_id product) = false)
      by (apply (filter_length_0
                   (fun it0 => Nat.eqb (item_productId it0) (product_id product))
                   (orderItems d) it); [lia|exact Hit]).
    apply Nat.eqb_neq in Hz. congruence.
Qed.

Lemma createOrder_referential env orderNo orderId itemId now productId email paymentMethod
    ip lang s :
  referential (shop_db s) ->
  referential
    (shop_db (snd (createOrder env orderNo orderId itemId now productId email
                     paymentMethod ip lang s))).
Proof.
  intros Hr. unfold createOrder, getProductById, shop_db in *. cbv zeta.
  destruct (List.find _ (products _)) as [product|] eqn:Hprod; [|exact Hr].
  destruct (negb _); [exact Hr|]. destruct (negb _); [exact Hr|].
  destruct (getProductPriceByIP _ _ _) as [price|]; [|exact Hr].
  destruct (negb _); [exact Hr|].
  destruct (order_findUnique _ _); [exact Hr|].
  apply find_some in Hprod as [Hin Hid]. apply Nat.eqb_eq in Hid.
  assert (Hnew : referential
            (mkDb
               (orders (db (shop_world s))
                ++ [mkOrder orderId orderNo email (price_amount price) PENDING
                      paymentMethod None None now])
               (orderItems (db (shop_world s))
                ++ [mkOrderItem itemId orderId productId (product_name product) 1
                      (price_amount price) (price_amount price)])
               (licenseKeys (db (shop_world s))) (products (db (shop_world s)))
               (key_seq (db (shop_world s))))).
  { destruct Hr as (H1 & H2 & H3 & H4).
    unfold referential, productExists, orderExists in *.
    cbn [licenseKeys orderItems products orders].
    assert (Hmono : forall oid,
              (exists o, In o (orders (db (shop_world s))) /\ order_id o = oid) ->
              exists o,
                In o (orders (db (shop_world s))
                      ++ [mkOrder orderId orderNo email (price_amount price) PENDING
                            paymentMethod None None now])
                /\ order_id o = oid).
    { intros oid (o & Ho & Hoid). exists o. split; [|exact Hoid].
      apply in_or_app. now left. }
    repeat split; auto.
    - apply Forall_app. split; [exact H2|]. repeat constructor. cbn. eauto.
    - apply Forall_app. split.
      + eapply List.Forall_impl; [|exact H3]. intros it. apply Hmono.
      + repeat constructor. cbn [item_orderId]. eexists. split.
        * apply in_or_app. right. now left.
        * reflexivity.
    - eapply List.Forall_impl; [|exact H4]. intros k Hk oid Hs. apply Hmono. eauto. }
  destruct (createPayment _ _ _); exact Hnew.
Qed.

Lemma perform_referential op s :
  referential (shop_db s) -> referential (shop_db (perform op s)).
Proof.
  destruct op; cbn [perform];
    [apply createOrder_referential|..];
    unfold inDb, inWorld, shop_db; cbn [shop_world db];
    auto using handlePaymentCallback_referential, cancelOrder_referential,
      refundOrder_referential, bulkImport_referential, revoke_referential,
      bulkRevoke_referential, deleteKey_referential, bulkDelete_referential,
      deleteProduct_referential.
Qed.

(** X23. Nothing ever dangles. Through every history of orders placed,
    payments, cancellations, refunds, imports, revocations and deletions of
    keys and of products, every license key and every order item belongs to
    a product that is still in the catalogue, every order item belongs to
    an order, and every key that names an order names one that exists: a
    product that has keys or order items is never deleted, and a batch is
    imported only for a product that exists. *)
Theorem history_leaves_nothing_dangling (ops : list Operation) (s : Shop) :
  referential (shop_db s) -> referential (shop_db (performAll ops s)).
Proof.
  unfold performAll. revert s.
  induction ops as [|op ops IH]; intros s Hr; [exact Hr|].
  cbn [fold_left]. apply IH. now apply perform_referential.
Qed.

Lemma history_leaves_nothing_dangling_witness :
  referential (shop_db (performAll Histories.busy_week Counter.shop0)).
Proof.
  apply (history_leaves_nothing_dangling Histories.busy_week Counter.shop0).
  unfold referential, productExists, orderExists. cbn.
  repeat split; repeat constructor;
    solve [ exists Fixtures.w11; split; [now left|reflexivity]
          | exists Fixtures.order1; split; [now left|reflexivity]
          | intros orderId [=] ].
Defined.

End HistoryFacts.
